(** * hitpag: format recognition, operation inference, archive layout and
      target-conflict resolution

    A shallow embedding of the decision logic of [src/main.cpp]: the
    command line ([args]), the file type recogniser ([file_type]), the
    target conflict resolver ([target_path]), the command construction of
    [operation::compress] and [operation::decompress], the dialogue of
    the interactive mode ([interactive]) and [main] with its two
    branches.

    Conventions.
    - Path strings are [string]; the [std::filesystem::path] accessors are
      written out for the POSIX build (separator [/], libstdc++ behaviour).
    - Everything the program asks of the operating system (existence and
      kind of a path, file contents, canonical paths, tool lookup, exit
      statuses) is read from a [World] record of oracles.
    - Output, tool probes and tool executions are recorded in a trace of
      [event]s; exceptions are the error side of the [M] monad. *)

From Stdlib Require Import ZArith Ascii String.
From Stdlib.Strings Require Import Byte.
From stdpp Require Import base list strings pretty gmap.

Open Scope string_scope.
Open Scope list_scope.
Open Scope nat_scope.

(* ===================================================================== *)
(** ** Characters and strings *)
(* ===================================================================== *)

Module util.

Definition chars (s : string) : list ascii := list_ascii_of_string s.
Definition str (l : list ascii) : string := string_of_list_ascii l.

(** [std::tolower] on an [unsigned char] in the "C" locale. *)
Definition tolower (c : ascii) : ascii :=
  let n := nat_of_ascii c in
  if (65 <=? n)%nat && (n <=? 90)%nat then ascii_of_nat (n + 32) else c.

(** [std::isdigit]. *)
Definition isdigit (c : ascii) : bool :=
  let n := nat_of_ascii c in (48 <=? n)%nat && (n <=? 57)%nat.

(** [std::transform(s.begin(), s.end(), s.begin(), tolower)]. *)
Definition lower (s : string) : string := str (tolower <$> chars s).

Fixpoint drop_while (p : ascii → bool) (l : list ascii) : list ascii :=
  match l with
  | [] => []
  | c :: l' => if p c then drop_while p l' else l
  end.

Fixpoint take_while (p : ascii → bool) (l : list ascii) : list ascii :=
  match l with
  | [] => []
  | c :: l' => if p c then c :: take_while p l' else []
  end.

(** Membership in the set [" \t\n\r"]. *)
Definition is_blank (c : ascii) : bool :=
  bool_decide (c = " "%char) || bool_decide (c = "009"%char)
  || bool_decide (c = "010"%char) || bool_decide (c = "013"%char).

(** [util::trim_copy]: the substring between the first and the last
    character outside [" \t\n\r"], empty when there is none. *)
Definition trim_copy (value : string) : string :=
  str (reverse (drop_while is_blank (reverse (drop_while is_blank (chars value))))).

Definition is_char (c : ascii) : ascii → bool := λ x, bool_decide (x = c).
Definition not_char (c : ascii) : ascii → bool := λ x, negb (bool_decide (x = c)).

(** [s.back()] tested against a character; false on the empty string. *)
Definition back_is (c : ascii) (s : string) : bool :=
  match reverse (chars s) with
  | x :: _ => bool_decide (x = c)
  | [] => false
  end.

End util.

(* ===================================================================== *)
(** ** [std::filesystem::path] accessors on POSIX path strings *)
(* ===================================================================== *)

Module fspath.
Import util.

Definition sep : ascii := "/"%char.
Definition dot : ascii := "."%char.

(** Characters after the last separator: [path::filename()].  Empty for
    a path that ends in a separator, for the root and for the empty
    path. *)
Definition filename_chars (l : list ascii) : list ascii :=
  reverse (take_while (not_char sep) (reverse l)).

(** The path without its filename: empty, or ending in a separator. *)
Definition dir_chars (l : list ascii) : list ascii :=
  reverse (drop_while (not_char sep) (reverse l)).

Definition strip_trailing_seps (l : list ascii) : list ascii :=
  reverse (drop_while (is_char sep) (reverse l)).

(** [path::parent_path()]: the path up to the end of the next-to-last
    component; a path without a relative part (only separators) is its
    own parent. *)
Definition parent_chars (l : list ascii) : list ascii :=
  match dir_chars l with
  | [] => []
  | d =>
      match strip_trailing_seps d with
      | [] => if bool_decide (filename_chars l = []) then l else [sep]
      | d' => d'
      end
  end.

(** Position of the extension inside a filename, as libstdc++'s
    [_M_find_extension]: none for a name of at most two characters that
    starts with a dot, none when the last dot is the first character or
    absent. *)
Definition extension_of_filename (f : list ascii) : list ascii :=
  match f with
  | [] => []
  | c :: _ =>
      if (length f <=? 2)%nat && bool_decide (c = dot) then []
      else
        let tail := take_while (not_char dot) (reverse f) in
        if (length f <=? length tail)%nat then []          (* no dot: rfind = npos *)
        else if (length f =? S (length tail))%nat then []  (* rfind = 0 *)
        else drop (length f - S (length tail)) f
  end.

Definition filename (p : string) : string := str (filename_chars (chars p)).
Definition parent_path (p : string) : string := str (parent_chars (chars p)).
Definition extension (p : string) : string :=
  str (extension_of_filename (filename_chars (chars p))).
Definition has_extension (p : string) : bool :=
  negb (bool_decide (extension p = "")).

(** [path::stem()]: the filename without its extension. *)
Definition stem (p : string) : string :=
  let f := filename_chars (chars p) in
  str (take (length f - length (extension_of_filename f)) f).
Definition has_stem (p : string) : bool := negb (bool_decide (stem p = "")).

(** [path::replace_extension(r)] for a replacement that starts with a
    dot: the extension is erased and [r] appended. *)
Definition replace_extension (p r : string) : string :=
  let l := chars p in
  str (take (length l - length (chars (extension p))) l) +:+ r.

(** [parent / name] followed by [string()], for a [name] that is a
    plain filename. *)
Definition append (parent name : string) : string :=
  if bool_decide (parent = "") then name
  else if back_is sep parent then parent +:+ name
  else parent +:+ "/" +:+ name.

End fspath.

(* ===================================================================== *)
(** ** Error codes and the trace/exception monad *)
(* ===================================================================== *)

Module error.

Inductive ErrorCode :=
| SUCCESS | MISSING_ARGS | INVALID_SOURCE | INVALID_TARGET | SAME_PATH
| UNKNOWN_FORMAT | TOOL_NOT_FOUND | OPERATION_FAILED | PERMISSION_DENIED
| NOT_ENOUGH_SPACE | UNKNOWN_ERROR.

#[global] Instance ErrorCode_eq_dec : EqDecision ErrorCode.
Proof. solve_decision. Defined.

(** What a call can throw: a [HitpagException] carrying its code, or the
    [std::runtime_error] of a closed input stream. *)
Inductive exn :=
| HitpagException (code : ErrorCode)
| InputStreamClosed.

#[global] Instance exn_eq_dec : EqDecision exn.
Proof. solve_decision. Defined.

(** The key of the message of [error::throw_error(code)]. *)
Definition message_key (code : ErrorCode) : string :=
  match code with
  | MISSING_ARGS => "error_missing_args"
  | INVALID_SOURCE => "error_invalid_source"
  | INVALID_TARGET => "error_invalid_target"
  | SAME_PATH => "error_same_path"
  | UNKNOWN_FORMAT => "error_unknown_format"
  | TOOL_NOT_FOUND => "error_tool_not_found"
  | OPERATION_FAILED => "error_operation_failed"
  | PERMISSION_DENIED => "error_permission_denied"
  | NOT_ENOUGH_SPACE => "error_not_enough_space"
  | _ => "Unknown error"
  end.

(** [static_cast<int>(code)]. *)
Definition code_value (code : ErrorCode) : Z :=
  match code with
  | SUCCESS => 0 | MISSING_ARGS => 1 | INVALID_SOURCE => 2 | INVALID_TARGET => 3
  | SAME_PATH => 4 | UNKNOWN_FORMAT => 5 | TOOL_NOT_FOUND => 6
  | OPERATION_FAILED => 7 | PERMISSION_DENIED => 8 | NOT_ENOUGH_SPACE => 9
  | UNKNOWN_ERROR => 99
  end%Z.

End error.
Export error.

(** Observable effects, in program order.  Messages are named by their key
    in the [i18n::messages] table. *)
Inductive event :=
| Cout (key : string)                 (* std::cout << i18n::get(key) *)
| Cerr (key : string)                 (* error_fn(i18n::get(key)) *)
| Probe (tool : string)               (* is_tool_available(tool) *)
| Exec (tool : string) (args : list string) (working_dir : string)
| Ask (key : string) (value : string)  (* a prompt handed to the prompt helpers *)
| CreateDirectories (path : string)   (* fs::create_directories *)
| Remove (path : string)              (* fs::remove *)
| RemoveAll (path : string)           (* fs::remove_all *)
| Print (text : string)               (* std::cout << text, a text of the code *)
| PrintErr (text : string).           (* std::cerr << text *)

#[global] Instance event_eq_dec : EqDecision event.
Proof. solve_decision. Defined.

(** A computation: the events it emitted and either the exception that
    ended it or its value. *)
Definition M (A : Type) : Type := (list event * (exn + A))%type.

Definition bind {A B} (m : M A) (f : A → M B) : M B :=
  match m with
  | (t, inl e) => (t, inl e)
  | (t, inr a) => let '(t', r) := f a in (t ++ t', r)
  end.

#[global] Instance M_ret : MRet M := λ A a, ([], inr a).
#[global] Instance M_bind : MBind M := λ A B f m, bind m f.

Notation "x <- y ; z" := (bind y (λ x, z))
  (at level 20, y at level 100, z at level 200, only parsing).
Notation "' x <- y ; z" := (bind y (λ x, z))
  (at level 20, x pattern, y at level 100, z at level 200, only parsing).

Definition throw_error {A} (code : ErrorCode) : M A := ([], inl (HitpagException code)).
Definition emit (e : event) : M unit := ([e], inr tt).
Definition when (b : bool) (m : M unit) : M unit := if b then m else mret tt.

Definition trace {A} (m : M A) : list event := m.1.
Definition outcome {A} (m : M A) : exn + A := m.2.

Definition is_exec (e : event) : bool :=
  match e with Exec _ _ _ => true | _ => false end.
(** No external tool was run; the lookup of a tool on the search path
    ([Probe]) does not run it. *)
Definition no_tool_run {A} (m : M A) : Prop := filter is_exec (trace m) = [].

(** Two runs end the same way and run the same external commands. *)
Definition same_commands {A} (m1 m2 : M A) : Prop :=
  outcome m1 = outcome m2
  ∧ filter is_exec (trace m1) = filter is_exec (trace m2).

(* ===================================================================== *)
(** ** [std::stol] and [std::stoi] *)
(* ===================================================================== *)

Module std.
Import util.

(** [std::isspace] in the "C" locale: the space and the characters 9 to 13. *)
Definition isspace (c : ascii) : bool :=
  let n := nat_of_ascii c in (n =? 32)%nat || (9 <=? n)%nat && (n <=? 13)%nat.

Definition digit_value (c : ascii) : Z := Z.of_nat (nat_of_ascii c - 48).

(** [strtol(s, &end, 10)] without its range check: the value and the
    number of characters used, [None] when no digit was found.  Leading
    white space is passed over and one sign is accepted. *)
Definition strtol10 (s : string) : option (Z * nat) :=
  let l := chars s in
  let blanks := take_while isspace l in
  let signed := drop (length blanks) l in
  let '(negative, sign, unsigned) :=
    match signed with
    | c :: rest =>
        if bool_decide (c = "-"%char) then (true, 1, rest)
        else if bool_decide (c = "+"%char) then (false, 1, rest)
        else (false, 0, signed)
    | [] => (false, 0, [])
    end in
  let digits := take_while isdigit unsigned in
  if bool_decide (digits = []) then None else
  let magnitude := foldl (λ acc c, (acc * 10 + digit_value c)%Z) 0%Z digits in
  Some (if negative then (- magnitude)%Z else magnitude,
        length blanks + sign + length digits).

(** What a conversion gives: the value and [*pos], or the exception. *)
Inductive conversion :=
| Converted (value : Z) (pos : nat)
| InvalidArgument          (* std::invalid_argument *)
| OutOfRange.              (* std::out_of_range *)

Definition in_range (bits : Z) (value : Z) : bool :=
  (- 2 ^ (bits - 1) <=? value)%Z && (value <=? 2 ^ (bits - 1) - 1)%Z.

(** [std::stol(s, &pos)], [long] being 64 bits wide. *)
Definition stol (s : string) : conversion :=
  match strtol10 s with
  | None => InvalidArgument
  | Some (value, pos) => if in_range 64 value then Converted value pos else OutOfRange
  end.

(** [std::stoi(s)]: the conversion of [strtol], refused when the value
    does not fit an [int]. *)
Definition stoi (s : string) : conversion :=
  match strtol10 s with
  | None => InvalidArgument
  | Some (value, pos) => if in_range 32 value then Converted value pos else OutOfRange
  end.

End std.

(* ===================================================================== *)
(** ** [namespace i18n] *)
(* ===================================================================== *)

Module i18n.
Import util.

(** The table [messages], in the order of the source. *)
Definition messages : list (string * string) :=
  [ ("welcome", "Welcome to hitpag smart compression/decompression tool");
    ("goodbye", "Thank you for using hitpag, goodbye!");
    ("processing", "Processing {COUNT} items...");
    ("compression_ratio", "Compression ratio: {RATIO}% (saved {SAVED} bytes)");
    ("operation_time", "Operation completed in {TIME} seconds");
    ("threads_info", "Using {COUNT} threads for parallel processing");
    ("usage", "Usage: hitpag [options] [--] SOURCE_PATH TARGET_PATH");
    ("help_options", "Options:");
    ("help_i", "  -i              Interactive mode");
    ("help_p", "  -p[password]    Encrypt/Decrypt with a password. If password is not attached, prompts for it.");
    ("help_l", "  -l[level]       Compression level (1-9, default depends on format)");
    ("help_t", "  -t[threads]     Number of threads to use (default: auto-detect)");
    ("help_verbose", "  --verbose       Show detailed progress information");
    ("help_exclude", "  --exclude=PATTERN  Exclude files/directories matching pattern");
    ("help_include", "  --include=PATTERN  Include only files/directories matching pattern");
    ("help_benchmark", "  --benchmark     Show compression performance statistics");
    ("help_verify", "  --verify        Verify archive integrity after compression");
    ("help_format", "  --format=TYPE   Force archive type (zip, 7z, tar.gz, tar.bz2, tar.xz, rar, lz4, zstd, xar)");
    ("help_h", "  -h, --help      Display help information");
    ("help_v", "  -v, --version   Display version information");
    ("help_examples", "Examples:");
    ("help_example1", "  hitpag arch.tar.gz ./extracted_dir    # Decompress arch.tar.gz to extracted_dir");
    ("help_example2", "  hitpag ./my_folder my_archive.zip     # Compress my_folder to my_archive.zip (creates my_folder inside zip)");
    ("help_example_new_path", "  hitpag ./my_folder/ my_archive.zip    # Compress contents of my_folder (no root folder in zip)");
    ("help_example3", "  hitpag -i big_file.rar .              # Interactive decompression of big_file.rar to current directory");
    ("help_example4", "  hitpag -pmysecret my_docs.7z ./docs  # Encrypt ./docs into my_docs.7z with password 'mysecret'");
    ("help_example5", "  hitpag -p secret.zip .                # Decompress secret.zip, will prompt for password");
    ("help_example6", "  hitpag -l9 -t4 big_data.tar.gz ./data # Compress with max level using 4 threads");
    ("help_example7", "  hitpag --verbose --benchmark ./files archive.7z # Verbose compression with benchmarking");
    ("help_example8", "  hitpag --exclude='*.tmp' --include='*.cpp' src/ code.tar.gz # Filter files during compression");
    ("help_example9", "  hitpag --format=zip data.7z ./extracted # Force treat data.7z as ZIP and decompress");
    ("error_missing_args", "Error: Missing arguments. {ADDITIONAL_INFO}");
    ("error_invalid_source", "Error: Source path '{PATH}' does not exist or is invalid. {REASON}");
    ("error_invalid_target", "Error: Invalid target path '{PATH}'. {REASON}");
    ("error_same_path", "Error: Source and target paths cannot be the same");
    ("error_unknown_format", "Error: Unrecognized file format or ambiguous operation. {INFO}");
    ("error_tool_not_found", "Error: Required tool not found: {TOOL_NAME}. Please ensure it is installed and in your system's PATH.");
    ("error_operation_failed", "Error: Operation failed (command: {COMMAND}, exit code: {EXIT_CODE}). Might be due to a wrong password.");
    ("error_permission_denied", "Error: Permission denied. {PATH}");
    ("error_not_enough_space", "Error: Not enough disk space");
    ("error_input_stream_closed", "Input stream closed. Operation canceled.");
    ("interactive_mode", "Interactive mode started");
    ("ask_operation", "Please select operation type:");
    ("operation_compress", "1. Compress");
    ("operation_decompress", "2. Decompress");
    ("ask_format", "Please select compression format:");
    ("format_tar_gz", "tar.gz (gzip compression)");
    ("format_zip", "zip (supports password)");
    ("format_7z", "7z (supports password)");
    ("format_tar", "tar (no compression)");
    ("format_tar_bz2", "tar.bz2 (bzip2 compression)");
    ("format_tar_xz", "tar.xz (xz compression)");
    ("format_rar", "rar (decompression only recommended)");
    ("format_lz4", "lz4 (fast compression)");
    ("format_zstd", "zstd (modern compression)");
    ("format_xar", "xar (macOS archive format)");
    ("ask_overwrite", "Target '{TARGET_PATH}' already exists, overwrite? (y/n): ");
    ("ask_delete_source", "Delete source '{SOURCE_PATH}' after operation? (y/n): ");
    ("ask_set_password", "Set a password for the archive? (y/n): ");
    ("ask_has_password", "Does the archive require a password? (y/n): ");
    ("enter_password", "Enter password: ");
    ("confirm_password", "Confirm password: ");
    ("password_mismatch", "Passwords do not match. Please try again.");
    ("invalid_choice", "Invalid choice, please try again");
    ("compressing", "Compressing...");
    ("decompressing", "Decompressing...");
    ("verifying", "Verifying archive integrity...");
    ("verification_success", "Archive verification successful");
    ("verification_failed", "Archive verification failed");
    ("operation_complete", "Operation complete");
    ("operation_canceled", "Operation canceled");
    ("warning_tar_password", "Warning: Password protection is not supported for tar formats. The password will be ignored.");
    ("info_split_zip_detected", "Split ZIP archive detected, using 7z for extraction.");
    ("error_split_zip_requires_7z", "Error: Split ZIP archives require '7z' (p7zip) for extraction. Please install p7zip-full.");
    ("error_split_zip_main_not_found", "Main ZIP file not found for split archive. Expected: {PATH}");
    ("filtering_files", "Filtering files: included {INCLUDED}, excluded {EXCLUDED}");
    ("target_exists_header", "Target {OBJECT_TYPE} '{TARGET_PATH}' already exists.");
    ("target_exists_options", "Choose action: [O]verwrite / [C]ancel / [R]ename");
    ("target_exists_choice_prompt", "Choice (o/c/r): ");
    ("target_exists_invalid", "Invalid choice, please enter o, c, or r.");
    ("target_exists_rename_prompt", "Enter a new target path (default: {DEFAULT}): ");
    ("target_exists_empty", "Target path cannot be empty.");
    ("target_exists_same", "New target path matches the current path. Please choose a different value.");
    ("target_exists_remove_failed", "Failed to remove existing target '{TARGET_PATH}': {REASON}");
    ("target_exists_keep_directory", "Proceeding without deleting the existing directory. Existing files may be overwritten.");
    ("target_exists_rename_conflict", "Path '{TARGET_PATH}' already exists. You may overwrite it or choose a different name.");
    ("target_exists_object_file", "file");
    ("target_exists_object_directory", "directory") ].

(** [messages.find(key)]; the keys of the table are pairwise distinct. *)
Definition find (key : string) : option string :=
  snd <$> List.find (λ entry, bool_decide (entry.1 = key)) messages.

(** The [while] loop that replaces [placeholder_key] by [value]: the
    occurrences are taken from left to right, and the search goes on
    behind the value just put in.  [skip] counts the characters of a
    replaced occurrence that are still to be passed over;
    [placeholder_key] is never empty. *)
Fixpoint replace_all (placeholder_key value : list ascii) (skip : nat)
    (message : list ascii) : list ascii :=
  match message with
  | [] => []
  | c :: rest =>
      match skip with
      | S skip' => replace_all placeholder_key value skip' rest
      | O =>
          if bool_decide (placeholder_key `prefix_of` message)
          then value ++ replace_all placeholder_key value (length placeholder_key - 1) rest
          else c :: replace_all placeholder_key value 0 rest
      end
  end.

(** The loop that removes the placeholders left.  At each [{] the next
    [}] is looked for behind it: when there is one, the text from the
    [{] to that [}] is erased and the search goes on at the same place;
    when there is none the loop ends and the rest stays as it is. *)
Fixpoint remove_unused (message : list ascii) : list ascii :=
  match message with
  | [] => []
  | c :: rest =>
      if bool_decide (c = "{"%char) then
        (fix erase_to_close (behind : list ascii) : list ascii :=
           match behind with
           | [] => message        (* no closing brace *)
           | d :: behind' =>
               if bool_decide (d = "}"%char) then remove_unused behind'
               else erase_to_close behind'
           end) rest
      else c :: remove_unused rest
  end.

(** [i18n::get(key, placeholders)]; [placeholders] lists the entries of
    the map in the order in which it is iterated, by ascending key. *)
Definition get (key : string) (placeholders : list (string * string)) : string :=
  match find key with
  | None => "[" +:+ key +:+ "]"     (* the key itself if not found *)
  | Some message_template =>
      let replaced :=
        foldl (λ message p,
                 replace_all (chars ("{" +:+ p.1 +:+ "}")) (chars p.2) 0 message)
              (chars message_template) placeholders in
      str (remove_unused replaced)
  end.

End i18n.

(* ===================================================================== *)
(** ** The operating system as seen by the program

    The answers are fixed for the length of one command.  What the
    program itself changes (an overwritten target removed, the target
    directory created) is recorded as an event; it asks about no path
    again after changing it. *)
(* ===================================================================== *)

Record World := {
  fs_exists : string → bool;                 (* fs::exists *)
  fs_is_directory : string → bool;           (* fs::is_directory *)
  fs_is_regular_file : string → bool;        (* fs::is_regular_file *)
  (** [std::ifstream file(path, std::ios::binary)]: the bytes of the file,
      [None] when the stream cannot be opened. *)
  fs_open : string → option (list byte);
  (** [fs::equivalent(a, b, ec)]: the answer and whether [ec] was set. *)
  fs_equivalent : string → string → bool * bool;
  (** [fs::weakly_canonical] of an existing path: the components of the
      canonical absolute path below the root. *)
  fs_weakly_canonical : string → list string;
  fs_absolute : string → string;             (* fs::absolute(p).string() *)
  fs_current_path : list string;             (* fs::current_path(), as components *)
  fs_remove_fails : string → bool;           (* fs::remove(p, ec) sets ec *)
  fs_remove_all_fails : string → bool;       (* fs::remove_all(p, ec) sets ec *)
  fs_create_directories_fails : string → bool;
  tool_on_path : string → bool;              (* is_tool_available *)
  exit_status : string → list string → string → Z;  (* execute_command *)
  (** [tcgetattr] and [tcsetattr] succeed on standard input. *)
  stdin_is_terminal : bool;
  hardware_concurrency : N                   (* std::thread::hardware_concurrency() *)
}.

(* ===================================================================== *)
(** ** [namespace file_type] *)
(* ===================================================================== *)

Module file_type.
Import util.

Inductive FileType :=
| REGULAR_FILE | DIRECTORY | ARCHIVE_TAR | ARCHIVE_TAR_GZ | ARCHIVE_TAR_BZ2
| ARCHIVE_TAR_XZ | ARCHIVE_ZIP | ARCHIVE_RAR | ARCHIVE_7Z
| ARCHIVE_LZ4 | ARCHIVE_ZSTD | ARCHIVE_XAR | UNKNOWN.

#[global] Instance FileType_eq_dec : EqDecision FileType.
Proof. solve_decision. Defined.

Inductive OperationType := COMPRESS | DECOMPRESS | OP_UNKNOWN.

#[global] Instance OperationType_eq_dec : EqDecision OperationType.
Proof. solve_decision. Defined.

Record RecognitionResult := {
  source_type : FileType;
  target_type_hint : FileType;
  operation : OperationType
}.

(** Split ZIP part pattern: [.z01], [.z02], ... [.z99]. *)
Definition is_split_zip_extension (ext_lower : string) : bool :=
  match chars ext_lower with
  | [c0; c1; c2; c3] =>
      bool_decide (c0 = "."%char) && bool_decide (c1 = "z"%char)
      && isdigit c2 && isdigit c3
  | _ => false
  end.

Definition recognize_by_extension (path_str : string) : FileType :=
  if negb (fspath.has_extension path_str) then UNKNOWN else
  let ext := lower (fspath.extension path_str) in
  if bool_decide (ext = ".tar") then ARCHIVE_TAR else
  if bool_decide (ext = ".zip") then ARCHIVE_ZIP else
  if is_split_zip_extension ext then ARCHIVE_ZIP else
  if bool_decide (ext = ".rar") then ARCHIVE_RAR else
  if bool_decide (ext = ".7z") then ARCHIVE_7Z else
  if bool_decide (ext = ".lz4") then ARCHIVE_LZ4 else
  if bool_decide (ext = ".zst") || bool_decide (ext = ".zstd") then ARCHIVE_ZSTD else
  if bool_decide (ext = ".xar") then ARCHIVE_XAR else
  if bool_decide (ext = ".tgz") then ARCHIVE_TAR_GZ else
  if bool_decide (ext = ".tbz2") || bool_decide (ext = ".tbz") then ARCHIVE_TAR_BZ2 else
  if bool_decide (ext = ".txz") then ARCHIVE_TAR_XZ else
  (* double extensions like ".tar.gz" *)
  if fspath.has_stem path_str && fspath.has_extension (fspath.stem path_str) then
    let stem_ext := lower (fspath.extension (fspath.stem path_str)) in
    if bool_decide (stem_ext = ".tar") then
      if bool_decide (ext = ".gz") then ARCHIVE_TAR_GZ else
      if bool_decide (ext = ".bz2") then ARCHIVE_TAR_BZ2 else
      if bool_decide (ext = ".xz") then ARCHIVE_TAR_XZ else UNKNOWN
    else UNKNOWN
  else UNKNOWN.

(** *** The input stream of [recognize_by_header]

    [std::ifstream] reduced to what the function uses: the bytes of the
    file, the read position, [failbit] and [gcount()].  [read] extracts up
    to [n] bytes; when fewer than [n] are left it sets [failbit] (together
    with [eofbit], [istream.unformatted]); on a stream that already
    failed it extracts nothing. *)
Record ifstream := {
  data : list byte;
  pos : nat;
  failbit : bool;
  gcount : nat
}.

(** The stream just after it was opened on a file holding [bytes]. *)
Definition opened (bytes : list byte) : ifstream :=
  {| data := bytes; pos := 0; failbit := false; gcount := 0 |}.

Definition ifstream_open (w : World) (path : string) : option ifstream :=
  opened <$> fs_open w path.

(** [file.read(buf.data(), n)] into a zero-initialised [std::array<char, n>]:
    the array afterwards and the stream afterwards. *)
Definition read (n : nat) (file : ifstream) : list byte * ifstream :=
  if failbit file then
    (replicate n x00, {| data := data file; pos := pos file; failbit := true; gcount := 0 |})
  else
    let got := take n (drop (pos file) (data file)) in
    (got ++ replicate (n - length got) x00,
     {| data := data file; pos := pos file + length got;
        failbit := (length got <? n)%nat; gcount := length got |}).

Definition clear (file : ifstream) : ifstream :=
  {| data := data file; pos := pos file; failbit := false; gcount := gcount file |}.

Definition seekg (p : nat) (file : ifstream) : ifstream :=
  if failbit file then file
  else {| data := data file; pos := p; failbit := false; gcount := gcount file |}.

(** [buf[i]]. *)
Definition at_ (buf : list byte) (i : nat) : byte := nth i buf x00.

(** The value of a [char] holding this byte ([char] is signed on the
    target; an unsigned [char] gives the same verdict below, since a byte
    of 128 or more is then above 126 instead of below 32). *)
Definition char_value (b : byte) : Z :=
  let n := Z.of_N (Byte.to_N b) in if (n <? 128)%Z then n else (n - 256)%Z.

(** The scan of the name field: [(looks_like_tar, has_filename)] after the
    loop over the first 100 bytes, which stops at the first byte that is
    neither null nor printable. *)
Fixpoint scan_filename (block : list byte) (has_filename : bool) : bool * bool :=
  match block with
  | [] => (true, has_filename)
  | b :: rest =>
      if negb (Byte.eqb b x00) then
        if (char_value b <? 32)%Z || (126 <? char_value b)%Z then (false, true)
        else scan_filename rest true
      else scan_filename rest has_filename
  end.

#[global] Instance byte_eq_decision : EqDecision byte := byte_eq_dec.

Definition ustar : list byte := [x75; x73; x74; x61; x72].

Local Infix "==" := Byte.eqb (at level 70, no associativity).

(** The end of [recognize_by_header]: the two TAR checks, each after
    [file.clear()] and a seek. *)
Definition tar_checks (file : ifstream) : FileType :=
  (* "ustar" at byte offset 257 *)
  let file := seekg 257 (clear file) in
  let '(tar_header, file) := read 6 file in
  if (5 <=? gcount file)%nat && bool_decide (take 5 tar_header = ustar)
  then ARCHIVE_TAR else
  (* old TAR format: a printable name in the first 100 bytes of a block *)
  let file := seekg 0 (clear file) in
  let '(tar_block, file) := read 512 file in
  if (512 <=? gcount file)%nat then
    let '(looks_like_tar, has_filename) := scan_filename (take 100 tar_block) false in
    if looks_like_tar && has_filename then ARCHIVE_TAR else UNKNOWN
  else UNKNOWN.

(** The body of [recognize_by_header] once the stream is open: the first
    read and the magic numbers, then [tar_checks]. *)
Definition recognize_stream (file : ifstream) : FileType :=
  let '(header, file) := read 16 file in
  (* both that we read enough bytes and that the read operation succeeded *)
  if (gcount file <? 4)%nat || failbit file then UNKNOWN else
  let h := at_ header in
  (* ZIP: PK, then local header / end of central directory / central header *)
  if (h 0 == x50) && (h 1 == x4b)
     && ((h 2 == x03) && (h 3 == x04) || (h 2 == x05) && (h 3 == x06)
         || (h 2 == x01) && (h 3 == x02))
  then ARCHIVE_ZIP else
  (* Rar! *)
  if (h 0 == x52) && (h 1 == x61) && (h 2 == x72) && (h 3 == x21)
  then ARCHIVE_RAR else
  if (6 <=? gcount file)%nat && (h 0 == x37) && (h 1 == x7a) && (h 2 == xbc)
     && (h 3 == xaf) && (h 4 == x27) && (h 5 == x1c)
  then ARCHIVE_7Z else
  (* GZIP: defaults to tar.gz *)
  if (h 0 == x1f) && (h 1 == x8b) then ARCHIVE_TAR_GZ else
  (* BZh *)
  if (h 0 == x42) && (h 1 == x5a) && (h 2 == x68) then ARCHIVE_TAR_BZ2 else
  if (6 <=? gcount file)%nat && (h 0 == xfd) && (h 1 == x37) && (h 2 == x7a)
     && (h 3 == x58) && (h 4 == x5a) && (h 5 == x00)
  then ARCHIVE_TAR_XZ else
  if (h 0 == x04) && (h 1 == x22) && (h 2 == x4d) && (h 3 == x18)
  then ARCHIVE_LZ4 else
  if (h 0 == x28) && (h 1 == xb5) && (h 2 == x2f) && (h 3 == xfd)
     || (h 0 == x22) && (h 1 == xb5) && (h 2 == x2f) && (h 3 == xfd)
  then ARCHIVE_ZSTD else
  tar_checks file.

Definition recognize_by_header (w : World) (path : string) : FileType :=
  match ifstream_open w path with
  | None => UNKNOWN
  | Some file => recognize_stream file
  end.

(** Robustly determine the type of a source path. *)
Definition recognize_source_type (w : World) (source_path_str : string) : M FileType :=
  if negb (fs_exists w source_path_str) then throw_error INVALID_SOURCE else
  if fs_is_directory w source_path_str then mret DIRECTORY else
  if fs_is_regular_file w source_path_str then
    (* header detection first, extension as the fallback *)
    let type := recognize_by_header w source_path_str in
    let type := if bool_decide (type = UNKNOWN)
                then recognize_by_extension source_path_str else type in
    mret (if bool_decide (type = UNKNOWN) then REGULAR_FILE else type)
  else throw_error INVALID_SOURCE.

Definition recognize (w : World) (source_path_str target_path_str : string)
  : M RecognitionResult :=
  source_type <- recognize_source_type w source_path_str;
  let target_type_hint :=
    if negb (bool_decide (target_path_str = ""))
    then recognize_by_extension target_path_str else UNKNOWN in
  let target_is_archive :=
    negb (bool_decide (target_type_hint = UNKNOWN))
    && negb (bool_decide (target_type_hint = REGULAR_FILE))
    && negb (bool_decide (target_type_hint = DIRECTORY)) in
  if bool_decide (source_type = DIRECTORY) || bool_decide (source_type = REGULAR_FILE) then
    if target_is_archive then
      mret {| source_type := source_type; target_type_hint := target_type_hint;
              operation := COMPRESS |}
    else
      (* no archive extension: still a compression; the format comes
         from --format if given *)
      mret {| source_type := source_type; target_type_hint := UNKNOWN;
              operation := COMPRESS |}
  else
    (* source is an archive *)
    if fs_exists w target_path_str && negb (fs_is_directory w target_path_str) then
      throw_error INVALID_TARGET
    else
      mret {| source_type := source_type; target_type_hint := target_type_hint;
              operation := DECOMPRESS |}.

(** The ten archive tags. *)
Definition archive_tag (tag : FileType) : Prop :=
  tag ≠ REGULAR_FILE ∧ tag ≠ DIRECTORY ∧ tag ≠ UNKNOWN.

Definition tar_family (tag : FileType) : Prop :=
  tag = ARCHIVE_TAR ∨ tag = ARCHIVE_TAR_GZ ∨ tag = ARCHIVE_TAR_BZ2 ∨ tag = ARCHIVE_TAR_XZ.

Definition parse_format_string (format_str : string) : FileType :=
  let fmt := lower format_str in
  if bool_decide (fmt = "zip") then ARCHIVE_ZIP else
  if bool_decide (fmt = "7z") then ARCHIVE_7Z else
  if bool_decide (fmt = "tar") then ARCHIVE_TAR else
  if bool_decide (fmt = "tar.gz") || bool_decide (fmt = "tgz") then ARCHIVE_TAR_GZ else
  if bool_decide (fmt = "tar.bz2") || bool_decide (fmt = "tbz2") then ARCHIVE_TAR_BZ2 else
  if bool_decide (fmt = "tar.xz") || bool_decide (fmt = "txz") then ARCHIVE_TAR_XZ else
  if bool_decide (fmt = "rar") then ARCHIVE_RAR else
  if bool_decide (fmt = "lz4") then ARCHIVE_LZ4 else
  if bool_decide (fmt = "zstd") || bool_decide (fmt = "zst") then ARCHIVE_ZSTD else
  if bool_decide (fmt = "xar") then ARCHIVE_XAR else
  UNKNOWN.

(** The table of [get_file_type_string], in the order of the source. *)
Definition type_map : list (FileType * string) :=
  [ (REGULAR_FILE, "Regular File"); (DIRECTORY, "Directory");
    (ARCHIVE_TAR, "TAR Archive"); (ARCHIVE_TAR_GZ, "TAR.GZ Archive");
    (ARCHIVE_TAR_BZ2, "TAR.BZ2 Archive"); (ARCHIVE_TAR_XZ, "TAR.XZ Archive");
    (ARCHIVE_ZIP, "ZIP Archive"); (ARCHIVE_RAR, "RAR Archive");
    (ARCHIVE_7Z, "7Z Archive"); (ARCHIVE_LZ4, "LZ4 Archive");
    (ARCHIVE_ZSTD, "ZSTD Archive"); (ARCHIVE_XAR, "XAR Archive");
    (UNKNOWN, "Unknown Type") ].

Definition get_file_type_string (type : FileType) : string :=
  match List.find (λ entry, bool_decide (entry.1 = type)) type_map with
  | Some entry => entry.2
  | None => "Unknown"
  end.

End file_type.

(* ===================================================================== *)
(** ** [namespace args] *)
(* ===================================================================== *)

Module args.
Import util.

(** The members of [struct Options] that the operations and the two
    branches of [main] read. *)
Record Options := {
  interactive_mode : bool;
  source_path : string;
  source_paths : list string;
  target_path : string;
  password : string;
  compression_level : Z;   (* 0 means the default of the format *)
  thread_count : Z;        (* 0 means auto-detect *)
  verbose : bool;
  benchmark : bool;
  verify : bool;
  force_format : string
}.

(** [args::Options{}]: every member at its default. *)
Definition default : Options := {|
  interactive_mode := false; source_path := ""; source_paths := [];
  target_path := ""; password := ""; compression_level := 0;
  thread_count := 0; verbose := false; benchmark := false; verify := false;
  force_format := ""
|}.

(** [struct Options] as [parse] fills it: the members above, and those
    that only [parse] writes and the head of [main] reads. *)
Record CommandLine := {
  options : Options;
  show_help : bool;
  show_version : bool;
  password_prompt : bool;
  exclude_patterns : list string;
  include_patterns : list string
}.

Definition default_command_line : CommandLine := {|
  options := default; show_help := false; show_version := false;
  password_prompt := false; exclude_patterns := []; include_patterns := []
|}.

(** Assignments to one member. *)
Definition set_interactive_mode (v : bool) (o : Options) : Options :=
  {| interactive_mode := v; source_path := source_path o;
     source_paths := source_paths o; target_path := target_path o;
     password := password o; compression_level := compression_level o;
     thread_count := thread_count o; verbose := verbose o; benchmark := benchmark o;
     verify := verify o; force_format := force_format o |}.
Definition set_source_path (v : string) (o : Options) : Options :=
  {| interactive_mode := interactive_mode o; source_path := v;
     source_paths := source_paths o; target_path := target_path o;
     password := password o; compression_level := compression_level o;
     thread_count := thread_count o; verbose := verbose o; benchmark := benchmark o;
     verify := verify o; force_format := force_format o |}.
Definition set_source_paths (v : list string) (o : Options) : Options :=
  {| interactive_mode := interactive_mode o; source_path := source_path o;
     source_paths := v; target_path := target_path o;
     password := password o; compression_level := compression_level o;
     thread_count := thread_count o; verbose := verbose o; benchmark := benchmark o;
     verify := verify o; force_format := force_format o |}.
Definition set_target_path (v : string) (o : Options) : Options :=
  {| interactive_mode := interactive_mode o; source_path := source_path o;
     source_paths := source_paths o; target_path := v;
     password := password o; compression_level := compression_level o;
     thread_count := thread_count o; verbose := verbose o; benchmark := benchmark o;
     verify := verify o; force_format := force_format o |}.
Definition set_password (v : string) (o : Options) : Options :=
  {| interactive_mode := interactive_mode o; source_path := source_path o;
     source_paths := source_paths o; target_path := target_path o;
     password := v; compression_level := compression_level o;
     thread_count := thread_count o; verbose := verbose o; benchmark := benchmark o;
     verify := verify o; force_format := force_format o |}.
Definition set_compression_level (v : Z) (o : Options) : Options :=
  {| interactive_mode := interactive_mode o; source_path := source_path o;
     source_paths := source_paths o; target_path := target_path o;
     password := password o; compression_level := v;
     thread_count := thread_count o; verbose := verbose o; benchmark := benchmark o;
     verify := verify o; force_format := force_format o |}.
Definition set_thread_count (v : Z) (o : Options) : Options :=
  {| interactive_mode := interactive_mode o; source_path := source_path o;
     source_paths := source_paths o; target_path := target_path o;
     password := password o; compression_level := compression_level o;
     thread_count := v; verbose := verbose o; benchmark := benchmark o;
     verify := verify o; force_format := force_format o |}.
Definition set_verbose (v : bool) (o : Options) : Options :=
  {| interactive_mode := interactive_mode o; source_path := source_path o;
     source_paths := source_paths o; target_path := target_path o;
     password := password o; compression_level := compression_level o;
     thread_count := thread_count o; verbose := v; benchmark := benchmark o;
     verify := verify o; force_format := force_format o |}.
Definition set_benchmark (v : bool) (o : Options) : Options :=
  {| interactive_mode := interactive_mode o; source_path := source_path o;
     source_paths := source_paths o; target_path := target_path o;
     password := password o; compression_level := compression_level o;
     thread_count := thread_count o; verbose := verbose o; benchmark := v;
     verify := verify o; force_format := force_format o |}.
Definition set_verify (v : bool) (o : Options) : Options :=
  {| interactive_mode := interactive_mode o; source_path := source_path o;
     source_paths := source_paths o; target_path := target_path o;
     password := password o; compression_level := compression_level o;
     thread_count := thread_count o; verbose := verbose o; benchmark := benchmark o;
     verify := v; force_format := force_format o |}.
Definition set_force_format (v : string) (o : Options) : Options :=
  {| interactive_mode := interactive_mode o; source_path := source_path o;
     source_paths := source_paths o; target_path := target_path o;
     password := password o; compression_level := compression_level o;
     thread_count := thread_count o; verbose := verbose o; benchmark := benchmark o;
     verify := verify o; force_format := v |}.

(** An assignment to a member of [options] in the whole struct. *)
Definition update (f : Options → Options) (c : CommandLine) : CommandLine :=
  {| options := f (options c); show_help := show_help c;
     show_version := show_version c; password_prompt := password_prompt c;
     exclude_patterns := exclude_patterns c; include_patterns := include_patterns c |}.
Definition set_show_help (v : bool) (c : CommandLine) : CommandLine :=
  {| options := options c; show_help := v;
     show_version := show_version c; password_prompt := password_prompt c;
     exclude_patterns := exclude_patterns c; include_patterns := include_patterns c |}.
Definition set_show_version (v : bool) (c : CommandLine) : CommandLine :=
  {| options := options c; show_help := show_help c;
     show_version := v; password_prompt := password_prompt c;
     exclude_patterns := exclude_patterns c; include_patterns := include_patterns c |}.
Definition set_password_prompt (v : bool) (c : CommandLine) : CommandLine :=
  {| options := options c; show_help := show_help c;
     show_version := show_version c; password_prompt := v;
     exclude_patterns := exclude_patterns c; include_patterns := include_patterns c |}.
Definition set_exclude_patterns (v : list string) (c : CommandLine) : CommandLine :=
  {| options := options c; show_help := show_help c;
     show_version := show_version c; password_prompt := password_prompt c;
     exclude_patterns := v; include_patterns := include_patterns c |}.
Definition set_include_patterns (v : list string) (c : CommandLine) : CommandLine :=
  {| options := options c; show_help := show_help c;
     show_version := show_version c; password_prompt := password_prompt c;
     exclude_patterns := exclude_patterns c; include_patterns := v |}.

(** [opt.rfind(prefix, 0) == 0]. *)
Definition starts_with (prefix opt : string) : bool :=
  bool_decide (chars prefix `prefix_of` chars opt).

(** [opt.substr(n)] for [n] within the string. *)
Definition substr (n : nat) (opt : string) : string := str (drop n (chars opt)).

(** The [try] block of [-l] and [-t]: the number behind the option
    letter, which must take up the whole rest of the option and lie
    between [low] and [high].  The error thrown for a bad number inside
    the block is caught by the handler for [std::exception] and thrown
    again; all three ways out carry the code [MISSING_ARGS]. *)
Definition number_between (low high : Z) (text : string) : M Z :=
  match std.stol text with
  | std.Converted value pos =>
      if negb (pos =? String.length text)%nat || (value <? low)%Z || (high <? value)%Z
      then throw_error MISSING_ARGS
      else mret value
  | std.OutOfRange => throw_error MISSING_ARGS
  | std.InvalidArgument => throw_error MISSING_ARGS
  end.

(** How the loop over the options ends: [parse] returns at once (help or
    version), or the arguments from [i] on are positional. *)
Inductive scanned :=
| Returned (c : CommandLine)
| Positional (c : CommandLine) (rest : list string).

(** The [while] loop over the leading options; [args_vec] is what is left
    from index [i] on. *)
Fixpoint scan_options (w : World) (args_vec : list string) (c : CommandLine)
  : M scanned :=
  match args_vec with
  | [] => mret (Positional c [])
  | opt :: rest =>
      (* args_vec[i][0] == '-'; on an empty argument [0] is the null character *)
      if negb (bool_decide (head (chars opt) = Some "-"%char))
      then mret (Positional c args_vec)
      else if bool_decide (opt = "--") then mret (Positional c rest)
      else if bool_decide (opt = "-i")
      then scan_options w rest (update (set_interactive_mode true) c)
      else if bool_decide (opt = "-h") || bool_decide (opt = "--help")
      then mret (Returned (set_show_help true c))
      else if bool_decide (opt = "-v") || bool_decide (opt = "--version")
      then mret (Returned (set_show_version true c))
      else if starts_with "-p" opt then
        scan_options w rest
          (if (2 <? String.length opt)%nat
           then update (set_password (substr 2 opt)) c
           else set_password_prompt true c)
      else if starts_with "-l" opt then
        if (2 <? String.length opt)%nat then
          level <- number_between 1 9 (substr 2 opt);
          scan_options w rest (update (set_compression_level level) c)
        else scan_options w rest (update (set_compression_level 6) c)
      else if starts_with "-t" opt then
        if (2 <? String.length opt)%nat then
          thread_val <- number_between 1 1024 (substr 2 opt);
          scan_options w rest (update (set_thread_count thread_val) c)
        else
          let hw_threads := hardware_concurrency w in
          scan_options w rest
            (update (set_thread_count
                       (if (0 <? hw_threads)%N then Z.of_N hw_threads else 1%Z)) c)
      else if bool_decide (opt = "--verbose")
      then scan_options w rest (update (set_verbose true) c)
      else if bool_decide (opt = "--benchmark")
      then scan_options w rest (update (set_benchmark true) c)
      else if bool_decide (opt = "--verify")
      then scan_options w rest (update (set_verify true) c)
      else if starts_with "--exclude=" opt
      then scan_options w rest
             (set_exclude_patterns (exclude_patterns c ++ [substr 10 opt]) c)
      else if starts_with "--include=" opt
      then scan_options w rest
             (set_include_patterns (include_patterns c ++ [substr 10 opt]) c)
      else if starts_with "--format=" opt then
        let format_value := substr 9 opt in
        if bool_decide (format_value = "") then throw_error MISSING_ARGS
        else scan_options w rest (update (set_force_format format_value) c)
      else throw_error MISSING_ARGS     (* unknown option *)
  end.

(** The end of [parse]: the last positional argument is the target, the
    ones before it are the sources. *)
Definition place_positional (c : CommandLine) (positional_args : list string)
  : M CommandLine :=
  let c :=
    if bool_decide (positional_args = []) then c else
    let c := update (set_target_path (List.last positional_args "")) c in
    let c := update (set_source_paths (removelast positional_args)) c in
    match source_paths (options c) with
    | front :: _ => update (set_source_path front) c
    | [] => c
    end in
  let o := options c in
  let no_sources := bool_decide (source_paths o = []) in
  let no_target := bool_decide (target_path o = "") in
  if negb no_sources && no_target then throw_error MISSING_ARGS   (* target path missing *)
  else if no_sources && negb no_target then throw_error MISSING_ARGS  (* source path missing *)
  else if negb (interactive_mode o) && negb (show_help c) && negb (show_version c)
          && (no_sources || no_target)
       then throw_error MISSING_ARGS
  else mret c.

(** [args::parse(argc, argv)]; [argv] starts with the name of the
    program. *)
Definition parse (w : World) (argv : list string) : M CommandLine :=
  if (length argv <? 2)%nat then mret (set_show_help true default_command_line) else
  scan <- scan_options w (drop 1 argv) default_command_line;
  match scan with
  | Returned c => mret c
  | Positional c positional_args => place_positional c positional_args
  end.

(** What the functions [show_help()] and [show_version()] print (their
    names are taken by the members of the struct). *)
Definition help_text : list event :=
  [Print "hitpag - Smart Compression/Decompression Tool (Version 2.0.4)";
   Print "Website: https://hitmux.top";
   Print "GitHub: https://github.com/Hitmux/hitpag";
   Print "================================================================================";
   Cout "usage"; Cout "help_options"]
  ++ (Cout <$> ["help_i"; "help_p"; "help_l"; "help_t"; "help_verbose"; "help_exclude";
                "help_include"; "help_benchmark"; "help_verify"; "help_format";
                "help_h"; "help_v"])
  ++ [Cout "help_examples"]
  ++ (Cout <$> ["help_example1"; "help_example2"; "help_example_new_path";
                "help_example3"; "help_example4"; "help_example5"; "help_example6";
                "help_example7"; "help_example8"; "help_example9"]).

Definition print_help : M unit := (help_text, inr tt).
Definition print_version : M unit := emit (Print "hitpag Version 2.0.4").

End args.

(* ===================================================================== *)
(** ** Canonical paths

    The result of [fs::weakly_canonical] on an existing path is absolute
    and normalised: no empty, [.] or [..] component, no trailing
    separator.  Such a path is kept as the list of its components below
    the root directory; the root itself is the empty list.  On these
    paths [fs::relative(p, base)] is [p.lexically_relative(base)]. *)
(* ===================================================================== *)

Module cpath.

Fixpoint join (l : list string) : string :=
  match l with
  | [] => ""
  | [c] => c
  | c :: l' => c +:+ "/" +:+ join l'
  end.

(** [p.string()] for an absolute path and for a relative one. *)
Definition to_string (p : list string) : string := "/" +:+ join p.
Definition relative_to_string (r : list string) : string := join r.

(** [parent_path()]: the root is its own parent. *)
Definition parent_path (p : list string) : list string := removelast p.

(** [filename()]: empty for the root. *)
Definition filename (p : list string) : string := List.last p "".

(** The bare name of a canonical path: its last component; the root
    directory, which has none, is named by itself. *)
Definition bare_name (p : list string) : string :=
  if bool_decide (p = []) then "/" else filename p.

Definition normal_component (c : string) : Prop := c ≠ "" ∧ c ≠ "." ∧ c ≠ "..".
Definition canonical (p : list string) : Prop := Forall normal_component p.

(** The count [n] of [lexically_relative]: over the part of [base] after
    the mismatch, [..] counts -1, an empty or [.] element 0, any other
    element +1. *)
Definition count_up (rest_base : list string) : Z :=
  foldr (λ c n, if bool_decide (c = "..") then (n - 1)%Z
                else if bool_decide (c = "") || bool_decide (c = ".") then n
                else (n + 1)%Z) 0%Z rest_base.

(** [p.lexically_relative(base)] for two absolute paths; the empty list
    is the empty path. *)
Definition lexically_relative (p base : list string) : list string :=
  let '(a, b, _) := max_prefix p base in
  match a, b with
  | [], [] => ["."]
  | _, _ =>
      let n := count_up b in
      if (n <? 0)%Z then []
      else if (n =? 0)%Z && (bool_decide (a = []) || bool_decide (head a = Some ""))
           then ["."]
      else replicate (Z.to_nat n) ".." ++ a
  end.

End cpath.

(* ===================================================================== *)
(** ** [namespace operation] *)
(* ===================================================================== *)

Module operation.
Import util file_type.

Record CompressionSource := {
  path : string;
  include_contents : bool
}.

(** What [compress] hands to the external tool: the working directory and
    the items named relative to it. *)
Record ArchiveLayout := {
  base_directory : list string;
  items : list string
}.

Definition is_tool_available (w : World) (tool : string) : M bool :=
  emit (Probe tool);; mret (tool_on_path w tool).

(** [if (!is_tool_available(tool)) error::throw_error(TOOL_NOT_FOUND, ...)]. *)
Definition require_tool (w : World) (tool : string) : M unit :=
  found <- is_tool_available w tool;
  if found then mret tt else throw_error TOOL_NOT_FOUND.

(** The extension is a split ZIP part ([.z01], [.z02], ... [.z99]). *)
Definition is_split_zip_part (path : string) : bool :=
  if negb (fspath.has_extension path) then false
  else is_split_zip_extension (lower (fspath.extension path)).

(** The main [.zip] file of a split archive; empty when it is not found. *)
Definition find_split_zip_main (w : World) (any_part_path : string) : string :=
  let main_zip := fspath.replace_extension any_part_path ".zip" in
  if fs_exists w main_zip then main_zip else "".

(** Whether a ZIP file is part of a split archive. *)
Definition is_split_zip (w : World) (zip_path : string) : bool :=
  if negb (fspath.has_extension zip_path) then false else
  let ext := lower (fspath.extension zip_path) in
  if is_split_zip_part zip_path then true else
  if negb (bool_decide (ext = ".zip")) then false else
  fs_exists w (fspath.replace_extension zip_path ".z01").

Definition build_7z_extract_args (w : World) (args : list string)
    (source_path target_dir_path password : string) : list string :=
  args ++ ["x"]
       ++ (if negb (bool_decide (password = "")) then ["-p" +:+ password] else [])
       ++ [fs_absolute w source_path; "-o" +:+ fs_absolute w target_dir_path; "-y"].

Definition execute_command (w : World) (tool : string) (args : list string)
    (working_dir : string) : M Z :=
  emit (Exec tool args working_dir);; mret (exit_status w tool args working_dir).

Definition verify_archive (w : World) (archive_path : string) (format : FileType) : M bool :=
  let run tool args :=
    found <- is_tool_available w tool;
    if negb found then mret false
    else result <- execute_command w tool args ""; mret (bool_decide (result = 0%Z)) in
  match format with
  | ARCHIVE_TAR | ARCHIVE_TAR_GZ | ARCHIVE_TAR_BZ2 | ARCHIVE_TAR_XZ =>
      run "tar" ["-tf"; archive_path]
  | ARCHIVE_ZIP => run "unzip" ["-t"; archive_path]
  | ARCHIVE_7Z => run "7z" ["t"; archive_path]
  | _ => mret true
  end.

Definition is_descendant_or_same (base target : list string) : bool :=
  let relative := cpath.lexically_relative target base in
  if bool_decide (relative = []) then true
  else forallb (λ part, negb (bool_decide (part = ".."))) relative.

(** The [while] loop of [determine_common_base]; [None] when the fuel runs
    out before a base is returned. *)
Fixpoint common_base_loop (fuel : nat) (base : list string) (paths : list (list string))
  : option (list string) :=
  match fuel with
  | O => None
  | S fuel' =>
      if forallb (is_descendant_or_same base) paths then Some base
      else common_base_loop fuel' (cpath.parent_path base) paths
  end.

(** An absolute path is never [empty()], so the loop is left only through
    its [return]; one round per component of the starting directory and
    one for the root are enough ([common_base_loop_total]). *)
Definition determine_common_base (w : World) (paths : list (list string)) : list string :=
  match paths with
  | [] => fs_current_path w
  | front :: _ =>
      let base := cpath.parent_path front in
      match common_base_loop (S (length base)) base paths with
      | Some b => b
      | None => []     (* paths.front().root_path() *)
      end
  end.

(** The item of one source: its path relative to the base directory, or
    its filename (the path itself when that is empty) when the relative
    path is empty or [.]. *)
Definition item_for (base_dir canonical : list string) : string :=
  let relative := cpath.lexically_relative canonical base_dir in
  if bool_decide (relative = []) || bool_decide (relative = ["."]) then
    let fallback := cpath.filename canonical in
    if bool_decide (fallback = "") then cpath.to_string canonical else fallback
  else cpath.relative_to_string relative.

(** The first loop of [compress]: every source must exist; its canonical
    path and whether that is a directory. *)
Definition canonical_sources (w : World) (sources : list CompressionSource)
  : M (list (list string * bool)) :=
  mapM (λ src,
    if negb (fs_exists w (path src)) then throw_error INVALID_SOURCE
    else let canonical := fs_weakly_canonical w (path src) in
         mret (canonical, fs_is_directory w (cpath.to_string canonical))) sources.

(** What the first loop of [compress] records for an existing source. *)
Definition canonical_entry (w : World) (src : CompressionSource) : list string * bool :=
  (fs_weakly_canonical w (path src),
   fs_is_directory w (cpath.to_string (fs_weakly_canonical w (path src)))).

(** The layout part of [compress]: base directory and items. *)
Definition plan_layout (w : World) (sources : list CompressionSource)
    (canon : list (list string * bool)) : ArchiveLayout :=
  let single_contents_mode :=
    bool_decide (length sources = 1)
    && default false (include_contents <$> head sources)
    && default false (snd <$> head canon) in
  if single_contents_mode then
    {| base_directory := default [] (fst <$> head canon); items := ["."] |}
  else
    let base_dir := determine_common_base w (fst <$> canon) in
    {| base_directory := base_dir; items := item_for base_dir <$> (fst <$> canon) |}.

Definition level_flag (prefix : string) (options : args.Options) : list string :=
  if (0 <? args.compression_level options)%Z
  then [prefix +:+ pretty (args.compression_level options)] else [].

(** The [switch (target_format)] of [compress]: tool and argument vector. *)
Definition compress_command (w : World) (target_path_str : string)
    (target_format : FileType) (password : string) (options : args.Options)
    (items_to_archive : list string) : M (string * list string) :=
  let target := fs_absolute w target_path_str in
  match target_format with
  | ARCHIVE_TAR | ARCHIVE_TAR_GZ | ARCHIVE_TAR_BZ2 | ARCHIVE_TAR_XZ =>
      when (negb (bool_decide (password = ""))) (emit (Cout "warning_tar_password"));;
      require_tool w "tar";;
      let flags :=
        match target_format with
        | ARCHIVE_TAR => "-cf" | ARCHIVE_TAR_GZ => "-czf"
        | ARCHIVE_TAR_BZ2 => "-cjf" | _ => "-cJf"
        end in
      mret ("tar", [flags; target] ++ items_to_archive)
  | ARCHIVE_ZIP =>
      require_tool w "zip";;
      mret ("zip",
            (if negb (bool_decide (password = "")) then ["-P"; password] else [])
            ++ level_flag "-" options ++ ["-r"; target] ++ items_to_archive)
  | ARCHIVE_7Z =>
      require_tool w "7z";;
      mret ("7z",
            ["a"]
            ++ (if negb (bool_decide (password = "")) then ["-p" +:+ password] else [])
            ++ level_flag "-mx=" options ++ [target] ++ items_to_archive)
  | ARCHIVE_LZ4 =>
      require_tool w "lz4";;
      match items_to_archive with
      | [item] => mret ("lz4", level_flag "-" options ++ ["-r"; item; target])
      | _ => throw_error UNKNOWN_FORMAT   (* multiple sources are not supported *)
      end
  | ARCHIVE_ZSTD =>
      require_tool w "zstd";;
      match items_to_archive with
      | [item] => mret ("zstd", level_flag "-" options ++ ["-r"; item; "-o"; target])
      | _ => throw_error UNKNOWN_FORMAT   (* multiple sources are not supported *)
      end
  | ARCHIVE_XAR =>
      require_tool w "xar";;
      mret ("xar", ["-cf"; target] ++ items_to_archive)
  | _ => throw_error UNKNOWN_FORMAT
  end.

(** [operation::compress] on a list of sources.  The bookkeeping of
    [namespace progress] (timing and byte counts) is left out. *)
Definition compress (w : World) (sources : list CompressionSource)
    (target_path_str : string) (target_format : FileType) (password : string)
    (options : args.Options) : M unit :=
  if bool_decide (sources = []) then throw_error MISSING_ARGS else
  canon <- canonical_sources w sources;
  when (args.verbose options && (1 <? args.thread_count options)%Z)
       (emit (Cout "threads_info"));;
  let layout := plan_layout w sources canon in
  let working_dir_for_cmd := cpath.to_string (base_directory layout) in
  '(tool, args) <- compress_command w target_path_str target_format password
                    options (items layout);
  emit (Cout "compressing");;
  result <- execute_command w tool args working_dir_for_cmd;
  if negb (bool_decide (result = 0%Z)) then throw_error OPERATION_FAILED else
  when (args.verify options)
       (emit (Cout "verifying");;
        ok <- verify_archive w target_path_str target_format;
        emit (Cout (if ok then "verification_success" else "verification_failed")));;
  emit (Cout "operation_complete").

(** [operation::compress] on one source path: a trailing separator asks
    for the contents of the directory. *)
Definition compress1 (w : World) (source_path_str target_path_str : string)
    (target_format : FileType) (password : string) (options : args.Options) : M unit :=
  let has_trailing_slash :=
    back_is "/"%char source_path_str || back_is "\"%char source_path_str in
  compress w [{| path := source_path_str; include_contents := has_trailing_slash |}]
           target_path_str target_format password options.

(** The [switch (source_type)] of [decompress]: tool and argument vector. *)
Definition decompress_command (w : World) (source_path target_dir_path : string)
    (source_type : FileType) (password : string) (options : args.Options)
  : M (string * list string) :=
  let source := fs_absolute w source_path in
  let target := fs_absolute w target_dir_path in
  match source_type with
  | ARCHIVE_TAR | ARCHIVE_TAR_GZ | ARCHIVE_TAR_BZ2 | ARCHIVE_TAR_XZ =>
      when (negb (bool_decide (password = ""))) (emit (Cout "warning_tar_password"));;
      require_tool w "tar";;
      let flags :=
        match source_type with
        | ARCHIVE_TAR => "-xf" | ARCHIVE_TAR_GZ => "-xzf"
        | ARCHIVE_TAR_BZ2 => "-xjf" | _ => "-xJf"
        end in
      mret ("tar", [flags; source; "-C"; target])
  | ARCHIVE_ZIP =>
      if is_split_zip w source_path then
        (* split ZIP archives need 7z *)
        require_tool w "7z";;
        actual_source <-
          (if is_split_zip_part source_path then
             let main := find_split_zip_main w source_path in
             if bool_decide (main = "") then throw_error INVALID_SOURCE else mret main
           else mret source_path);
        when (args.verbose options) (emit (Cout "info_split_zip_detected"));;
        mret ("7z", build_7z_extract_args w [] actual_source target_dir_path password)
      else
        require_tool w "unzip";;
        mret ("unzip",
              (if negb (bool_decide (password = "")) then ["-P"; password] else [])
              ++ ["-o"; source; "-d"; target])
  | ARCHIVE_RAR =>
      require_tool w "unrar";;
      mret ("unrar",
            ["x"]
            ++ (if negb (bool_decide (password = "")) then ["-p" +:+ password] else [])
            ++ ["-o+"; source; target])
  | ARCHIVE_7Z =>
      require_tool w "7z";;
      mret ("7z", build_7z_extract_args w [] source_path target_dir_path password)
  | ARCHIVE_LZ4 =>
      require_tool w "lz4";;
      mret ("lz4", ["-d"; source; target])
  | ARCHIVE_ZSTD =>
      require_tool w "zstd";;
      mret ("zstd", ["-d"; source; "-o"; target])
  | ARCHIVE_XAR =>
      require_tool w "xar";;
      mret ("xar", ["-xf"; source; "-C"; target])
  | _ => throw_error UNKNOWN_FORMAT
  end.

Definition decompress (w : World) (source_path target_dir_path : string)
    (source_type : FileType) (password : string) (options : args.Options) : M unit :=
  when (negb (fs_exists w target_dir_path))
       (emit (CreateDirectories target_dir_path);;
        if fs_create_directories_fails w target_dir_path
        then throw_error INVALID_TARGET else mret tt);;
  '(tool, args) <- decompress_command w source_path target_dir_path source_type
                    password options;
  emit (Cout "decompressing");;
  result <- execute_command w tool args "";
  if negb (bool_decide (result = 0%Z)) then throw_error OPERATION_FAILED else
  emit (Cout "operation_complete").

End operation.

(* ===================================================================== *)
(** ** [target_conflict.h] *)
(* ===================================================================== *)

Module target_conflict.
Import util.

Inductive Action := Overwrite | Cancel | Rename.

(** Modelled from the spec: [target_conflict.h], which declares
    [prompt_action] and [prompt_new_path], is not among the sources.  The
    conflict dialogue "accepts one of three decisions" behind the prompt
    "Choice (o/c/r): " and answers anything else with "Invalid choice,
    please enter o, c, or r."; the choice is read from the first letter
    of the line, lower-cased, as [interactive::get_confirmation] does. *)
Definition parse_action (line : string) : option Action :=
  match chars line with
  | c :: _ =>
      if bool_decide (tolower c = "o"%char) then Some Overwrite
      else if bool_decide (tolower c = "c"%char) then Some Cancel
      else if bool_decide (tolower c = "r"%char) then Some Rename
      else None
  | [] => None
  end.

(** Modelled from the spec: [prompt_new_path] of [target_conflict.h] shows
    the prompt and reads one line; "an empty user entry accepts the
    proposed default". *)
Definition prompt_new_path (line default_value : string) : string :=
  if bool_decide (line = "") then default_value else line.

End target_conflict.

(* ===================================================================== *)
(** ** [namespace target_path] *)
(* ===================================================================== *)

Module target_path.
Import util target_conflict.

Definition multi_extensions : list string :=
  [".tar.gz"; ".tar.bz2"; ".tar.xz"; ".tar.zst"; ".tar.lz4"].

(** [filename.size() > ext.size() &&
     filename.compare(filename.size() - ext.size(), ext.size(), ext) == 0]. *)
Definition ends_with_longer (filename ext : list ascii) : bool :=
  (length ext <? length filename)%nat
  && bool_decide (drop (length filename - length ext) filename = ext).

(** The stem and extension chosen for a filename: a compound extension
    first, else the split at the last dot unless that dot is absent or
    leads the name. *)
Definition split_name (filename : list ascii) : list ascii * list ascii :=
  match List.find (ends_with_longer filename) (chars <$> multi_extensions) with
  | Some ext => (take (length filename - length ext) filename, ext)
  | None =>
      let tail := take_while (not_char "."%char) (reverse filename) in
      if (length filename <=? length tail)%nat then (filename, [])          (* npos *)
      else if (length filename =? S (length tail))%nat then (filename, [])  (* pos == 0 *)
      else (take (length filename - S (length tail)) filename,
            drop (length filename - S (length tail)) filename)
  end.

(** An empty, [.] or [..] stem is replaced by [target]. *)
Definition fix_stem (stem : string) : string :=
  if bool_decide (stem = "") || bool_decide (stem = ".") || bool_decide (stem = "..")
  then "target" else stem.

Definition generate_sequential_candidate (base_path : string) (suffix_index : Z) : string :=
  let parent := fspath.parent_path base_path in
  let filename := fspath.filename_chars (chars base_path) in
  let '(stem, extension) := split_name filename in
  let stem := fix_stem (str stem) in
  let suffixed_name := stem +:+ "_" +:+ pretty suffix_index +:+ str extension in
  fspath.append parent suffixed_name.

(** *** [resolve_existing_target] as a machine driven by the input lines

    The function is two nested loops that block on [input_fn].  Each line
    read moves the dialogue by one step: in [AwaitingAction] the outer
    loop sits in [prompt_action], in [AwaitingRenameInput] the inner loop
    sits in [prompt_new_path].  The outer loop condition
    [fs::exists(target_path)] is the transient state [checking]. *)
Inductive phase := AwaitingAction | AwaitingRenameInput | Resolved | Cancelled.

#[global] Instance phase_eq_dec : EqDecision phase.
Proof. solve_decision. Defined.

Record state := {
  target : string;          (* target_path, the reference parameter *)
  rename_base : string;
  suffix_counter : Z;       (* int; overflow is out of reach of any script *)
  now : phase
}.

Definition with_phase (st : state) (p : phase) : state :=
  {| target := target st; rename_base := rename_base st;
     suffix_counter := suffix_counter st; now := p |}.

(** The default offered by the next rename prompt. *)
Definition default_candidate (st : state) : string :=
  generate_sequential_candidate (rename_base st) (suffix_counter st).

Definition ask_rename (st : state) : event :=
  Ask "target_exists_rename_prompt" (default_candidate st).

(** [while (fs::exists(target_path))]: either the dialogue of the outer
    loop starts, or the function returns [true]. *)
Definition checking (w : World) (st : state) : list event * state :=
  if fs_exists w (target st)
  then ([Ask "target_exists_header" (target st)], with_phase st AwaitingAction)
  else ([], with_phase st Resolved).

(** The candidate of one pass of the rename loop: the answer of
    [prompt_new_path], trimmed, and the default when nothing is left. *)
Definition candidate_of (st : state) (line : string) : string :=
  let default := default_candidate st in
  let candidate := trim_copy (prompt_new_path line default) in
  if bool_decide (candidate = "") then default else candidate.

(** One pass of the rename loop on the line entered. *)
Definition rename_step (w : World) (st : state) (line : string) : list event * state :=
  let default := default_candidate st in
  let candidate := candidate_of st line in
  if bool_decide (candidate = target st) then
    let st' := {| target := target st; rename_base := rename_base st;
                  suffix_counter := if bool_decide (candidate = default)
                                    then (suffix_counter st + 1)%Z else suffix_counter st;
                  now := AwaitingRenameInput |} in
    ([Cerr "target_exists_same"; ask_rename st'], st')
  else if fs_exists w candidate then
    let st' := if bool_decide (candidate = default)
               then {| target := target st; rename_base := rename_base st;
                       suffix_counter := (suffix_counter st + 1)%Z;
                       now := AwaitingRenameInput |}
               else {| target := target st; rename_base := candidate;
                       suffix_counter := 1; now := AwaitingRenameInput |} in
    ([Cerr "target_exists_rename_conflict"; ask_rename st'], st')
  else
    let st' := if bool_decide (candidate = default)
               then {| target := candidate; rename_base := rename_base st;
                       suffix_counter := (suffix_counter st + 1)%Z;
                       now := AwaitingRenameInput |}
               else {| target := candidate; rename_base := candidate;
                       suffix_counter := 1; now := AwaitingRenameInput |} in
    checking w st'.

(** One line of input. *)
Definition step (w : World) (st : state) (line : string) : list event * state :=
  match now st with
  | AwaitingAction =>
      match parse_action line with
      | None => ([Cout "target_exists_invalid"], st)
      | Some Overwrite =>
          if fs_is_directory w (target st) then
            ([Cout "target_exists_keep_directory"], with_phase st Resolved)
          else if fs_remove_fails w (target st) then
            let '(t, st') := checking w st in
            (Remove (target st) :: Cerr "target_exists_remove_failed" :: t, st')
          else ([Remove (target st)], with_phase st Resolved)
      | Some Cancel => ([], with_phase st Cancelled)
      | Some Rename =>
          let st' := with_phase st AwaitingRenameInput in ([ask_rename st'], st')
      end
  | AwaitingRenameInput => rename_step w st line
  | Resolved | Cancelled => ([], st)
  end.

Definition finished (st : state) : bool :=
  bool_decide (now st = Resolved) || bool_decide (now st = Cancelled).

Fixpoint run (w : World) (st : state) (lines : list string) : list event * state :=
  match lines with
  | [] => ([], st)
  | line :: rest =>
      if finished st then ([], st)
      else let '(t, st') := step w st line in
           let '(t', st'') := run w st' rest in (t ++ t', st'')
  end.

Definition initial (target_path : string) : state :=
  {| target := target_path; rename_base := target_path; suffix_counter := 1;
     now := AwaitingAction |}.

(** [resolve_existing_target(target_path, input_fn, ...)] on the lines
    that [input_fn] will deliver: the boolean returned and the final
    [target_path]; the exception of a closed input stream when the lines
    run out inside the dialogue. *)
Definition resolve_existing_target (w : World) (target_path : string)
    (lines : list string) : M (bool * string) :=
  let '(t, st) := checking w (initial target_path) in
  let '(t', st') := run w st lines in
  (t ++ t',
   match now st' with
   | Resolved => inr (true, target st')
   | Cancelled => inr (false, target st')
   | _ => inl InputStreamClosed
   end).

(** The lines that [resolve_existing_target] leaves unread: the dialogue
    stops reading once it has its answer. *)
Fixpoint unread (w : World) (st : state) (lines : list string) : list string :=
  match lines with
  | [] => []
  | line :: rest => if finished st then lines else unread w (step w st line).2 rest
  end.

Definition unread_lines (w : World) (target_path : string) (lines : list string)
  : list string :=
  unread w (checking w (initial target_path)).2 lines.

End target_path.

(* ===================================================================== *)
(** ** Reading standard input

    Standard input is the list of its lines still unread.  A function
    that reads returns its value together with the lines left. *)
(* ===================================================================== *)

Module cli_io.
Import util.

(** What [cli_io::get_input] makes of the line read. *)
Definition get_input_line (line : string) : string := trim_copy line.

End cli_io.

(* ===================================================================== *)
(** ** [namespace interactive] *)
(* ===================================================================== *)

Module interactive.
Import util file_type operation.

(** [find_first_not_of(" \t\n\r")] and [find_last_not_of(" \t\n\r")];
    [None] is [npos]. *)
Fixpoint find_first_not_of (l : list ascii) : option nat :=
  match l with
  | [] => None
  | c :: l' => if is_blank c then S <$> find_first_not_of l' else Some 0
  end.

Definition find_last_not_of (l : list ascii) : option nat :=
  (λ i, length l - 1 - i) <$> find_first_not_of (reverse l).

(** [s.erase(pos, count)] for [pos] within the string; a [count] of
    [npos] erases to the end. *)
Definition erase (pos : nat) (count : option nat) (s : list ascii) : list ascii :=
  take pos s ++ match count with Some n => drop (pos + n) s | None => [] end.

(** What [interactive::get_input] makes of the line read: the two
    [erase] calls.  [npos + 1] is 0. *)
Definition get_input_line (line : string) : string :=
  let input := chars line in
  if bool_decide (input = []) then line else
  let input := erase 0 (find_first_not_of input) input in
  let input :=
    erase (match find_last_not_of input with Some last => S last | None => 0 end)
          None input in
  str input.

Definition throw {A} (e : exn) : M A := ([], inl e).

(** [get_input()]: a closed stream is a [std::runtime_error]. *)
Definition get_input (lines : list string) : M (string * list string) :=
  match lines with
  | [] => throw InputStreamClosed
  | line :: rest => mret (get_input_line line, rest)
  end.

(** The loop of [get_password_interactively] over the characters typed up
    to the end of the line: what is echoed, and the password. *)
Fixpoint keystrokes (typed : list ascii) (password : list ascii)
  : list event * list ascii :=
  match typed with
  | [] => ([], password)
  | ch :: typed' =>
      if bool_decide (ch = "127"%char) || bool_decide (ch = "008"%char) then
        match password with
        | [] => keystrokes typed' password
        | _ :: _ =>
            let '(echo, password) := keystrokes typed' (removelast password) in
            (Print "\b \b" :: echo, password)
        end
      else
        let '(echo, password) := keystrokes typed' (password ++ [ch]) in
        (Print "*" :: echo, password)
  end.

(** [get_password_interactively(i18n::get(prompt_key))].  When standard
    input is no terminal the password is the next line as it stands, and
    the empty string when there is none; on a terminal it is what the
    keys typed up to the end of the line leave. *)
Definition get_password_interactively (w : World) (prompt_key : string)
    (lines : list string) : M (string * list string) :=
  emit (Cout prompt_key);;
  let line := default "" (head lines) in
  let rest := tail lines in
  if negb (stdin_is_terminal w) then mret (line, rest)
  else
    let '(echo, password) := keystrokes (chars line) [] in
    (echo, inr (str password, rest)).

(** [get_choice(min_val, max_val)]. *)
Fixpoint get_choice (min_val max_val : Z) (lines : list string) : M (Z * list string) :=
  emit (Print "> ");;
  match lines with
  | [] => throw InputStreamClosed
  | line :: rest =>
      let again := emit (Cout "invalid_choice");; get_choice min_val max_val rest in
      match std.stoi (get_input_line line) with
      | std.Converted choice _ =>
          if (min_val <=? choice)%Z && (choice <=? max_val)%Z then mret (choice, rest)
          else again
      | _ => again        (* catch (...) *)
      end
  end.

(** The loop of [get_confirmation]. *)
Fixpoint confirmation (lines : list string) : M (bool * list string) :=
  match lines with
  | [] => throw InputStreamClosed
  | line :: rest =>
      let again :=
        emit (Cout "invalid_choice");; emit (Print " (y/n): ");; confirmation rest in
      match chars (get_input_line line) with
      | c :: _ =>
          if bool_decide (tolower c = "y"%char) then mret (true, rest)
          else if bool_decide (tolower c = "n"%char) then mret (false, rest)
          else again
      | [] => again
      end
  end.

Definition get_confirmation (prompt_key : string) (lines : list string)
  : M (bool * list string) :=
  emit (Cout prompt_key);; confirmation lines.

(** The menu of [run]: key, type and whether the format takes a
    password. *)
Definition formats : list (string * FileType * bool) :=
  [ ("format_tar_gz", ARCHIVE_TAR_GZ, false);
    ("format_zip", ARCHIVE_ZIP, true);
    ("format_7z", ARCHIVE_7Z, true);
    ("format_tar", ARCHIVE_TAR, false);
    ("format_tar_bz2", ARCHIVE_TAR_BZ2, false);
    ("format_tar_xz", ARCHIVE_TAR_XZ, false);
    ("format_lz4", ARCHIVE_LZ4, false);
    ("format_zstd", ARCHIVE_ZSTD, false);
    ("format_xar", ARCHIVE_XAR, false) ].

Definition show_formats : M unit :=
  (flat_map (λ '(i, (key, _, _)), [Print (pretty (S i) +:+ ". "); Cout key])
            (imap pair formats),
   inr tt).

(** The loop that asks for a password twice until both entries agree.
    Each round reads two lines, so that the next round starts on the
    lines behind them; at the end of the input both entries are empty,
    and agree. *)
Fixpoint new_password (w : World) (lines : list string) {struct lines}
  : M (string * list string) :=
  '(p1, lines1) <- get_password_interactively w "enter_password" lines;
  '(p2, lines2) <- get_password_interactively w "confirm_password" lines1;
  if bool_decide (p1 = p2) then mret (p1, lines2)
  else
    emit (Cout "password_mismatch");;
    match lines with
    | [] => mret (p1, lines2)               (* not reached: both entries are empty *)
    | _ :: lines' =>
        match lines' with
        | [] => new_password w lines'
        | _ :: rest => new_password w rest
        end
    end.

(** [interactive::run(options)]. *)
Definition run (w : World) (options : args.Options) (lines : list string) : M unit :=
  emit (Cout "interactive_mode");;
  '(source_path, lines) <-
    (if bool_decide (args.source_path options = "")
     then emit (Print "Please enter source path: ");; get_input lines
     else mret (args.source_path options, lines));
  let options := args.set_source_path source_path options in
  source_type <- recognize_source_type w source_path;
  emit (Print ("Source: " +:+ source_path +:+ " ("
               +:+ get_file_type_string source_type +:+ ")"));;
  let op_type :=
    if bool_decide (source_type = DIRECTORY) || bool_decide (source_type = REGULAR_FILE)
    then COMPRESS else DECOMPRESS in
  emit (Print ("Detected operation: "
               +:+ (if bool_decide (op_type = COMPRESS) then "Compress" else "Decompress")
               +:+ ". Change? (y/n): "));;
  '(change_op_input, lines) <- get_input lines;
  '(op_type, lines) <-
    (if bool_decide (tolower <$> head (chars change_op_input) = Some "y"%char) then
       emit (Cout "ask_operation");; emit (Cout "operation_compress");;
       emit (Cout "operation_decompress");;
       '(choice, lines) <- get_choice 1 2 lines;
       mret (if bool_decide (choice = 1%Z) then COMPRESS else DECOMPRESS, lines)
     else mret (op_type, lines));
  '(target_format, options, lines) <-
    (if bool_decide (op_type = COMPRESS) then
       emit (Cout "ask_format");; show_formats;;
       '(choice, lines) <- get_choice 1 (Z.of_nat (length formats)) lines;
       let '(_, target_format, supports_password) :=
         default ("", UNKNOWN, false) (formats !! (Z.to_nat choice - 1)) in
       emit (Print "Please enter target archive path: ");;
       '(target_path, lines) <- get_input lines;
       if bool_decide (target_path = "") then throw_error INVALID_TARGET else
       let options := args.set_target_path target_path options in
       if supports_password && bool_decide (args.password options = "") then
         '(set_one, lines) <- get_confirmation "ask_set_password" lines;
         if set_one then
           '(password, lines) <- new_password w lines;
           mret (target_format, args.set_password password options, lines)
         else mret (target_format, options, lines)
       else mret (target_format, options, lines)
     else
       '(options, lines) <-
         (if bool_decide (args.password options = "") then
            '(has_one, lines) <- get_confirmation "ask_has_password" lines;
            if has_one then
              '(password, lines) <- get_password_interactively w "enter_password" lines;
              mret (args.set_password password options, lines)
            else mret (options, lines)
          else mret (options, lines));
       emit (Print "Please enter target directory (default: './'): ");;
       '(target_path, lines) <- get_input lines;
       let target_path := if bool_decide (target_path = "") then "." else target_path in
       mret (UNKNOWN, args.set_target_path target_path options, lines));
  let entered := get_input_line <$> lines in
  '(go, target_path) <-
    target_path.resolve_existing_target w (args.target_path options) entered;
  let lines :=
    drop (length lines
          - length (target_path.unread_lines w (args.target_path options) entered))
         lines in
  let options := args.set_target_path target_path options in
  if negb go then emit (Cout "operation_canceled") else
  '(delete_source, lines) <- get_confirmation "ask_delete_source" lines;
  (if bool_decide (op_type = COMPRESS)
   then compress1 w (args.source_path options) (args.target_path options)
                  target_format (args.password options) options
   else decompress w (args.source_path options) (args.target_path options)
                   source_type (args.password options) options);;
  when delete_source
    (emit (Print ("Deleting source: " +:+ args.source_path options));;
     emit (RemoveAll (args.source_path options));;
     if fs_remove_all_fails w (args.source_path options)
     then emit (PrintErr ("Warning: Failed to delete source '"
                          +:+ args.source_path options +:+ "'"))
     else emit (Print "Source deleted.")).

End interactive.

(* ===================================================================== *)
(** ** [main] *)
(* ===================================================================== *)

Module cli.
Import util file_type operation.

(** [fs::equivalent(a, b, ec) && !ec]. *)
Definition equivalent_no_error (w : World) (a b : string) : bool :=
  (fs_equivalent w a b).1 && negb (fs_equivalent w a b).2.

(** [--format]: the forced type, [UNKNOWN_FORMAT] for a value that names
    none; [None] when the option is absent. *)
Definition forced_format (options : args.Options) : M (option FileType) :=
  if bool_decide (args.force_format options = "") then mret None else
  let forced_type := parse_format_string (args.force_format options) in
  if bool_decide (forced_type = UNKNOWN) then throw_error UNKNOWN_FORMAT
  else mret (Some forced_type).

Definition canceled : M unit :=
  emit (Cout "operation_canceled");; emit (Cout "goodbye").

(** The [else] branch of [if (options.interactive_mode)] in [main], up to
    the closing "goodbye"; [lines] is what standard input will deliver,
    which the dialogue reads through [cli_io::get_input]. *)
Definition main_cli (w : World) (options : args.Options) (lines : list string) : M unit :=
  let target_path := args.target_path options in
  let lines := cli_io.get_input_line <$> lines in
  if (1 <? length (args.source_paths options))%nat then
    (* the target must not be the same as any source *)
    when (fs_exists w target_path)
      (mapM (λ src,
         if fs_exists w src && equivalent_no_error w src target_path
         then throw_error SAME_PATH else mret tt) (args.source_paths options);;
       mret tt);;
    forced <- forced_format options;
    let target_type := default (recognize_by_extension target_path) forced in
    if bool_decide (target_type = UNKNOWN) then throw_error UNKNOWN_FORMAT else
    '(go, target_path) <- target_path.resolve_existing_target w target_path lines;
    if negb go then canceled else
    compress w ((λ src, {| path := src; include_contents := false |})
                  <$> args.source_paths options)
             target_path target_type (args.password options) options;;
    emit (Cout "goodbye")
  else
    let source_path := args.source_path options in
    (* prevent operating on the same file/directory *)
    when (fs_exists w source_path && fs_exists w target_path
          && equivalent_no_error w source_path target_path)
         (throw_error SAME_PATH);;
    result <- recognize w source_path target_path;
    forced <- forced_format options;
    let result :=
      match forced with
      | None => result
      | Some forced_type =>
          if bool_decide (file_type.operation result = COMPRESS)
          then {| source_type := source_type result; target_type_hint := forced_type;
                  operation := file_type.operation result |}
          else {| source_type := forced_type;
                  target_type_hint := target_type_hint result;
                  operation := file_type.operation result |}
      end in
    if bool_decide (file_type.operation result = COMPRESS)
       && bool_decide (target_type_hint result = UNKNOWN)
    then throw_error UNKNOWN_FORMAT else
    '(go, target_path) <- target_path.resolve_existing_target w target_path lines;
    if negb go then canceled else
    match file_type.operation result with
    | COMPRESS =>
        compress1 w source_path target_path (target_type_hint result)
                  (args.password options) options
    | DECOMPRESS =>
        decompress w source_path target_path (source_type result)
                   (args.password options) options
    | OP_UNKNOWN => mret tt
    end;;
    emit (Cout "goodbye").

(** [main] behind [args::parse]: help and version, the password prompt
    of [-p], then the interactive mode or the branch [main_cli]. *)
Definition main_body (w : World) (c : args.CommandLine) (lines : list string) : M unit :=
  if args.show_help c then args.print_help
  else if args.show_version c then args.print_version
  else
    '(options, lines) <-
      (if args.password_prompt c then
         '(password, lines) <-
           interactive.get_password_interactively w "enter_password" lines;
         mret (args.set_password password (args.options c), lines)
       else mret (args.options c, lines));
    if args.interactive_mode options
    then interactive.run w options lines;; emit (Cout "goodbye")
    else main_cli w options lines.

(** [main(argc, argv)]: what is printed and run, and the exit status.  A
    [HitpagException] is reported with its message and gives its code; the
    error of a closed input stream gives the code of [UNKNOWN_ERROR]. *)
Definition main (w : World) (argv : list string) (lines : list string)
  : list event * Z :=
  let '(t, r) := bind (args.parse w argv) (λ c, main_body w c lines) in
  match r with
  | inr _ => (t, 0%Z)
  | inl (HitpagException code) => (t ++ [Cerr (message_key code)], code_value code)
  | inl InputStreamClosed =>
      (t ++ [PrintErr "An unexpected error occurred: "; Cerr "error_input_stream_closed"],
       code_value UNKNOWN_ERROR)
  end.

End cli.

(* ===================================================================== *)
(** ** A concrete world: a directory tree without links

    Used to run the program on examples.  The tree maps the components of
    a canonical path to what is stored there; every path string is
    resolved lexically against the working directory. *)
(* ===================================================================== *)

Module sample.
Import util.

Inductive node :=
| Dir
| File (bytes : list byte)
| Locked            (* a regular file that cannot be opened *)
| Special.          (* neither a regular file nor a directory *)

(** The components of a path string, split at the separators. *)
Fixpoint split_go (cur : list ascii) (l : list ascii) : list string :=
  match l with
  | [] => [str (reverse cur)]
  | c :: l' =>
      if bool_decide (c = "/"%char) then str (reverse cur) :: split_go [] l'
      else split_go (c :: cur) l'
  end.
Definition split (p : string) : list string := split_go [] (chars p).

(** Lexical resolution of [.] and [..] on top of a directory. *)
Definition resolve (cwd : list string) (p : string) : list string :=
  let start := if bool_decide (head (chars p) = Some "/"%char) then [] else cwd in
  foldl (λ acc c,
           if bool_decide (c = "") || bool_decide (c = ".") then acc
           else if bool_decide (c = "..") then removelast acc
           else acc ++ [c]) start (split p).

Definition world (tree : gmap (list string) node) (cwd : list string)
    (tools : list string) : World := {|
  fs_exists p := bool_decide (is_Some (tree !! resolve cwd p));
  fs_is_directory p :=
    match tree !! resolve cwd p with Some Dir => true | _ => false end;
  fs_is_regular_file p :=
    match tree !! resolve cwd p with
    | Some (File _) | Some Locked => true
    | _ => false
    end;
  fs_open p :=
    match tree !! resolve cwd p with
    | Some (File bytes) => Some bytes
    | _ => None
    end;
  fs_equivalent a b :=
    match tree !! resolve cwd a, tree !! resolve cwd b with
    | Some _, Some _ => (bool_decide (resolve cwd a = resolve cwd b), false)
    | _, _ => (false, true)
    end;
  fs_weakly_canonical p := resolve cwd p;
  fs_absolute p :=
    if bool_decide (head (chars p) = Some "/"%char) then p
    else fspath.append (cpath.to_string cwd) p;
  fs_current_path := cwd;
  fs_remove_fails _ := false;
  fs_remove_all_fails _ := false;
  fs_create_directories_fails _ := false;
  tool_on_path tool := bool_decide (tool ∈ tools);
  exit_status _ _ _ := 0%Z;
  stdin_is_terminal := false;
  hardware_concurrency := 4%N
|}.

Definition all_tools : list string :=
  ["tar"; "zip"; "unzip"; "7z"; "unrar"; "lz4"; "zstd"; "xar"].

End sample.

(* ===================================================================== *)
(** ** The signature precedence list, as the specification words it

    First match wins, in this order: the ZIP signatures, RAR, 7-Zip, GZIP,
    BZIP2, XZ, LZ4, the two Zstandard magics, then "ustar" at offset 257,
    then the legacy TAR heuristic on the first block.  A check whose bytes
    are not all there does not match.  [recognize_by_header] is compared
    with this list below. *)
(* ===================================================================== *)

Module precedence.
Import file_type.

Definition signature_table : list (list byte * FileType) :=
  [ ([x50; x4b; x03; x04], ARCHIVE_ZIP);
    ([x50; x4b; x05; x06], ARCHIVE_ZIP);
    ([x50; x4b; x01; x02], ARCHIVE_ZIP);
    ([x52; x61; x72; x21], ARCHIVE_RAR);
    ([x37; x7a; xbc; xaf; x27; x1c], ARCHIVE_7Z);
    ([x1f; x8b], ARCHIVE_TAR_GZ);
    ([x42; x5a; x68], ARCHIVE_TAR_BZ2);
    ([xfd; x37; x7a; x58; x5a; x00], ARCHIVE_TAR_XZ);
    ([x04; x22; x4d; x18], ARCHIVE_LZ4);
    ([x28; xb5; x2f; xfd], ARCHIVE_ZSTD);
    ([x22; xb5; x2f; xfd], ARCHIVE_ZSTD) ].

(** The file begins with the signature. *)
Fixpoint starts_with (bytes sig : list byte) {struct sig} : bool :=
  match sig, bytes with
  | [], _ => true
  | c :: sig', b :: bytes' => Byte.eqb b c && starts_with bytes' sig'
  | _ :: _, [] => false
  end.

Definition by_signature (bytes : list byte) : option FileType :=
  snd <$> List.find (λ entry, starts_with bytes entry.1) signature_table.

(** "ustar" at offset 257. *)
Definition has_ustar (bytes : list byte) : bool :=
  starts_with (drop 257 bytes) ustar.

Definition printable (b : byte) : bool :=
  (32 <=? Byte.to_N b)%N && (Byte.to_N b <=? 126)%N.
Definition is_null (b : byte) : bool := Byte.eqb b x00.

(** A full 512-byte block whose first 100 bytes hold at least one
    non-null byte and no non-null byte that is not printable. *)
Definition legacy_tar (bytes : list byte) : bool :=
  (512 <=? length bytes)%nat
  && existsb (λ b, negb (is_null b)) (take 100 bytes)
  && forallb (λ b, is_null b || printable b) (take 100 bytes).

Definition classify (bytes : list byte) : FileType :=
  match by_signature bytes with
  | Some tag => tag
  | None => if has_ustar bytes || legacy_tar bytes then ARCHIVE_TAR else UNKNOWN
  end.

End precedence.

(* ===================================================================== *)
(** ** What the conflict dialogue guarantees

    Predicates used to state the properties of [resolve_existing_target]:
    what it means that the user had the target overwritten, and the
    invariant that the dialogue keeps from one input line to the next. *)
(* ===================================================================== *)

Module dialogue.
Import target_path.

(** The dialogue is waiting for a line. *)
Definition live (st : state) : Prop :=
  now st = AwaitingAction ∨ now st = AwaitingRenameInput.

(** The user chose to overwrite [p]: an existing directory is kept as it
    is, with the notice printed; anything else was removed, and the
    removal did not fail. *)
Definition overwritten (w : World) (t : list event) (p : string) : Prop :=
  (fs_is_directory w p = true ∧ Cout "target_exists_keep_directory" ∈ t)
  ∨ (fs_is_directory w p = false ∧ fs_remove_fails w p = false ∧ Remove p ∈ t).

(** The invariant of the dialogue on the target [original], after the
    events [t], in state [st]. *)
Definition invariant (w : World) (original : string) (t : list event) (st : state) : Prop :=
  (live st → target st = original ∧ fs_exists w original = true)
  ∧ (now st = Resolved →
       fs_exists w (target st) = false
       ∨ (target st = original ∧ overwritten w t original))
  ∧ (now st = Cancelled → target st = original)
  ∧ (∀ q, Remove q ∈ t →
       q = original ∧ fs_exists w q = true ∧ fs_is_directory w q = false
       ∧ (fs_remove_fails w q = false → now st = Resolved ∧ target st = q)).


End dialogue.

(* ===================================================================== *)
(** ** What the command line guarantees

    Predicates used to state the properties of [args::parse]. *)
(* ===================================================================== *)

Module parsing.

(** The compression level is 0 (not given) or between 1 and 9; the
    thread count is 0 (not given), between 1 and 1024, or the number of
    hardware threads. *)
Definition in_range (w : World) (o : args.Options) : Prop :=
  (0 ≤ args.compression_level o ≤ 9)%Z
  ∧ (0 ≤ args.thread_count o ≤ Z.max 1024 (Z.of_N (hardware_concurrency w)))%Z.


End parsing.

(* ===================================================================== *)
(** ** Deletion of the source

    The one place where the program deletes what it was given is the end
    of the interactive mode ([fs::remove_all]). *)
(* ===================================================================== *)

Definition is_remove_all (e : event) : bool :=
  match e with RemoveAll _ => true | _ => false end.

(** Nothing was deleted with [fs::remove_all]. *)
Definition keeps_source {A} (m : M A) : Prop := filter is_remove_all (trace m) = [].

(* ===================================================================== *)
(** ** Errors that a computation cannot end in *)
(* ===================================================================== *)

(** The computation does not end in the exception [e]. *)
Definition never_throws {A} (e : exn) (m : M A) : Prop := outcome m ≠ inl e.

(** Example trees. *)
Module trees.
Import sample.

Definition gzip_magic_only : list byte := [x1f; x8b].
Definition bzip2_magic_only : list byte := [x42; x5a; x68].
Definition rar_file : list byte := [x52; x61; x72; x21; x1a; x07; x00] ++ replicate 13 xcf.
Definition text_file : list byte := replicate 20 x0a.

(** A working directory [/w] with a few files whose names and contents
    disagree, and a directory. *)
Definition sniffing : gmap (list string) node :=
  {[ [] := Dir; ["w"] := Dir;
     ["w"; "tiny.zip"] := File bzip2_magic_only;
     ["w"; "two.bin"] := File gzip_magic_only;
     ["w"; "a.zip"] := File rar_file;
     ["w"; "notes.tar.gz"] := File text_file;
     ["w"; "notes"] := File text_file;
     ["w"; "docs"] := Dir;
     ["w"; "plain.txt"] := File text_file ]}.

(** [/x] holding two files and a directory. *)
Definition layout : gmap (list string) node :=
  {[ [] := Dir; ["x"] := Dir; ["x"; "a"] := File []; ["x"; "b"] := File [];
     ["x"; "dir"] := Dir; ["x"; "dir"; "f"] := File [] ]}.

(** [/w] holding [out.zip] and [out_1.zip]; [/v] holding [out.zip] only. *)
Definition renames : gmap (list string) node :=
  {[ [] := Dir; ["w"] := Dir; ["w"; "out.zip"] := File []; ["w"; "out_1.zip"] := File [];
     ["v"] := Dir; ["v"; "out.zip"] := File [] ]}.

(** [/w/a.zip] with its first split part next to it, and [/v/a.zip] alone. *)
Definition split_zip : gmap (list string) node :=
  {[ [] := Dir; ["w"] := Dir; ["w"; "a.zip"] := File []; ["w"; "a.z01"] := File [];
     ["v"] := Dir; ["v"; "a.zip"] := File [] ]}.

End trees.

(** A file of 600 letters whose name tells nothing. *)
Module printable_tree.
Import sample.

Definition letters : list byte := replicate 600 x61.

Definition tree : gmap (list string) node :=
  {[ [] := Dir; ["w"] := Dir; ["w"; "big.json"] := File letters ]}.

End printable_tree.

(* ===================================================================== *)
(** * Properties *)
(* ===================================================================== *)

Import util file_type operation.

(** ** Split ZIP archives *)

Lemma no_extension_not_split (p : string) :
  fspath.has_extension p = false →
  is_split_zip_extension (lower (fspath.extension p)) = false
  ∧ lower (fspath.extension p) ≠ ".zip".
Proof.
  unfold fspath.has_extension. intros H.
  apply negb_false_iff, bool_decide_eq_true in H. rewrite H. split; [reflexivity | discriminate].
Qed.

(** C5. [is_split_zip] is true for every path whose lower-cased extension
    is [.z] followed by two digits, whatever the file system holds; for a
    path with extension [.zip] it is true exactly when the path with the
    extension replaced by [.z01] exists; for any other extension, and for
    a path without extension, it is false.  With [a.z01] next to it
    [a.zip] is split and so is [a.z02]; [a.zip] alone is not. *)
Theorem C5_is_split_zip (w : World) (p : string) :
  (is_split_zip_extension (lower (fspath.extension p)) = true →
     ∀ w' : World, is_split_zip w' p = true)
  ∧ (lower (fspath.extension p) = ".zip" →
     is_split_zip w p = fs_exists w (fspath.replace_extension p ".z01"))
  ∧ (is_split_zip_extension (lower (fspath.extension p)) = false →
     lower (fspath.extension p) ≠ ".zip" → is_split_zip w p = false)
  ∧ (fspath.has_extension p = false → is_split_zip w p = false)
  ∧ (let w1 := sample.world trees.split_zip ["w"] sample.all_tools in
     let w2 := sample.world trees.split_zip ["v"] sample.all_tools in
     is_split_zip w1 "a.zip" = true ∧ is_split_zip w1 "a.z02" = true
     ∧ fs_exists w1 "a.z02" = false ∧ is_split_zip w2 "a.zip" = false).
Proof.
  unfold is_split_zip, is_split_zip_part.
  split; [|split; [|split; [|split]]].
  - intros Hz w'.
    destruct (fspath.has_extension p) eqn:He; simpl.
    + by rewrite Hz.
    + apply no_extension_not_split in He as [He _]. congruence.
  - intros Hz.
    destruct (fspath.has_extension p) eqn:He; simpl.
    + rewrite Hz. reflexivity.
    + apply no_extension_not_split in He as [_ He]. congruence.
  - intros Hz Hn.
    destruct (fspath.has_extension p); simpl; [|done].
    rewrite Hz. by rewrite bool_decide_eq_false_2.
  - by intros ->.
  - vm_compute. done.
Qed.

Lemma C5_is_split_zip_witness :
  is_split_zip (sample.world ∅ [] []) "a.z02" = true
  ∧ is_split_zip (sample.world trees.split_zip ["w"] []) "A.ZIP"
    = fs_exists (sample.world trees.split_zip ["w"] []) "A.z01"
  ∧ is_split_zip (sample.world trees.split_zip ["w"] []) "a.tar" = false
  ∧ is_split_zip (sample.world trees.split_zip ["w"] []) "a" = false.
Proof.
  pose (w := sample.world trees.split_zip ["w"] []).
  destruct (C5_is_split_zip w "a.z02") as (H1 & _).
  destruct (C5_is_split_zip w "A.ZIP") as (_ & H2 & _).
  destruct (C5_is_split_zip w "a.tar") as (_ & _ & H3 & _).
  destruct (C5_is_split_zip w "a") as (_ & _ & _ & H4 & _).
  split; [|split; [|split]].
  - apply H1. reflexivity.
  - apply H2. reflexivity.
  - apply H3; [reflexivity | discriminate].
  - apply H4. reflexivity.
Defined.
(** ** Signature sniffing *)

Lemma printable_char_value (b : byte) :
  (char_value b <? 32)%Z || (126 <? char_value b)%Z = negb (precedence.printable b).
Proof. destruct b; reflexivity. Qed.

Lemma scan_filename_spec (block : list byte) (has_filename : bool) :
  let '(looks_like_tar, has) := scan_filename block has_filename in
  looks_like_tar && has
  = forallb (λ b, precedence.is_null b || precedence.printable b) block
    && (has_filename || existsb (λ b, negb (precedence.is_null b)) block).
Proof.
  revert has_filename. induction block as [|b block IH]; intros h; simpl.
  - by rewrite orb_false_r.
  - unfold precedence.is_null at 1 3. destruct (Byte.eqb b x00) eqn:Hb; simpl.
    + apply IH.
    + rewrite printable_char_value. destruct (precedence.printable b); simpl.
      * specialize (IH true). destruct (scan_filename block true).
        rewrite IH. by rewrite orb_true_r.
      * done.
Qed.

Lemma ustar_check (l : list byte) :
  (5 <=? length (take 6 l))%nat
  && bool_decide (take 5 (take 6 l ++ replicate (6 - length (take 6 l)) x00) = ustar)
  = precedence.starts_with l ustar.
Proof.
  destruct l as [|a [|b [|c [|d [|e l]]]]]; simpl;
    repeat match goal with
    | |- context [Byte.eqb ?x ?y] =>
        let H := fresh in
        destruct (Byte.eqb x y) eqn:H;
        [apply byte_dec_bl in H; subst | apply Byte.eqb_false in H]; simpl
    end; try reflexivity.
  all: try (destruct l; simpl; try reflexivity).
  all: try (apply bool_decide_eq_false_2; unfold ustar; congruence).
Qed.

Lemma tar_checks_spec (file : ifstream) :
  tar_checks file
  = if precedence.has_ustar (data file) || precedence.legacy_tar (data file)
    then ARCHIVE_TAR else UNKNOWN.
Proof.
  unfold tar_checks, precedence.has_ustar, precedence.legacy_tar.
  unfold seekg, clear, read. cbn [failbit data pos gcount].
  rewrite ustar_check.
  destruct (precedence.starts_with (drop 257 (data file)) ustar); [done|].
  cbn [orb]. rewrite drop_0.
  rewrite length_take.
  destruct (decide (512 ≤ length (data file))) as [Hlen|Hlen].
  - rewrite Nat.min_l by done.
    replace (512 <=? 512)%nat with true by done.
    replace (512 <=? length (data file))%nat with true by (symmetry; by apply Nat.leb_le).
    rewrite take_app_le by (rewrite length_take; lia).
    rewrite take_take. replace (100 `min` 512) with 100 by done.
    pose proof (scan_filename_spec (take 100 (data file)) false) as Hs.
    destruct (scan_filename (take 100 (data file)) false) as [looks has].
    rewrite Hs. cbn [orb andb]. rewrite andb_comm. done.
  - rewrite Nat.min_r by lia.
    replace (512 <=? length (data file))%nat with false
      by (symmetry; apply Nat.leb_gt; lia). done.
Qed.

Lemma short_first_read (bytes : list byte) :
  length bytes < 16 → recognize_stream (opened bytes) = UNKNOWN.
Proof.
  intros Hlen. unfold recognize_stream, read, opened.
  cbn [failbit data pos gcount]. rewrite drop_0, length_take, Nat.min_r by lia.
  replace (length bytes <? 16) with true by (symmetry; by apply Nat.ltb_lt).
  by rewrite orb_true_r.
Qed.

Ltac byte_case b v :=
  let H := fresh "Hb" in
  destruct (Byte.eqb b v) eqn:H;
  [apply byte_dec_bl in H; subst b; cbn;
   repeat match goal with
     | |- context [Byte.eqb ?x ?y] => destruct (Byte.eqb x y); cbn
     end; reflexivity
  | cbn [andb orb] ].

Lemma full_first_read (bytes : list byte) :
  16 ≤ length bytes → recognize_stream (opened bytes) = precedence.classify bytes.
Proof.
  intros Hlen.
  do 16 (destruct bytes as [|? bytes]; [simpl in Hlen; lia|]). clear Hlen.
  unfold recognize_stream, precedence.classify, precedence.by_signature.
  unfold read, opened.
  cbn [failbit data pos gcount drop take length app at_ nth Nat.ltb Nat.leb orb
       Nat.add Nat.sub replicate].
  rewrite tar_checks_spec. cbn [data].
  set (T := if precedence.has_ustar _ || precedence.legacy_tar _ then ARCHIVE_TAR else UNKNOWN).
  clearbody T.
  unfold precedence.signature_table. cbn [List.find precedence.starts_with fst snd].
  byte_case b x50. byte_case b x52. byte_case b x37. byte_case b x1f.
  byte_case b x42. byte_case b xfd. byte_case b x04. byte_case b x28.
  byte_case b x22. reflexivity.
Qed.

Lemma starts_with_app (bytes sig : list byte) :
  precedence.starts_with bytes sig = true → ∃ rest, bytes = sig ++ rest.
Proof.
  revert bytes. induction sig as [|c sig IH]; intros bytes H.
  - by exists bytes.
  - destruct bytes as [|b bytes]; [done|]. simpl in H.
    apply andb_true_iff in H as [Hb Hs]. apply byte_dec_bl in Hb as ->.
    destruct (IH _ Hs) as [rest ->]. by exists rest.
Qed.

(** A matching table entry decides the classification: the signatures
    exclude one another. *)
Lemma by_signature_entry (bytes sig : list byte) (tag : FileType) :
  (sig, tag) ∈ precedence.signature_table →
  precedence.starts_with bytes sig = true →
  precedence.by_signature bytes = Some tag.
Proof.
  intros Hin Hs. apply starts_with_app in Hs as [rest ->].
  unfold precedence.signature_table in Hin.
  repeat (apply elem_of_cons in Hin as [Hin|Hin];
          [injection Hin as -> ->; cbn; reflexivity|]).
  by apply elem_of_nil in Hin.
Qed.

Lemma by_signature_known (bytes : list byte) (tag : FileType) :
  precedence.by_signature bytes = Some tag → tag ≠ UNKNOWN.
Proof.
  unfold precedence.by_signature. intros H.
  destruct (List.find _ _) as [[sig t]|] eqn:Hf; [|done].
  simpl in H. injection H as <-.
  apply List.find_some in Hf as [Hin _].
  unfold precedence.signature_table in Hin. simpl in Hin.
  repeat (destruct Hin as [Hin|Hin]; [by injection Hin as <- <-|]). done.
Qed.

Lemma recognize_by_header_opened (w : World) (path : string) (bytes : list byte) :
  fs_open w path = Some bytes →
  recognize_by_header w path = recognize_stream (opened bytes).
Proof. unfold recognize_by_header, ifstream_open. by intros ->. Qed.

(** C6 (as amended).  A file that cannot be opened, or whose first read
    delivers fewer than 4 bytes, is [UNKNOWN] at once: no shorter
    signature is tried on it.  When the first read delivers its 16 bytes
    the checks are tried in the precedence order, the "ustar" check and
    the legacy check being passed over when their bytes are not all
    there, and [UNKNOWN] is returned only when no check matches. *)
Theorem C6_sniffing (w : World) (path : string) :
  (fs_open w path = None → recognize_by_header w path = UNKNOWN)
  ∧ (∀ bytes, fs_open w path = Some bytes → length bytes < 4 →
       recognize_by_header w path = UNKNOWN)
  ∧ (∀ bytes, fs_open w path = Some bytes → 16 ≤ length bytes →
       recognize_by_header w path = precedence.classify bytes
       ∧ (length bytes < 262 → precedence.has_ustar bytes = false)
       ∧ (length bytes < 512 → precedence.legacy_tar bytes = false)
       ∧ (recognize_by_header w path = UNKNOWN ↔
            precedence.by_signature bytes = None
            ∧ precedence.has_ustar bytes = false
            ∧ precedence.legacy_tar bytes = false)).
Proof.
  split; [|split].
  - unfold recognize_by_header, ifstream_open. by intros ->.
  - intros bytes Ho Hlen. rewrite (recognize_by_header_opened _ _ _ Ho).
    apply short_first_read. lia.
  - intros bytes Ho Hlen. rewrite (recognize_by_header_opened _ _ _ Ho).
    rewrite (full_first_read _ Hlen). split; [done|]. split; [|split].
    + intros Hs. unfold precedence.has_ustar.
      destruct (precedence.starts_with _ _) eqn:E; [|done].
      apply starts_with_app in E as [rest E].
      apply (f_equal length) in E. rewrite length_drop, length_app in E.
      simpl in E. lia.
    + intros Hs. unfold precedence.legacy_tar.
      replace (512 <=? length bytes) with false; [done|].
      symmetry. apply Nat.leb_gt. lia.
    + unfold precedence.classify.
      destruct (precedence.by_signature bytes) as [tag|] eqn:Hsig.
      * apply by_signature_known in Hsig. split; [done | by intros [? _]].
      * destruct (precedence.has_ustar bytes), (precedence.legacy_tar bytes);
          simpl; split; try done; by intros (_ & ? & ?).
Qed.

Lemma C6_sniffing_witness :
  let w := sample.world trees.sniffing ["w"] sample.all_tools in
  recognize_by_header w "docs" = UNKNOWN
  ∧ recognize_by_header w "two.bin" = UNKNOWN
  ∧ recognize_by_header w "a.zip" = precedence.classify trees.rar_file.
Proof.
  intros w. destruct (C6_sniffing w "docs") as (H1 & _).
  destruct (C6_sniffing w "two.bin") as (_ & H2 & _).
  destruct (C6_sniffing w "a.zip") as (_ & _ & H3).
  split; [|split].
  - apply H1. reflexivity.
  - apply (H2 trees.gzip_magic_only); [reflexivity | simpl; lia].
  - apply (H3 trees.rar_file); [reflexivity | simpl; lia].
Defined.

(** C6 as claimed fails: a readable file of two bytes holding the GZIP
    magic is not classified by that signature; the sniffer answers
    [UNKNOWN]. *)
Lemma C6_short_file_counterexample :
  let w := sample.world trees.sniffing ["w"] sample.all_tools in
  fs_open w "two.bin" = Some [x1f; x8b]
  ∧ precedence.classify [x1f; x8b] = ARCHIVE_TAR_GZ
  ∧ recognize_by_header w "two.bin" = UNKNOWN.
Proof. vm_compute. done. Qed.

(** ** Source type resolution *)

Lemma recognize_by_extension_archive (path : string) :
  recognize_by_extension path ≠ REGULAR_FILE
  ∧ recognize_by_extension path ≠ DIRECTORY.
Proof.
  unfold recognize_by_extension.
  repeat match goal with
  | |- context [if ?c then _ else _] => destruct c
  end; done.
Qed.

(** C1 (as amended).  For an existing regular file: when its first 16
    bytes can be read and begin with a supported signature, the resolved
    tag is the format of that signature whatever the file is called; a
    tag found by sniffing always wins over the extension; when sniffing
    answers [UNKNOWN], as it does on every file of fewer than 4 bytes,
    the result is the extension classifier's, and [REGULAR_FILE] when
    that is [UNKNOWN] too.  The resolution never fails and never answers
    [UNKNOWN]. *)
Theorem C1_source_type (w : World) (path : string) :
  fs_exists w path = true →
  fs_is_directory w path = false →
  fs_is_regular_file w path = true →
  (∀ bytes sig tag,
     fs_open w path = Some bytes → 16 ≤ length bytes →
     (sig, tag) ∈ precedence.signature_table →
     precedence.starts_with bytes sig = true →
     recognize_source_type w path = mret tag)
  ∧ (∀ tag, recognize_by_header w path = tag → tag ≠ UNKNOWN →
       recognize_source_type w path = mret tag)
  ∧ (recognize_by_header w path = UNKNOWN →
       recognize_source_type w path
       = mret (if bool_decide (recognize_by_extension path = UNKNOWN)
               then REGULAR_FILE else recognize_by_extension path))
  ∧ (∀ bytes, fs_open w path = Some bytes → length bytes < 4 →
       recognize_source_type w path
       = mret (if bool_decide (recognize_by_extension path = UNKNOWN)
               then REGULAR_FILE else recognize_by_extension path))
  ∧ (∃ tag, recognize_source_type w path = mret tag ∧ tag ≠ UNKNOWN).
Proof.
  intros He Hd Hr.
  assert (Hsniff : ∀ tag, recognize_by_header w path = tag → tag ≠ UNKNOWN →
                          recognize_source_type w path = mret tag).
  { intros tag Ht Hk. unfold recognize_source_type. rewrite He, Hd, Hr, Ht. simpl.
    rewrite !(bool_decide_eq_false_2 (tag = UNKNOWN)) by done. done. }
  assert (Hext : recognize_by_header w path = UNKNOWN →
       recognize_source_type w path
       = mret (if bool_decide (recognize_by_extension path = UNKNOWN)
               then REGULAR_FILE else recognize_by_extension path)).
  { intros Ht. unfold recognize_source_type. rewrite He, Hd, Hr, Ht. simpl. done. }
  split; [|split; [|split; [|split]]]; [|done|done| |].
  - intros bytes sig tag Ho Hlen Hin Hs. apply Hsniff.
    + rewrite (recognize_by_header_opened _ _ _ Ho), (full_first_read _ Hlen).
      unfold precedence.classify. by rewrite (by_signature_entry _ _ _ Hin Hs).
    + apply (by_signature_known bytes). by apply (by_signature_entry _ sig).
  - intros bytes Ho Hlen. apply Hext.
    rewrite (recognize_by_header_opened _ _ _ Ho). apply short_first_read. lia.
  - destruct (decide (recognize_by_header w path = UNKNOWN)) as [Hu|Hu].
    + eexists. split; [by apply Hext|]. case_bool_decide; done.
    + eexists. split; [by apply Hsniff|]. done.
Qed.

Lemma C1_source_type_witness :
  let w := sample.world trees.sniffing ["w"] sample.all_tools in
  recognize_source_type w "a.zip" = mret ARCHIVE_RAR
  ∧ recognize_source_type w "notes.tar.gz" = mret ARCHIVE_TAR_GZ
  ∧ recognize_source_type w "plain.txt" = mret REGULAR_FILE.
Proof.
  intros w.
  destruct (C1_source_type w "a.zip") as (H1 & _); [reflexivity..|].
  destruct (C1_source_type w "notes.tar.gz") as (_ & _ & H2 & _); [reflexivity..|].
  destruct (C1_source_type w "plain.txt") as (_ & _ & H3 & _); [reflexivity..|].
  split; [|split].
  - apply (H1 trees.rar_file [x52; x61; x72; x21]);
      [reflexivity | simpl; lia | set_solver | reflexivity].
  - apply H2. reflexivity.
  - apply H3. reflexivity.
Defined.

(** C1 as claimed fails: a regular file whose bytes are the BZIP2
    signature, named [tiny.zip], resolves to the format of its extension,
    not to the format of its signature. *)
Lemma C1_short_file_counterexample :
  let w := sample.world trees.sniffing ["w"] sample.all_tools in
  fs_is_regular_file w "tiny.zip" = true
  ∧ fs_open w "tiny.zip" = Some [x42; x5a; x68]
  ∧ ([x42; x5a; x68], ARCHIVE_TAR_BZ2) ∈ precedence.signature_table
  ∧ precedence.starts_with [x42; x5a; x68] [x42; x5a; x68] = true
  ∧ recognize_source_type w "tiny.zip" = mret ARCHIVE_ZIP
  ∧ recognize_source_type w "tiny.zip" ≠ mret ARCHIVE_TAR_BZ2.
Proof.
  intros w. repeat split; try reflexivity; [set_solver | vm_compute; congruence].
Qed.

(** ** Operation inference *)

Lemma bind_mret {A B} (a : A) (f : A → M B) : bind (mret a) f = f a.
Proof. unfold bind, mret, M_ret. by destruct (f a). Qed.

(** What [recognize] does once the source type is known. *)
Lemma recognize_resolved (w : World) (source target : string) (tag : FileType) :
  recognize_source_type w source = mret tag →
  recognize w source target =
    if bool_decide (tag = DIRECTORY) || bool_decide (tag = REGULAR_FILE) then
      mret {| source_type := tag; target_type_hint := recognize_by_extension target;
              operation := COMPRESS |}
    else if fs_exists w target && negb (fs_is_directory w target) then
      throw_error INVALID_TARGET
    else
      mret {| source_type := tag;
              target_type_hint := if bool_decide (target = "") then UNKNOWN
                                  else recognize_by_extension target;
              operation := DECOMPRESS |}.
Proof.
  intros H. unfold recognize. rewrite H, bind_mret.
  destruct (bool_decide (tag = DIRECTORY) || bool_decide (tag = REGULAR_FILE)).
  - destruct (decide (target = "")) as [->|Hne].
    + reflexivity.
    + rewrite (bool_decide_eq_false_2 (target = "")) by done. cbn [negb].
      destruct (recognize_by_extension_archive target) as [H1 H2].
      rewrite (bool_decide_eq_false_2 _ H1), (bool_decide_eq_false_2 _ H2). cbn [negb andb].
      rewrite andb_true_r.
      case_bool_decide as Hu; cbn [negb]; [by rewrite Hu | done].
  - destruct (fs_exists w target && negb (fs_is_directory w target)); [done|].
    by destruct (bool_decide (target = "")).
Qed.

(** C2. Once the source is resolved to a tag: for [DIRECTORY] and
    [REGULAR_FILE] the operation is [COMPRESS] and the target hint is the
    extension classifier's answer on the target path; when that answer is
    [UNKNOWN] and no format is forced, the command ends in
    [UNKNOWN_FORMAT] with nothing run.  For every other tag the operation
    is [DECOMPRESS], failing with [INVALID_TARGET] exactly when the target
    exists and is not a directory. *)
Theorem C2_operation_inference (w : World) (source target : string) (tag : FileType) :
  recognize_source_type w source = mret tag →
  ((tag = DIRECTORY ∨ tag = REGULAR_FILE) →
     recognize w source target
     = mret {| source_type := tag; target_type_hint := recognize_by_extension target;
               operation := COMPRESS |}
     ∧ (recognize_by_extension target = UNKNOWN →
        ∀ (options : args.Options) (lines : list string),
          args.source_path options = source →
          args.target_path options = target →
          length (args.source_paths options) ≤ 1 →
          args.force_format options = "" →
          cli.equivalent_no_error w source target = false →
          cli.main_cli w options lines = throw_error UNKNOWN_FORMAT))
  ∧ (tag ≠ DIRECTORY → tag ≠ REGULAR_FILE →
     (recognize w source target = throw_error INVALID_TARGET
      ↔ fs_exists w target = true ∧ fs_is_directory w target = false)
     ∧ (recognize w source target ≠ throw_error INVALID_TARGET →
        ∃ hint, recognize w source target
                = mret {| source_type := tag; target_type_hint := hint;
                          operation := DECOMPRESS |})).
Proof.
  intros H. pose proof (recognize_resolved w source target tag H) as Hr.
  split.
  - intros Htag.
    assert (bool_decide (tag = DIRECTORY) || bool_decide (tag = REGULAR_FILE) = true) as Hc.
    { destruct Htag as [-> | ->]; reflexivity. }
    rewrite Hc in Hr. split; [done|].
    intros Hu options lines Hs Ht Hlen Hf Heq.
    unfold cli.main_cli.
    replace (1 <? length (args.source_paths options)) with false
      by (symmetry; apply Nat.ltb_ge; lia).
    rewrite Hs, Ht, Heq, andb_false_r. unfold when, mbind, M_bind. rewrite bind_mret.
    rewrite Hr, bind_mret. unfold cli.forced_format. rewrite Hf.
    rewrite (bool_decide_eq_true_2 ("" = "")) by done. rewrite bind_mret.
    cbn [operation target_type_hint].
    rewrite Hu. reflexivity.
  - intros Hd Hf.
    rewrite (bool_decide_eq_false_2 _ Hd), (bool_decide_eq_false_2 _ Hf) in Hr.
    cbn [orb] in Hr. rewrite Hr.
    destruct (fs_exists w target), (fs_is_directory w target); cbn [negb andb];
      split; try (split; [done | by intros []]); try (split; [done | done]);
      try (intros _; by eexists); try done.
Qed.

Lemma C2_operation_inference_witness :
  let w := sample.world trees.sniffing ["w"] sample.all_tools in
  recognize w "docs" "out.tar.gz"
  = mret {| source_type := DIRECTORY; target_type_hint := ARCHIVE_TAR_GZ;
            operation := COMPRESS |}
  ∧ cli.main_cli w {| args.interactive_mode := false; args.source_path := "docs";
                      args.source_paths := ["docs"]; args.target_path := "out";
                      args.password := ""; args.compression_level := 0;
                      args.thread_count := 0; args.verbose := false;
                      args.benchmark := false; args.verify := false;
                      args.force_format := "" |} []
    = throw_error UNKNOWN_FORMAT
  ∧ recognize w "a.zip" "plain.txt" = throw_error INVALID_TARGET
  ∧ (∃ hint, recognize w "a.zip" "docs"
             = mret {| source_type := ARCHIVE_RAR; target_type_hint := hint;
                       operation := DECOMPRESS |}).
Proof.
  intros w.
  destruct (C2_operation_inference w "docs" "out.tar.gz" DIRECTORY eq_refl) as [H1 _].
  destruct (C2_operation_inference w "docs" "out" DIRECTORY eq_refl) as [H2 _].
  destruct (C2_operation_inference w "a.zip" "plain.txt" ARCHIVE_RAR eq_refl) as [_ H3].
  destruct (C2_operation_inference w "a.zip" "docs" ARCHIVE_RAR eq_refl) as [_ H4].
  split; [|split; [|split]].
  - apply H1. by left.
  - apply H2; [by left | reflexivity | reflexivity | reflexivity | simpl; lia
              | reflexivity | reflexivity].
  - apply H3; [discriminate | discriminate | split; reflexivity].
  - apply H4; [discriminate | discriminate | vm_compute; discriminate].
Defined.

(** ** Command construction *)

Lemma require_tool_eq (w : World) (tool : string) :
  require_tool w tool
  = if tool_on_path w tool then ([Probe tool], inr tt)
    else ([Probe tool], inl (HitpagException TOOL_NOT_FOUND)).
Proof. unfold require_tool, is_tool_available. by destruct (tool_on_path w tool). Qed.

Lemma decompress_command_known_format (w : World) (source target_dir : string)
    (tag : FileType) (password : string) (options : args.Options) :
  archive_tag tag →
  outcome (decompress_command w source target_dir tag password options)
  ≠ inl (HitpagException UNKNOWN_FORMAT).
Proof.
  intros (Hr & Hd & Hu).
  destruct tag; try done; unfold decompress_command; rewrite ?require_tool_eq;
    unfold when, mbind, M_bind;
    repeat match goal with
    | |- context [if ?c then _ else _] => destruct c; cbn
    end; discriminate.
Qed.

Lemma outcome_bind {A B} (m : M A) (f : A → M B) :
  outcome (bind m f)
  = match outcome m with inl e => inl e | inr a => outcome (f a) end.
Proof. destruct m as [t [e|a]]; [done|]. unfold bind, outcome. simpl. by destruct (f a). Qed.

Lemma trace_bind {A B} (m : M A) (f : A → M B) :
  trace (bind m f)
  = trace m ++ match outcome m with inl e => [] | inr a => trace (f a) end.
Proof.
  destruct m as [t [e|a]]; unfold bind, trace, outcome; simpl.
  - by rewrite app_nil_r.
  - by destruct (f a).
Qed.

Lemma decompress_known_format (w : World) (source target_dir : string)
    (tag : FileType) (password : string) (options : args.Options) :
  archive_tag tag →
  outcome (decompress w source target_dir tag password options)
  ≠ inl (HitpagException UNKNOWN_FORMAT).
Proof.
  intros Htag.
  pose proof (decompress_command_known_format w source target_dir tag password options Htag) as Hc.
  unfold decompress, when, mbind, M_bind. rewrite !outcome_bind.
  destruct (negb (fs_exists w target_dir)); cbn.
  - destruct (fs_create_directories_fails w target_dir); cbn; [discriminate|].
    destruct (outcome (decompress_command _ _ _ _ _ _)) as [e|[tool args]];
      [congruence|].
    cbn. by case_bool_decide.
  - destruct (outcome (decompress_command _ _ _ _ _ _)) as [e|[tool args]];
      [congruence|].
    cbn. by case_bool_decide.
Qed.

(** C7. Every tag other than [UNKNOWN] that the extension classifier
    gives to a path has a command construction that does not fail with
    [UNKNOWN_FORMAT]: [decompress] builds a command for it whenever its
    tool is installed, and never answers [UNKNOWN_FORMAT].  This covers
    [.tar.gz], and [.rar] and [.xar]; for [ARCHIVE_RAR] it is the only
    one, [compress] having no case for that tag. *)
Theorem C7_round_trip (path : string) :
  recognize_by_extension path ≠ UNKNOWN →
  (∀ (w : World) (source target_dir password : string) (options : args.Options),
     outcome (decompress_command w source target_dir (recognize_by_extension path)
                password options) ≠ inl (HitpagException UNKNOWN_FORMAT)
     ∧ outcome (decompress w source target_dir (recognize_by_extension path)
                  password options) ≠ inl (HitpagException UNKNOWN_FORMAT))
  ∧ (∀ (w : World) (target_dir password : string) (options : args.Options),
       (∀ tool, tool_on_path w tool = true) →
       ∃ tool args,
         outcome (decompress_command w "archive" target_dir
                    (recognize_by_extension path) password options)
         = inr (tool, args))
  ∧ recognize_by_extension "a.tar.gz" = ARCHIVE_TAR_GZ
  ∧ recognize_by_extension "a.rar" = ARCHIVE_RAR
  ∧ recognize_by_extension "a.xar" = ARCHIVE_XAR
  ∧ (∀ (w : World) (target password : string) (options : args.Options) items,
       outcome (compress_command w target ARCHIVE_RAR password options items)
       = inl (HitpagException UNKNOWN_FORMAT)).
Proof.
  intros Hk.
  assert (archive_tag (recognize_by_extension path)) as Htag.
  { destruct (recognize_by_extension_archive path). by repeat split. }
  split; [|split; [|repeat split]].
  - intros. split.
    + by apply decompress_command_known_format.
    + by apply decompress_known_format.
  - intros w target_dir password options Htools.
    destruct Htag as (Hr & Hd & Hu).
    destruct (recognize_by_extension path); try done;
      unfold decompress_command; rewrite ?require_tool_eq, ?Htools;
      unfold when, mbind, M_bind;
      destruct (bool_decide (password = "")); cbn; eauto.
Qed.

Lemma C7_round_trip_witness :
  outcome (decompress_command (sample.world ∅ [] sample.all_tools) "a.rar" "out"
             (recognize_by_extension "a.rar") "" args.default)
  ≠ inl (HitpagException UNKNOWN_FORMAT).
Proof.
  apply (C7_round_trip "a.rar"). vm_compute. discriminate.
Defined.

Lemma same_commands_bind {A B} (m : M A) (f g : A → M B) :
  (∀ a, same_commands (f a) (g a)) → same_commands (bind m f) (bind m g).
Proof.
  intros H. unfold same_commands. rewrite !outcome_bind, !trace_bind, !filter_app.
  destruct (outcome m) as [e|a]; [done|]. destruct (H a) as [-> ->]. done.
Qed.

Lemma tar_compress_password (w : World) (target : string) (fmt : FileType)
    (password : string) (options : args.Options) (items : list string) :
  tar_family fmt → password ≠ "" →
  compress_command w target fmt password options items
  = (Cout "warning_tar_password"
       :: trace (compress_command w target fmt "" options items),
     outcome (compress_command w target fmt "" options items)).
Proof.
  intros Hf Hp. unfold compress_command.
  destruct Hf as [-> | [-> | [-> | ->]]];
    rewrite (bool_decide_eq_false_2 _ Hp), require_tool_eq;
    by destruct (tool_on_path w "tar").
Qed.

Lemma tar_decompress_password (w : World) (source target_dir : string) (fmt : FileType)
    (password : string) (options : args.Options) :
  tar_family fmt → password ≠ "" →
  decompress_command w source target_dir fmt password options
  = (Cout "warning_tar_password"
       :: trace (decompress_command w source target_dir fmt "" options),
     outcome (decompress_command w source target_dir fmt "" options)).
Proof.
  intros Hf Hp. unfold decompress_command.
  destruct Hf as [-> | [-> | [-> | ->]]];
    rewrite (bool_decide_eq_false_2 _ Hp), require_tool_eq;
    by destruct (tool_on_path w "tar").
Qed.

Lemma warned_same_commands {A B} (m : M A) (f : A → M B) :
  same_commands (bind (Cout "warning_tar_password" :: trace m, outcome m) f) (bind m f).
Proof.
  destruct m as [t [e|a]]; unfold same_commands, bind, trace, outcome; simpl; [done|].
  by destruct (f a).
Qed.

(** C8. For a tar-family format and a non-empty password, the command
    construction of [compress] and of [decompress] first prints the
    warning and then behaves as it does without a password: the same
    outcome, and, when [tar] is installed, the argument vector made of the
    flag, the archive and the items (or the [-C] target), with no place
    for the password.  The whole of [compress] and of [decompress] ends
    the same way and runs the same commands as without the password. *)
Theorem C8_tar_password (w : World) (fmt : FileType) (password : string) :
  tar_family fmt → password ≠ "" →
  (∀ target options items,
     compress_command w target fmt password options items
     = (Cout "warning_tar_password"
          :: trace (compress_command w target fmt "" options items),
        outcome (compress_command w target fmt "" options items))
     ∧ (tool_on_path w "tar" = true →
        ∃ flags, flags ∈ ["-cf"; "-czf"; "-cjf"; "-cJf"]
          ∧ compress_command w target fmt password options items
            = ([Cout "warning_tar_password"; Probe "tar"],
               inr ("tar", [flags; fs_absolute w target] ++ items))))
  ∧ (∀ source target_dir options,
     decompress_command w source target_dir fmt password options
     = (Cout "warning_tar_password"
          :: trace (decompress_command w source target_dir fmt "" options),
        outcome (decompress_command w source target_dir fmt "" options))
     ∧ (tool_on_path w "tar" = true →
        ∃ flags, flags ∈ ["-xf"; "-xzf"; "-xjf"; "-xJf"]
          ∧ decompress_command w source target_dir fmt password options
            = ([Cout "warning_tar_password"; Probe "tar"],
               inr ("tar", [flags; fs_absolute w source; "-C";
                            fs_absolute w target_dir]))))
  ∧ (∀ sources target options,
       same_commands (compress w sources target fmt password options)
                     (compress w sources target fmt "" options))
  ∧ (∀ source target_dir options,
       same_commands (decompress w source target_dir fmt password options)
                     (decompress w source target_dir fmt "" options)).
Proof.
  intros Hf Hp. split; [|split; [|split]].
  - intros. split; [by apply tar_compress_password|].
    intros Ht. unfold compress_command.
    destruct Hf as [-> | [-> | [-> | ->]]];
      rewrite (bool_decide_eq_false_2 _ Hp), require_tool_eq, Ht;
      eexists; (split; [|reflexivity]); set_solver.
  - intros. split; [by apply tar_decompress_password|].
    intros Ht. unfold decompress_command.
    destruct Hf as [-> | [-> | [-> | ->]]];
      rewrite (bool_decide_eq_false_2 _ Hp), require_tool_eq, Ht;
      eexists; (split; [|reflexivity]); set_solver.
  - intros. unfold compress. destruct (bool_decide (sources = [])); [done|].
    apply same_commands_bind. intros canon.
    unfold mbind, M_bind. apply same_commands_bind. intros _.
    rewrite (tar_compress_password _ _ _ _ _ _ Hf Hp).
    apply warned_same_commands.
  - intros. unfold decompress, mbind, M_bind.
    apply same_commands_bind. intros _.
    rewrite (tar_decompress_password _ _ _ _ _ _ Hf Hp).
    apply warned_same_commands.
Qed.

Lemma C8_tar_password_witness :
  compress_command (sample.world ∅ [] sample.all_tools) "out.tar.gz" ARCHIVE_TAR_GZ
    "secret" args.default ["docs"]
  = ([Cout "warning_tar_password"; Probe "tar"],
     inr ("tar", ["-czf"; "/out.tar.gz"; "docs"])).
Proof.
  destruct (C8_tar_password (sample.world ∅ [] sample.all_tools) ARCHIVE_TAR_GZ "secret")
    as [H _]; [right; by left | discriminate |].
  destruct (H "out.tar.gz" args.default ["docs"]) as [-> _]. reflexivity.
Defined.

(** ** Compression to the single-stream formats *)

Lemma canonical_sources_exist (w : World) (sources : list CompressionSource) :
  Forall (λ src, fs_exists w (path src) = true) sources →
  canonical_sources w sources = mret (canonical_entry w <$> sources).
Proof.
  unfold canonical_sources. induction 1 as [|src sources Hsrc _ IH]; [done|].
  cbn [mapM]. rewrite Hsrc. cbn [negb]. unfold mbind, M_bind in *.
  rewrite bind_mret, IH, bind_mret. done.
Qed.

Lemma plan_layout_items_length (w : World) (sources : list CompressionSource) :
  sources ≠ [] →
  length (items (plan_layout w sources (canonical_entry w <$> sources))) = length sources.
Proof.
  intros Hne. unfold plan_layout.
  destruct (bool_decide (length sources = 1)) eqn:Hl; cbn [andb].
  - apply bool_decide_eq_true in Hl.
    destruct (default false _ && default false _); cbn [items]; [done|].
    by rewrite !length_fmap.
  - cbn [items]. by rewrite !length_fmap.
Qed.

(** [compress] once the sources are known to exist. *)
Lemma compress_existing (w : World) (sources : list CompressionSource)
    (target : string) (fmt : FileType) (password : string) (options : args.Options) :
  sources ≠ [] →
  Forall (λ src, fs_exists w (path src) = true) sources →
  compress w sources target fmt password options
  = bind (when (args.verbose options && (1 <? args.thread_count options)%Z)
               (emit (Cout "threads_info")))
      (λ _,
       let layout := plan_layout w sources (canonical_entry w <$> sources) in
       bind (compress_command w target fmt password options (items layout))
         (λ '(tool, args),
          bind (emit (Cout "compressing"))
            (λ _,
             bind (execute_command w tool args (cpath.to_string (base_directory layout)))
               (λ result,
                if negb (bool_decide (result = 0%Z)) then throw_error OPERATION_FAILED
                else
                  bind (when (args.verify options)
                          (bind (emit (Cout "verifying"))
                             (λ _, bind (verify_archive w target fmt)
                                (λ ok, emit (Cout (if ok then "verification_success"
                                                   else "verification_failed"))))))
                    (λ _, emit (Cout "operation_complete")))))).
Proof.
  intros Hne Hex. unfold compress.
  rewrite (bool_decide_eq_false_2 _ Hne), (canonical_sources_exist _ _ Hex), bind_mret.
  reflexivity.
Qed.

Lemma no_tool_run_threads_info {A} (b : bool) (m : M A) :
  no_tool_run m →
  no_tool_run (bind (when b (emit (Cout "threads_info"))) (λ _, m)).
Proof.
  unfold no_tool_run. rewrite trace_bind. destruct b; cbn; done.
Qed.

Lemma outcome_threads_info {A} (b : bool) (m : M A) :
  outcome (bind (when b (emit (Cout "threads_info"))) (λ _, m)) = outcome m.
Proof. rewrite outcome_bind. by destruct b. Qed.

(** C10 (as amended).  For [ARCHIVE_LZ4] and [ARCHIVE_ZSTD], with every
    source existing: when the tool is installed and more than one source
    is given, [compress] fails with [UNKNOWN_FORMAT] and has run no
    external tool; when the tool is not installed it fails with
    [TOOL_NOT_FOUND] first, whatever the number of sources; with the tool
    installed and one source the command is built from the single item. *)
Theorem C10_single_stream_formats (w : World) (sources : list CompressionSource)
    (target : string) (fmt : FileType) (tool : string) (password : string)
    (options : args.Options) :
  (fmt, tool) ∈ [(ARCHIVE_LZ4, "lz4"); (ARCHIVE_ZSTD, "zstd")] →
  sources ≠ [] →
  Forall (λ src, fs_exists w (path src) = true) sources →
  let run := compress w sources target fmt password options in
  let layout := plan_layout w sources (canonical_entry w <$> sources) in
  length (items layout) = length sources
  ∧ (tool_on_path w tool = true → 1 < length sources →
     outcome run = inl (HitpagException UNKNOWN_FORMAT) ∧ no_tool_run run)
  ∧ (tool_on_path w tool = false →
     outcome run = inl (HitpagException TOOL_NOT_FOUND) ∧ no_tool_run run)
  ∧ (tool_on_path w tool = true → length sources = 1 →
     ∃ item, items layout = [item]
       ∧ compress_command w target fmt password options (items layout)
         = ([Probe tool],
            inr (tool,
                 level_flag "-" options
                 ++ (if bool_decide (fmt = ARCHIVE_LZ4)
                     then ["-r"; item; fs_absolute w target]
                     else ["-r"; item; "-o"; fs_absolute w target])))
       ∧ Exec tool
           (level_flag "-" options
            ++ (if bool_decide (fmt = ARCHIVE_LZ4)
                then ["-r"; item; fs_absolute w target]
                else ["-r"; item; "-o"; fs_absolute w target]))
           (cpath.to_string (base_directory layout)) ∈ trace run).
Proof.
  intros Hfmt Hne Hex run layout.
  pose proof (plan_layout_items_length w sources Hne) as Hlen.
  fold layout in Hlen.
  assert (Hrun : run = _) by apply (compress_existing w sources target fmt password options Hne Hex).
  cbv zeta in Hrun. fold layout in Hrun.
  split; [done|].
  assert (fmt = ARCHIVE_LZ4 ∧ tool = "lz4" ∨ fmt = ARCHIVE_ZSTD ∧ tool = "zstd") as Hcase.
  { repeat (apply elem_of_cons in Hfmt as [Hfmt|Hfmt];
            [injection Hfmt as -> ->; auto|]).
    by apply elem_of_nil in Hfmt. }
  split; [|split].
  - intros Ht Hmany. rewrite Hrun. rewrite outcome_threads_info.
    assert (compress_command w target fmt password options (items layout)
            = ([Probe tool], inl (HitpagException UNKNOWN_FORMAT))) as Hc.
    { unfold compress_command.
      destruct Hcase as [[-> ->] | [-> ->]]; rewrite require_tool_eq, Ht;
        destruct (items layout) as [|i1 [|i2 rest]]; simpl in Hlen; try lia; done. }
    split.
    + rewrite outcome_bind, Hc. done.
    + apply no_tool_run_threads_info. unfold no_tool_run.
      rewrite trace_bind, Hc. destruct Hcase as [[_ ->] | [_ ->]]; done.
  - intros Ht. rewrite Hrun. rewrite outcome_threads_info.
    assert (compress_command w target fmt password options (items layout)
            = ([Probe tool], inl (HitpagException TOOL_NOT_FOUND))) as Hc.
    { unfold compress_command.
      destruct Hcase as [[-> ->] | [-> ->]]; rewrite require_tool_eq, Ht; done. }
    split.
    + rewrite outcome_bind, Hc. done.
    + apply no_tool_run_threads_info. unfold no_tool_run.
      rewrite trace_bind, Hc. destruct Hcase as [[_ ->] | [_ ->]]; done.
  - intros Ht Hone. rewrite Hone in Hlen.
    destruct (items layout) as [|item [|i2 rest]]; simpl in Hlen; try lia.
    exists item. split; [done|].
    assert (compress_command w target fmt password options [item]
            = ([Probe tool],
               inr (tool,
                    level_flag "-" options
                    ++ (if bool_decide (fmt = ARCHIVE_LZ4)
                        then ["-r"; item; fs_absolute w target]
                        else ["-r"; item; "-o"; fs_absolute w target])))) as Hc.
    { unfold compress_command.
      destruct Hcase as [[-> ->] | [-> ->]]; rewrite require_tool_eq, Ht; done. }
    split; [done|].
    rewrite Hrun, trace_bind. apply elem_of_app. right.
    replace (outcome (when (args.verbose options && (1 <? args.thread_count options)%Z)
                        (emit (Cout "threads_info")))) with (inr tt : exn + unit)
      by (by destruct (args.verbose options && _)).
    rewrite Hc, trace_bind. cbn [outcome trace fst snd].
    rewrite !trace_bind. cbn [outcome trace fst snd emit execute_command mbind M_bind bind
                              app mret M_ret].
    do 2 apply list_elem_of_further. apply list_elem_of_here.
Qed.

Lemma C10_single_stream_formats_witness :
  let w := sample.world trees.sniffing ["w"] sample.all_tools in
  let two := [{| path := "notes"; include_contents := false |};
              {| path := "plain.txt"; include_contents := false |}] in
  outcome (compress w two "out.lz4" ARCHIVE_LZ4 "" args.default)
  = inl (HitpagException UNKNOWN_FORMAT)
  ∧ no_tool_run (compress w two "out.lz4" ARCHIVE_LZ4 "" args.default).
Proof.
  intros w two.
  destruct (C10_single_stream_formats w two "out.lz4" ARCHIVE_LZ4 "lz4" "" args.default)
    as (_ & H & _).
  - set_solver.
  - discriminate.
  - repeat constructor.
  - apply H; [reflexivity | simpl; lia].
Defined.

(** C10 as claimed fails: with [lz4] not installed, two existing sources
    end in [TOOL_NOT_FOUND], not in [UNKNOWN_FORMAT]. *)
Lemma C10_missing_tool_counterexample :
  let w := sample.world trees.sniffing ["w"] [] in
  let two := [{| path := "notes"; include_contents := false |};
              {| path := "plain.txt"; include_contents := false |}] in
  length (items (plan_layout w two (canonical_entry w <$> two))) = 2
  ∧ compress w two "out.lz4" ARCHIVE_LZ4 "" args.default
    = ([Probe "lz4"], inl (HitpagException TOOL_NOT_FOUND)).
Proof. vm_compute. done. Qed.

(** ** Same source and target *)

Lemma mbind_eq {A B} (f : A → M B) (m : M A) : mbind f m = bind m f.
Proof. reflexivity. Qed.





(** ** Archive layout *)

Lemma canonical_app (p q : list string) :
  cpath.canonical (p ++ q) ↔ cpath.canonical p ∧ cpath.canonical q.
Proof. apply Forall_app. Qed.

Lemma count_up_canonical (b : list string) :
  cpath.canonical b → cpath.count_up b = Z.of_nat (length b).
Proof.
  induction 1 as [|c b (Hne & Hd & Hdd) _ IH]; [done|].
  unfold cpath.count_up in *. cbn [foldr length].
  rewrite (bool_decide_eq_false_2 _ Hdd), (bool_decide_eq_false_2 _ Hne),
    (bool_decide_eq_false_2 _ Hd), IH. cbn [orb]. lia.
Qed.

Lemma max_prefix_of_prefix (p base : list string) :
  base `prefix_of` p → max_prefix p base = (drop (length base) p, [], base).
Proof.
  intros Hpre. destruct (max_prefix p base) as [[k1 k2] k3] eqn:Hm.
  pose proof (max_prefix_fst_alt _ _ _ _ _ Hm) as Hp.
  pose proof (max_prefix_snd_alt _ _ _ _ _ Hm) as Hb.
  assert (base `prefix_of` k3) as Hk.
  { eapply max_prefix_max_alt; [exact Hm | done | done]. }
  assert (k2 = []) as ->.
  { apply prefix_length in Hk. subst base. rewrite length_app in Hk.
    destruct k2; [done | simpl in Hk; lia]. }
  rewrite app_nil_r in Hb. subst k3 p. by rewrite drop_app_length.
Qed.

Lemma max_prefix_not_prefix (p base : list string) :
  ¬ base `prefix_of` p → (max_prefix p base).1.2 ≠ [].
Proof.
  intros Hn Hk. apply Hn.
  destruct (max_prefix p base) as [[k1 k2] k3] eqn:Hm. simpl in Hk. subst k2.
  pose proof (max_prefix_fst_alt _ _ _ _ _ Hm) as Hp.
  pose proof (max_prefix_snd_alt _ _ _ _ _ Hm) as Hb.
  rewrite app_nil_r in Hb. subst. by apply prefix_app_r.
Qed.

(** On canonical paths, the relative path from an ancestor-or-self is
    what is left of the path, or [.]. *)
Lemma lexically_relative_prefix (p base : list string) :
  cpath.canonical p → base `prefix_of` p →
  cpath.lexically_relative p base
  = if bool_decide (p = base) then ["."] else drop (length base) p.
Proof.
  intros Hc Hpre. unfold cpath.lexically_relative.
  rewrite (max_prefix_of_prefix _ _ Hpre).
  destruct Hpre as [k ->]. rewrite drop_app_length.
  apply canonical_app in Hc as [_ Hk].
  destruct k as [|c k].
  - rewrite app_nil_r. by rewrite bool_decide_eq_true_2.
  - rewrite (bool_decide_eq_false_2 (base ++ c :: k = base)).
    2:{ intros H. apply (f_equal length) in H. rewrite length_app in H. simpl in H. lia. }
    cbn. apply Forall_cons in Hk as [(Hne & _) _].
    rewrite (bool_decide_eq_false_2 (Some c = Some "")); [done|]. congruence.
Qed.

Lemma lexically_relative_not_prefix (p base : list string) :
  cpath.canonical base → ¬ base `prefix_of` p →
  ∃ rest, cpath.lexically_relative p base = ".." :: rest.
Proof.
  intros Hc Hn. unfold cpath.lexically_relative.
  pose proof (max_prefix_not_prefix _ _ Hn) as Hk.
  destruct (max_prefix p base) as [[a b] k3] eqn:Hm. simpl in Hk.
  pose proof (max_prefix_snd_alt _ _ _ _ _ Hm) as Hb. subst base.
  apply canonical_app in Hc as [_ Hc].
  rewrite (count_up_canonical _ Hc).
  destruct b as [|c b]; [done|].
  assert ((Z.of_nat (length (c :: b)) <? 0)%Z = false) as -> by (apply Z.ltb_ge; lia).
  assert ((Z.of_nat (length (c :: b)) =? 0)%Z = false) as ->
    by (apply Z.eqb_neq; simpl; lia).
  cbn [andb]. rewrite Nat2Z.id. simpl. destruct a; eauto.
Qed.

Lemma is_descendant_or_same_prefix (base target : list string) :
  cpath.canonical base → cpath.canonical target →
  is_descendant_or_same base target = bool_decide (base `prefix_of` target).
Proof.
  intros Hb Ht. unfold is_descendant_or_same.
  destruct (decide (base `prefix_of` target)) as [Hpre|Hn].
  - rewrite (bool_decide_eq_true_2 _ Hpre), (lexically_relative_prefix _ _ Ht Hpre).
    case_bool_decide as Heq; [done|].
    case_bool_decide; [done|].
    destruct Hpre as [k ->]. rewrite drop_app_length.
    apply canonical_app in Ht as [_ Hk].
    apply forallb_forall. intros c Hc. apply list_elem_of_In in Hc.
    unfold cpath.canonical in Hk. rewrite Forall_forall in Hk.
    destruct (Hk c Hc) as (_ & _ & Hdd).
    rewrite bool_decide_eq_false_2; done.
  - rewrite (bool_decide_eq_false_2 _ Hn).
    destruct (lexically_relative_not_prefix _ _ Hb Hn) as [rest ->].
    rewrite bool_decide_eq_false_2 by done. reflexivity.
Qed.

Lemma canonical_removelast (p : list string) :
  cpath.canonical p → cpath.canonical (removelast p).
Proof.
  intros H. destruct (decide (p = [])) as [->|Hne]; [done|].
  rewrite (app_removelast_last "" Hne) in H. by apply canonical_app in H as [? _].
Qed.

Lemma prefix_removelast (b base : list string) :
  b `prefix_of` base → b ≠ base → b `prefix_of` removelast base.
Proof.
  intros [k ->] Hne. destruct (decide (k = [])) as [->|Hk].
  - by rewrite app_nil_r in Hne.
  - rewrite removelast_app by done. by apply prefix_app_r.
Qed.

Lemma removelast_prefix (base : list string) : removelast base `prefix_of` base.
Proof.
  destruct (decide (base = [])) as [->|Hne]; [done|].
  rewrite (app_removelast_last "" Hne) at 2. by apply prefix_app_r.
Qed.

Lemma length_removelast_lt (base : list string) :
  base ≠ [] → length (removelast base) < length base.
Proof.
  intros Hne. rewrite (app_removelast_last "" Hne) at 2.
  rewrite length_app. simpl. lia.
Qed.

(** *** The common base of a list of canonical paths *)
Section common_base.

Variable paths : list (list string).
Hypothesis paths_canonical : Forall cpath.canonical paths.

Lemma all_descendants_prefix (base : list string) :
  cpath.canonical base →
  forallb (is_descendant_or_same base) paths = true
  ↔ Forall (λ p, base `prefix_of` p) paths.
Proof.
  intros Hb. pose proof paths_canonical as Hp.
  rewrite <- Is_true_true, forallb_True.
  unfold cpath.canonical in Hp. rewrite !Forall_forall. rewrite Forall_forall in Hp.
  split; intros H p Hin; specialize (H p Hin).
  - rewrite (is_descendant_or_same_prefix _ _ Hb (Hp p Hin)) in H.
    by apply bool_decide_unpack in H.
  - rewrite (is_descendant_or_same_prefix _ _ Hb (Hp p Hin)).
    by apply bool_decide_pack.
Qed.

(** The loop of [determine_common_base] returns, and returns the deepest
    ancestor-or-self of its starting directory that is an
    ancestor-or-self of every path. *)
Lemma common_base_loop_total (fuel : nat) (base : list string) :
  cpath.canonical base → length base < fuel →
  ∃ b, common_base_loop fuel base paths = Some b
    ∧ b `prefix_of` base
    ∧ Forall (λ p, b `prefix_of` p) paths
    ∧ (∀ b', b' `prefix_of` base → Forall (λ p, b' `prefix_of` p) paths →
             b' `prefix_of` b).
Proof.
  revert base. induction fuel as [|fuel IH]; intros base Hb Hlen; [lia|].
  cbn [common_base_loop].
  destruct (forallb (is_descendant_or_same base) paths) eqn:Hall.
  - exists base. split; [done|]. split; [done|]. split; [|done].
    by apply all_descendants_prefix.
  - assert (base ≠ []) as Hne.
    { intros ->. assert (forallb (is_descendant_or_same []) paths = true); [|congruence].
      apply all_descendants_prefix; [done|].
      apply Forall_forall. intros. apply prefix_nil. }
    destruct (IH (removelast base)) as (b & Hr & Hpre & Hdesc & Hmax).
    { by apply canonical_removelast. }
    { pose proof (length_removelast_lt base Hne). lia. }
    exists b. split; [done|]. split; [|split; [done|]].
    + etrans; [exact Hpre | apply removelast_prefix].
    + intros b' Hb' Hd'. apply Hmax; [|done].
      apply prefix_removelast; [done|]. intros ->.
      apply (all_descendants_prefix base Hb) in Hd'. congruence.
Qed.

End common_base.

Lemma filename_canonical (c : list string) :
  cpath.canonical c → c ≠ [] → cpath.filename c ≠ "".
Proof.
  intros Hc Hne. unfold cpath.filename.
  rewrite (app_removelast_last "" Hne) in Hc.
  apply canonical_app in Hc as [_ Hc]. apply Forall_cons in Hc as [(H & _) _]. done.
Qed.

Lemma item_for_prefix (base c : list string) :
  cpath.canonical c → base `prefix_of` c →
  item_for base c
  = if bool_decide (c = base) then cpath.bare_name c
    else cpath.relative_to_string (drop (length base) c).
Proof.
  intros Hc Hpre. unfold item_for. rewrite (lexically_relative_prefix _ _ Hc Hpre).
  destruct (decide (c = base)) as [Heq|Heq].
  - rewrite !(bool_decide_eq_true_2 (c = base)) by done. cbn.
    unfold cpath.bare_name. destruct (decide (c = [])) as [->|Hroot].
    + reflexivity.
    + rewrite (bool_decide_eq_false_2 (c = [])) by done.
      rewrite (bool_decide_eq_false_2 (cpath.filename c = ""));
        [done | by apply filename_canonical].
  - rewrite !(bool_decide_eq_false_2 (c = base)) by done.
    destruct Hpre as [k ->]. rewrite drop_app_length.
    apply canonical_app in Hc as [_ Hk].
    destruct k as [|d k]; [by rewrite app_nil_r in Heq|].
    apply Forall_cons in Hk as [(_ & Hd & _) _].
    rewrite (bool_decide_eq_false_2 (d :: k = [])) by done.
    rewrite (bool_decide_eq_false_2 (d :: k = ["."])) by congruence.
    reflexivity.
Qed.

(** C3. For a non-empty list of existing sources: a single source with
    [include_contents] set that is a directory gives that canonical
    source as base directory and the one item [.]; otherwise the base
    directory is the common ancestor found by walking up from the parent
    of the first source (the deepest ancestor-or-self of that parent of
    which every source is a descendant-or-self), and the item of a source
    is its path relative to the base, or its bare name when the source is
    the base itself.  [/x/a] and [/x/b] give base [/x] and items [a],
    [b]; [/x/dir/] with [include_contents] gives base [/x/dir] and the
    item [.]. *)
Theorem C3_layout (w : World) (sources : list CompressionSource) :
  sources ≠ [] →
  Forall (λ src, fs_exists w (path src) = true) sources →
  Forall (λ src, cpath.canonical (fs_weakly_canonical w (path src))) sources →
  let canon := (λ src, fs_weakly_canonical w (path src)) <$> sources in
  let layout := plan_layout w sources (canonical_entry w <$> sources) in
  canonical_sources w sources = mret (canonical_entry w <$> sources)
  ∧ (∀ src, sources = [src] → include_contents src = true →
       fs_is_directory w (cpath.to_string (fs_weakly_canonical w (path src))) = true →
       layout = {| base_directory := fs_weakly_canonical w (path src);
                   items := ["."] |})
  ∧ ((∀ src, sources = [src] → include_contents src = true →
        fs_is_directory w (cpath.to_string (fs_weakly_canonical w (path src))) = false) →
     let base := base_directory layout in
     base `prefix_of` cpath.parent_path (default [] (head canon))
     ∧ Forall (λ c, base `prefix_of` c) canon
     ∧ (∀ b, b `prefix_of` cpath.parent_path (default [] (head canon)) →
             Forall (λ c, b `prefix_of` c) canon → b `prefix_of` base)
     ∧ items layout
       = (λ c, if bool_decide (c = base) then cpath.bare_name c
               else cpath.relative_to_string (drop (length base) c)) <$> canon)
  ∧ (let wx := sample.world trees.layout [] sample.all_tools in
     plan_layout wx [{| path := "/x/a"; include_contents := false |};
                     {| path := "/x/b"; include_contents := false |}]
       (canonical_entry wx <$> [{| path := "/x/a"; include_contents := false |};
                                {| path := "/x/b"; include_contents := false |}])
     = {| base_directory := ["x"]; items := ["a"; "b"] |}
     ∧ plan_layout wx [{| path := "/x/dir/"; include_contents := true |}]
         (canonical_entry wx <$> [{| path := "/x/dir/"; include_contents := true |}])
       = {| base_directory := ["x"; "dir"]; items := ["."] |}).
Proof.
  intros Hne Hex Hcanon canon layout.
  split; [by apply canonical_sources_exist|].
  split; [|split; [|by vm_compute]].
  - intros src -> Hinc Hdir. unfold layout, plan_layout. cbn.
    rewrite Hinc, Hdir. reflexivity.
  - intros Hnot base.
    assert (Hc : Forall cpath.canonical canon).
    { unfold canon. by apply Forall_fmap. }
    assert (fst <$> (canonical_entry w <$> sources) = canon) as Hfst.
    { unfold canon. rewrite <- list_fmap_compose. reflexivity. }
    assert (layout = {| base_directory := determine_common_base w canon;
                        items := item_for (determine_common_base w canon) <$> canon |})
      as Hlayout.
    { unfold layout, plan_layout. rewrite Hfst.
      destruct sources as [|src [|src2 rest]]; [done| |reflexivity].
      cbn. destruct (include_contents src) eqn:Hinc; [|reflexivity].
      rewrite (Hnot src eq_refl Hinc). reflexivity. }
    assert (base = determine_common_base w canon) as Hbase
      by (unfold base; by rewrite Hlayout).
    destruct canon as [|front rest] eqn:Hcn.
    { destruct sources; [done | discriminate]. }
    cbn [head default].
    destruct (common_base_loop_total (front :: rest) Hc
                (S (length (cpath.parent_path front))) (cpath.parent_path front))
      as (b & Hloop & Hpre & Hdesc & Hmax).
    { apply canonical_removelast. by apply Forall_cons in Hc as [? _]. }
    { lia. }
    assert (base = b) as Hb.
    { rewrite Hbase. unfold determine_common_base. by rewrite Hloop. }
    rewrite Hb. split; [done|]. split; [done|]. split; [done|].
    rewrite Hlayout. cbn [items]. rewrite <- Hbase, Hb.
    apply Forall_fmap_ext_1.
    rewrite Forall_forall in Hdesc, Hc. apply Forall_forall. intros c Hin.
    apply item_for_prefix; [by apply Hc | by apply Hdesc].
Qed.

Lemma C3_layout_witness :
  let wx := sample.world trees.layout [] sample.all_tools in
  let one := [{| path := "/x/dir/"; include_contents := true |}] in
  let two := [{| path := "/x/a"; include_contents := false |};
              {| path := "/x/dir"; include_contents := false |}] in
  plan_layout wx one (canonical_entry wx <$> one)
  = {| base_directory := ["x"; "dir"]; items := ["."] |}
  ∧ items (plan_layout wx two (canonical_entry wx <$> two))
    = (λ c, if bool_decide (c = base_directory (plan_layout wx two (canonical_entry wx <$> two)))
            then cpath.bare_name c
            else cpath.relative_to_string
                   (drop (length (base_directory
                            (plan_layout wx two (canonical_entry wx <$> two)))) c))
      <$> [["x"; "a"]; ["x"; "dir"]].
Proof.
  intros wx one two.
  split.
  - destruct (C3_layout wx one) as (_ & H & _).
    + discriminate.
    + repeat constructor.
    + repeat constructor; discriminate.
    + apply (H _ eq_refl); reflexivity.
  - destruct (C3_layout wx two) as (_ & _ & H & _).
    + discriminate.
    + repeat constructor.
    + repeat constructor; discriminate.
    + apply H. intros src Hsrc. discriminate.
Defined.

(** ** Sequential rename candidates *)

Import target_path target_conflict.

Lemma chars_app (s t : string) : chars (s +:+ t) = chars s ++ chars t.
Proof.
  unfold chars. induction s as [|c s IH]; [done|].
  change (c :: list_ascii_of_string (s +:+ t) = c :: (list_ascii_of_string s ++ list_ascii_of_string t)).
  by rewrite IH.
Qed.

Lemma str_chars (s : string) : str (chars s) = s.
Proof. apply string_of_list_ascii_of_string. Qed.

Lemma chars_str (l : list ascii) : chars (str l) = l.
Proof. apply list_ascii_of_string_of_list_ascii. Qed.

Lemma chars_nonempty (s : string) : s ≠ "" → chars s ≠ [].
Proof. by destruct s. Qed.

Lemma ends_with_longer_suffix (filename ext : list ascii) :
  ends_with_longer filename ext = true → ext `suffix_of` filename.
Proof.
  unfold ends_with_longer. intros H. apply andb_true_iff in H as [_ H].
  apply bool_decide_eq_true in H. rewrite <- H. apply suffix_drop.
Qed.

Lemma ends_with_longer_own (stem ext : list ascii) :
  stem ≠ [] → ends_with_longer (stem ++ ext) ext = true.
Proof.
  intros Hne. unfold ends_with_longer. rewrite length_app.
  replace (length stem + length ext - length ext) with (length stem) by lia.
  rewrite drop_app_length. rewrite bool_decide_eq_true_2 by done.
  destruct stem; [done|]. simpl. rewrite andb_true_r. apply Nat.ltb_lt. lia.
Qed.

(** No compound extension ends with another one. *)
Lemma multi_extensions_apart (e x : string) :
  e ∈ multi_extensions → x ∈ multi_extensions → e ≠ x →
  ¬ chars e `suffix_of` chars x ∧ ¬ chars x `suffix_of` chars e.
Proof.
  unfold multi_extensions. intros He Hx Hne.
  repeat (apply elem_of_cons in He as [->|He]);
    try (by apply elem_of_nil in He);
    repeat (apply elem_of_cons in Hx as [->|Hx]);
    try (by apply elem_of_nil in Hx);
    try done;
    split; apply (bool_decide_eq_false_1 _); vm_compute; reflexivity.
Qed.

Lemma ends_with_longer_other (stem : list ascii) (e x : string) :
  e ∈ multi_extensions → x ∈ multi_extensions → e ≠ x →
  ends_with_longer (stem ++ chars x) (chars e) = false.
Proof.
  intros He Hx Hne. destruct (ends_with_longer _ _) eqn:H; [|done].
  apply ends_with_longer_suffix in H.
  destruct (multi_extensions_apart e x He Hx Hne) as [H1 H2].
  assert (chars x `suffix_of` stem ++ chars x) as Hs by apply suffix_app_r, reflexivity.
  destruct (suffix_weak_total _ _ _ H Hs); done.
Qed.

Lemma split_name_compound (stem : list ascii) (ext : string) :
  stem ≠ [] → ext ∈ multi_extensions →
  split_name (stem ++ chars ext) = (stem, chars ext).
Proof.
  intros Hne Hin. unfold split_name.
  assert (List.find (ends_with_longer (stem ++ chars ext)) (chars <$> multi_extensions)
          = Some (chars ext)) as ->.
  { pose proof (ends_with_longer_own stem (chars ext) Hne) as Hown.
    pose proof (λ e He Hd, ends_with_longer_other stem e ext He Hin Hd) as Hoth.
    unfold multi_extensions in *. cbn [fmap list_fmap List.find].
    repeat (apply elem_of_cons in Hin as [->|Hin];
            [repeat first [rewrite Hown; reflexivity
                          | rewrite Hoth; [|set_solver|discriminate]] |]).
    by apply elem_of_nil in Hin. }
  rewrite length_app.
  replace (length stem + length (chars ext) - length (chars ext)) with (length stem) by lia.
  by rewrite take_app_length.
Qed.

(** A path whose filename is a non-empty stem followed by a compound
    extension keeps that extension whole. *)
Lemma generate_compound (base_path stem ext : string) (n : Z) :
  fspath.filename base_path = stem +:+ ext → stem ≠ "" → ext ∈ multi_extensions →
  generate_sequential_candidate base_path n
  = fspath.append (fspath.parent_path base_path)
      (fix_stem stem +:+ "_" +:+ pretty n +:+ ext).
Proof.
  intros Hname Hne Hin. unfold generate_sequential_candidate.
  assert (fspath.filename_chars (chars base_path) = chars stem ++ chars ext) as ->.
  { rewrite <- chars_app, <- Hname. unfold fspath.filename. by rewrite chars_str. }
  rewrite (split_name_compound _ _ (chars_nonempty _ Hne) Hin), !str_chars.
  reflexivity.
Qed.

(** ** The rename dialogue *)

(** C4 (as amended).  The rename loop starts with base the target and
    counter 1 and offers [generate_sequential_candidate base counter]:
    for [out.zip] first [out_1.zip], which an empty entry accepts, and
    [out_2.zip] next when [out_1.zip] exists too.  An entry that is the
    default moves the counter up by one and keeps the base, so a default
    rejected for colliding or for matching the current target is followed
    by the next number.  A custom entry that differs from the current
    target becomes the new base with the counter back at 1, whether it is
    adopted or collides; a custom entry equal to the current target is
    rejected and leaves base and counter as they are.  A filename that
    is longer than its compound extension keeps the extension whole when
    [_N] is inserted, and an empty, [.] or [..] stem becomes [target]. *)
Theorem C4_rename_flow (w : World) (st : state) (line : string) :
  let default := default_candidate st in
  let candidate := candidate_of st line in
  let st' := (rename_step w st line).2 in
  (∀ t, suffix_counter (initial t) = 1%Z ∧ rename_base (initial t) = t
        ∧ default_candidate (initial t) = generate_sequential_candidate t 1)
  ∧ generate_sequential_candidate "out.zip" 1 = "out_1.zip"
  ∧ generate_sequential_candidate "out.zip" 2 = "out_2.zip"
  ∧ candidate_of (initial "out.zip") "" = "out_1.zip"
  ∧ (fs_exists w "out_1.zip" = false →
     rename_step w (initial "out.zip") ""
     = ([], {| target := "out_1.zip"; rename_base := "out.zip"; suffix_counter := 2;
               now := Resolved |}))
  ∧ (fs_exists w "out_1.zip" = true →
     default_candidate (rename_step w (initial "out.zip") "").2 = "out_2.zip"
     ∧ now (rename_step w (initial "out.zip") "").2 = AwaitingRenameInput)
  ∧ (candidate = default →
     suffix_counter st' = (suffix_counter st + 1)%Z ∧ rename_base st' = rename_base st)
  ∧ (candidate = default → candidate = target st ∨ fs_exists w candidate = true →
     now st' = AwaitingRenameInput ∧ target st' = target st
     ∧ default_candidate st'
       = generate_sequential_candidate (rename_base st) (suffix_counter st + 1))
  ∧ (candidate ≠ default → candidate ≠ target st →
     rename_base st' = candidate ∧ suffix_counter st' = 1%Z)
  ∧ (candidate ≠ default → candidate = target st →
     rename_base st' = rename_base st ∧ suffix_counter st' = suffix_counter st
     ∧ target st' = target st ∧ now st' = AwaitingRenameInput)
  ∧ (candidate ≠ target st → fs_exists w candidate = false →
     target st' = candidate ∧ now st' = Resolved)
  ∧ (∀ base_path stem ext n,
       fspath.filename base_path = stem +:+ ext → stem ≠ "" →
       ext ∈ multi_extensions →
       generate_sequential_candidate base_path n
       = fspath.append (fspath.parent_path base_path)
           (fix_stem stem +:+ "_" +:+ pretty n +:+ ext))
  ∧ fix_stem "" = "target" ∧ fix_stem "." = "target" ∧ fix_stem ".." = "target"
  ∧ generate_sequential_candidate "" 1 = "target_1"
  ∧ generate_sequential_candidate "dir/." 1 = "dir/target_1"
  ∧ generate_sequential_candidate "..tar.gz" 1 = "target_1.tar.gz".
Proof.
  intros default candidate st'.
  assert (Hstep : rename_step w st line
    = if bool_decide (candidate = target st) then
        let st1 := {| target := target st; rename_base := rename_base st;
                      suffix_counter := if bool_decide (candidate = default)
                                        then (suffix_counter st + 1)%Z
                                        else suffix_counter st;
                      now := AwaitingRenameInput |} in
        ([Cerr "target_exists_same"; ask_rename st1], st1)
      else if fs_exists w candidate then
        let st1 := if bool_decide (candidate = default)
                   then {| target := target st; rename_base := rename_base st;
                           suffix_counter := (suffix_counter st + 1)%Z;
                           now := AwaitingRenameInput |}
                   else {| target := target st; rename_base := candidate;
                           suffix_counter := 1; now := AwaitingRenameInput |} in
        ([Cerr "target_exists_rename_conflict"; ask_rename st1], st1)
      else
        checking w (if bool_decide (candidate = default)
                    then {| target := candidate; rename_base := rename_base st;
                            suffix_counter := (suffix_counter st + 1)%Z;
                            now := AwaitingRenameInput |}
                    else {| target := candidate; rename_base := candidate;
                            suffix_counter := 1; now := AwaitingRenameInput |}))
    by reflexivity.
  assert (Hchk : ∀ s, rename_base (checking w s).2 = rename_base s
                      ∧ suffix_counter (checking w s).2 = suffix_counter s
                      ∧ target (checking w s).2 = target s).
  { intros s. unfold checking. by destruct (fs_exists w (target s)). }
  split; [done|]. split; [reflexivity|]. split; [reflexivity|]. split; [reflexivity|].
  assert (Hfirst : rename_step w (initial "out.zip") ""
    = if fs_exists w "out_1.zip" then
        ([Cerr "target_exists_rename_conflict";
          Ask "target_exists_rename_prompt" "out_2.zip"],
         {| target := "out.zip"; rename_base := "out.zip"; suffix_counter := 2;
            now := AwaitingRenameInput |})
      else
        checking w {| target := "out_1.zip"; rename_base := "out.zip";
                      suffix_counter := 2; now := AwaitingRenameInput |})
    by reflexivity.
  split.
  { intros Hfree. rewrite Hfirst, Hfree. unfold checking. cbn [target]. by rewrite Hfree. }
  split.
  { intros Htaken. rewrite Hfirst, Htaken. split; reflexivity. }
  clear Hfirst.
  unfold st'. rewrite Hstep. clear Hstep.
  split.
  { intros Hd. rewrite (bool_decide_eq_true_2 _ Hd).
    destruct (bool_decide (candidate = target st)); [done|].
    destruct (fs_exists w candidate); [done|].
    destruct (Hchk {| target := candidate; rename_base := rename_base st;
                      suffix_counter := (suffix_counter st + 1)%Z;
                      now := AwaitingRenameInput |}) as (-> & -> & _). done. }
  split.
  { intros Hd Hrej. rewrite (bool_decide_eq_true_2 _ Hd).
    destruct (decide (candidate = target st)) as [Ht|Ht].
    - rewrite (bool_decide_eq_true_2 _ Ht). done.
    - rewrite (bool_decide_eq_false_2 _ Ht). destruct Hrej as [|Hex]; [done|].
      rewrite Hex. done. }
  split.
  { intros Hd Ht. rewrite (bool_decide_eq_false_2 _ Hd), (bool_decide_eq_false_2 _ Ht).
    destruct (fs_exists w candidate); [done|].
    destruct (Hchk {| target := candidate; rename_base := candidate;
                      suffix_counter := 1; now := AwaitingRenameInput |}) as (-> & -> & _).
    done. }
  split.
  { intros Hd Ht. rewrite (bool_decide_eq_false_2 _ Hd), (bool_decide_eq_true_2 _ Ht). done. }
  split.
  { intros Ht Hfree. rewrite (bool_decide_eq_false_2 _ Ht), Hfree.
    unfold checking. destruct (bool_decide (candidate = default)); cbn; by rewrite Hfree. }
  split; [apply generate_compound|].
  repeat split; reflexivity.
Qed.

Lemma C4_rename_flow_witness :
  let ww := sample.world trees.renames ["w"] sample.all_tools in
  let wv := sample.world trees.renames ["v"] sample.all_tools in
  let again := {| target := "out.zip"; rename_base := "out.zip"; suffix_counter := 2;
                  now := AwaitingRenameInput |} in
  rename_step wv (initial "out.zip") ""
  = ([], {| target := "out_1.zip"; rename_base := "out.zip"; suffix_counter := 2;
            now := Resolved |})
  ∧ default_candidate (rename_step ww (initial "out.zip") "").2 = "out_2.zip"
  ∧ suffix_counter (rename_step ww again "").2 = 3%Z
  ∧ rename_base (rename_step ww again "other.zip").2 = "other.zip"
  ∧ suffix_counter (rename_step ww again "out.zip").2 = 2%Z
  ∧ target (rename_step ww again "other.zip").2 = "other.zip"
  ∧ generate_sequential_candidate "dir/out.tar.zst" 7
    = fspath.append (fspath.parent_path "dir/out.tar.zst")
        (fix_stem "out" +:+ "_" +:+ pretty 7%Z +:+ ".tar.zst").
Proof.
  intros ww wv again.
  destruct (C4_rename_flow wv (initial "out.zip") "") as (_ & _ & _ & _ & H1 & _).
  destruct (C4_rename_flow ww (initial "out.zip") "") as (_ & _ & _ & _ & _ & H2 & _).
  destruct (C4_rename_flow ww again "") as (_ & _ & _ & _ & _ & _ & H3 & _).
  destruct (C4_rename_flow ww again "other.zip")
    as (_ & _ & _ & _ & _ & _ & _ & _ & H4 & _ & H6 & H7 & _).
  destruct (C4_rename_flow ww again "out.zip")
    as (_ & _ & _ & _ & _ & _ & _ & _ & _ & H5 & _).
  split; [apply H1; reflexivity|].
  split; [apply H2; reflexivity|].
  split; [apply H3; reflexivity|].
  split; [apply H4; discriminate|].
  split; [apply H5; [discriminate | reflexivity]|].
  split; [apply H6; [discriminate | reflexivity]|].
  apply H7; [reflexivity | discriminate | unfold multi_extensions; repeat constructor].
Defined.

(** C4 as claimed fails in two places.  After [out_1.zip] was rejected
    the counter is 2; a custom entry equal to the current target
    [out.zip] does not put the counter back to 1: the next default is
    [out_2.zip] again.  And the name [.tar.gz], which is nothing but a
    compound extension, is split at its last dot. *)
Lemma C4_custom_entry_counterexample :
  let ww := sample.world trees.renames ["w"] sample.all_tools in
  let again := (rename_step ww (initial "out.zip") "").2 in
  suffix_counter again = 2%Z
  ∧ candidate_of again "out.zip" = "out.zip"
  ∧ candidate_of again "out.zip" ≠ default_candidate again
  ∧ suffix_counter (rename_step ww again "out.zip").2 = 2%Z
  ∧ default_candidate (rename_step ww again "out.zip").2 = "out_2.zip"
  ∧ default_candidate (rename_step ww again "out.zip").2
    ≠ generate_sequential_candidate "out.zip" 1
  ∧ resolve_existing_target ww "out.zip" ["r"; ""; "out.zip"]
    = ([Ask "target_exists_header" "out.zip";
        Ask "target_exists_rename_prompt" "out_1.zip";
        Cerr "target_exists_rename_conflict";
        Ask "target_exists_rename_prompt" "out_2.zip";
        Cerr "target_exists_same";
        Ask "target_exists_rename_prompt" "out_2.zip"],
       inl InputStreamClosed)
  ∧ generate_sequential_candidate ".tar.gz" 1 = ".tar_1.gz".
Proof. vm_compute. repeat split; congruence. Qed.

(* ===================================================================== *)
(** * Further properties of the code *)
(* ===================================================================== *)

(** ** Trimming *)

Lemma take_drop_while (p : ascii → bool) (l : list ascii) :
  take_while p l ++ drop_while p l = l.
Proof. induction l as [|c l IH]; [done|]. cbn. destruct (p c); cbn; congruence. Qed.

Lemma take_while_all (p : ascii → bool) (l : list ascii) :
  Forall (λ c, p c = true) (take_while p l).
Proof.
  induction l as [|c l IH]; [constructor|]. cbn.
  destruct (p c) eqn:Hc; by constructor.
Qed.

Lemma drop_while_head (p : ascii → bool) (l : list ascii) (c : ascii) :
  head (drop_while p l) = Some c → p c = false.
Proof.
  induction l as [|d l IH]; [done|]. cbn.
  destruct (p d) eqn:Hd; [done|]. cbn. congruence.
Qed.

Lemma drop_while_fixed (p : ascii → bool) (l : list ascii) :
  (∀ c, head l = Some c → p c = false) → drop_while p l = l.
Proof. destruct l as [|c l]; [done|]. intros H. cbn. by rewrite (H c). Qed.

(** X1. [util::trim_copy] cuts a run of blanks off each end and nothing
    else: the value is a blank prefix, the result and a blank suffix; the
    result neither starts nor ends with a blank; trimming twice is
    trimming once. *)
Theorem trim_copy_spec (value : string) :
  let t := chars (trim_copy value) in
  (∃ pre post, chars value = pre ++ t ++ post
     ∧ Forall (λ c, is_blank c = true) pre ∧ Forall (λ c, is_blank c = true) post)
  ∧ (∀ c, head t = Some c → is_blank c = false)
  ∧ (∀ c, last t = Some c → is_blank c = false)
  ∧ trim_copy (trim_copy value) = trim_copy value.
Proof.
  cbv zeta. unfold trim_copy. rewrite !chars_str.
  set (l := chars value).
  set (a := drop_while is_blank l).
  set (t := reverse (drop_while is_blank (reverse a))).
  assert (Hlast : ∀ c, last t = Some c → is_blank c = false).
  { intros c. unfold t. rewrite last_reverse. apply drop_while_head. }
  assert (Ha : a = t ++ reverse (take_while is_blank (reverse a))).
  { unfold t. rewrite <- reverse_app, take_drop_while. by rewrite reverse_involutive. }
  assert (Hhead : ∀ c, head t = Some c → is_blank c = false).
  { intros c Hc. apply (drop_while_head is_blank l). fold a. rewrite Ha.
    destruct t; [done|]. exact Hc. }
  split; [|split; [done|split; [done|]]].
  - exists (take_while is_blank l), (reverse (take_while is_blank (reverse a))).
    split; [|split].
    + rewrite <- Ha. unfold a. by rewrite take_drop_while.
    + apply take_while_all.
    + apply Forall_reverse, take_while_all.
  - f_equal.
    rewrite (drop_while_fixed is_blank t Hhead).
    rewrite (drop_while_fixed is_blank (reverse t)).
    + by rewrite reverse_involutive.
    + intros c. rewrite head_reverse. apply Hlast.
Qed.

(** ** The extension classifier *)

Lemma take_while_ext (p q : ascii → bool) (l : list ascii) :
  (∀ c, p c = q c) → take_while p l = take_while q l.
Proof. intros H. induction l as [|c l IH]; [done|]. cbn. by rewrite H, IH. Qed.

Lemma take_while_fmap (p : ascii → bool) (f : ascii → ascii) (l : list ascii) :
  take_while p (f <$> l) = f <$> take_while (λ c, p (f c)) l.
Proof.
  induction l as [|c l IH]; [done|]. cbn. destruct (p (f c)); [|done].
  cbn. by rewrite IH.
Qed.

Lemma tolower_sep (c : ascii) : not_char fspath.sep (tolower c) = not_char fspath.sep c.
Proof. by destruct c as [[] [] [] [] [] [] [] []]. Qed.

Lemma tolower_dot (c : ascii) : not_char fspath.dot (tolower c) = not_char fspath.dot c.
Proof. by destruct c as [[] [] [] [] [] [] [] []]. Qed.

Lemma tolower_is_dot (c : ascii) :
  bool_decide (tolower c = fspath.dot) = bool_decide (c = fspath.dot).
Proof. by destruct c as [[] [] [] [] [] [] [] []]. Qed.

Lemma tolower_idemp (c : ascii) : tolower (tolower c) = tolower c.
Proof. by destruct c as [[] [] [] [] [] [] [] []]. Qed.

Lemma lower_idemp (s : string) : lower (lower s) = lower s.
Proof.
  unfold lower. rewrite chars_str, <- list_fmap_compose. f_equal.
  apply list_fmap_ext. intros _ c _. apply tolower_idemp.
Qed.

Lemma filename_chars_lower (l : list ascii) :
  fspath.filename_chars (tolower <$> l) = tolower <$> fspath.filename_chars l.
Proof.
  unfold fspath.filename_chars.
  rewrite <- fmap_reverse, take_while_fmap, fmap_reverse. do 2 f_equal.
  apply take_while_ext, tolower_sep.
Qed.

Lemma extension_of_filename_eq (f : list ascii) :
  fspath.extension_of_filename f
  = if (length f <=? 2) && bool_decide (head f = Some fspath.dot) then []
    else
      let tail := take_while (not_char fspath.dot) (reverse f) in
      if length f <=? length tail then []
      else if length f =? S (length tail) then []
      else drop (length f - S (length tail)) f.
Proof.
  destruct f as [|c f]; [done|]. unfold fspath.extension_of_filename.
  cbn [head].
  assert (bool_decide (c = fspath.dot) = bool_decide (Some c = Some fspath.dot)) as ->;
    [|done].
  apply bool_decide_ext. split; congruence.
Qed.

Lemma extension_of_filename_lower (f : list ascii) :
  fspath.extension_of_filename (tolower <$> f)
  = tolower <$> fspath.extension_of_filename f.
Proof.
  rewrite !extension_of_filename_eq. cbv zeta.
  rewrite <- fmap_reverse, take_while_fmap, !length_fmap.
  rewrite (take_while_ext _ _ _ tolower_dot).
  assert (bool_decide (head (tolower <$> f) = Some fspath.dot)
          = bool_decide (head f = Some fspath.dot)) as ->.
  { destruct f as [|c f]; [done|]. cbn [fmap list_fmap head].
    pose proof (tolower_is_dot c) as H.
    destruct (decide (c = fspath.dot)) as [Hc|Hc].
    - rewrite (bool_decide_eq_true_2 _ Hc) in H. apply bool_decide_eq_true in H.
      rewrite H, Hc. done.
    - rewrite (bool_decide_eq_false_2 _ Hc) in H. apply bool_decide_eq_false in H.
      rewrite !bool_decide_eq_false_2; [done | congruence | congruence]. }
  repeat match goal with |- context [if ?b then _ else _] => destruct b end;
    try done.
  by rewrite fmap_drop.
Qed.

Lemma str_eq_empty (l : list ascii) : str l = "" ↔ l = [].
Proof. split; [|by intros ->]. by destruct l. Qed.

Lemma extension_lower (p : string) :
  fspath.extension (lower p) = lower (fspath.extension p).
Proof.
  unfold fspath.extension, lower. rewrite !chars_str.
  by rewrite filename_chars_lower, extension_of_filename_lower.
Qed.

Lemma stem_lower (p : string) : fspath.stem (lower p) = lower (fspath.stem p).
Proof.
  unfold fspath.stem, lower. rewrite !chars_str.
  rewrite filename_chars_lower, extension_of_filename_lower, !length_fmap.
  by rewrite fmap_take.
Qed.

Lemma lower_eq_empty (s : string) : lower s = "" ↔ s = "".
Proof.
  unfold lower. rewrite str_eq_empty. split.
  - intros H. apply fmap_nil_inv in H. rewrite <- (str_chars s), H. done.
  - by intros ->.
Qed.

Lemma has_extension_lower (p : string) :
  fspath.has_extension (lower p) = fspath.has_extension p.
Proof.
  unfold fspath.has_extension. rewrite extension_lower. f_equal.
  apply bool_decide_ext, lower_eq_empty.
Qed.

Lemma has_stem_lower (p : string) : fspath.has_stem (lower p) = fspath.has_stem p.
Proof.
  unfold fspath.has_stem. rewrite stem_lower. f_equal.
  apply bool_decide_ext, lower_eq_empty.
Qed.

Lemma take_while_no (p : ascii → bool) (l : list ascii) :
  Forall (λ c, p c = true) l → take_while p l = l.
Proof. induction 1 as [|c l Hc _ IH]; [done|]. cbn. by rewrite Hc, IH. Qed.

Lemma filename_chars_idemp (l : list ascii) :
  fspath.filename_chars (fspath.filename_chars l) = fspath.filename_chars l.
Proof.
  unfold fspath.filename_chars. rewrite reverse_involutive.
  by rewrite (take_while_no _ _ (take_while_all _ _)).
Qed.

(** The classifier reads its argument through [path::filename()] only. *)
Lemma recognize_by_extension_filename_chars (p q : string) :
  fspath.filename_chars (chars p) = fspath.filename_chars (chars q) →
  recognize_by_extension p = recognize_by_extension q.
Proof.
  intros H. unfold recognize_by_extension.
  assert (fspath.extension p = fspath.extension q) as He
    by (unfold fspath.extension; by rewrite H).
  assert (fspath.stem p = fspath.stem q) as Hs
    by (unfold fspath.stem; by rewrite H).
  unfold fspath.has_extension at 1 3, fspath.has_stem. by rewrite He, Hs.
Qed.

Lemma recognize_by_extension_lower (path_str : string) :
  recognize_by_extension (lower path_str) = recognize_by_extension path_str.
Proof.
  unfold recognize_by_extension.
  rewrite has_extension_lower, extension_lower, lower_idemp, has_stem_lower,
    stem_lower, has_extension_lower, extension_lower, lower_idemp.
  reflexivity.
Qed.

(** X2. [recognize_by_extension] looks at the file name only, and not at
    its case: the directories of the path play no part, and a path and
    its lower-case form are classified alike. *)
Theorem recognize_by_extension_name_only (path_str : string) :
  recognize_by_extension (fspath.filename path_str) = recognize_by_extension path_str
  ∧ recognize_by_extension (lower path_str) = recognize_by_extension path_str.
Proof.
  split; [|apply recognize_by_extension_lower].
  apply recognize_by_extension_filename_chars.
  unfold fspath.filename. by rewrite chars_str, filename_chars_idemp.
Qed.

(** *** Format names and extensions *)

Lemma take_while_app_all (p : ascii → bool) (a b : list ascii) :
  Forall (λ c, p c = true) a → take_while p (a ++ b) = a ++ take_while p b.
Proof. induction 1 as [|c a Hc _ IH]; [done|]. cbn. by rewrite Hc, IH. Qed.

Lemma take_while_app_stop (p : ascii → bool) (a b : list ascii) (x : ascii) :
  Forall (λ c, p c = true) a → p x = false → take_while p (a ++ x :: b) = a.
Proof.
  intros Ha Hx. rewrite (take_while_app_all _ _ _ Ha). cbn. rewrite Hx.
  by rewrite app_nil_r.
Qed.

Lemma filename_chars_app (l m : list ascii) :
  Forall (λ c, not_char fspath.sep c = true) m →
  fspath.filename_chars (l ++ m) = fspath.filename_chars l ++ m.
Proof.
  intros Hm. unfold fspath.filename_chars.
  rewrite reverse_app, take_while_app_all by by apply Forall_reverse.
  by rewrite reverse_app, reverse_involutive.
Qed.

Lemma filename_chars_no_sep (l : list ascii) :
  Forall (λ c, not_char fspath.sep c = true) (fspath.filename_chars l).
Proof. apply Forall_reverse, take_while_all. Qed.

Lemma filename_chars_fixed (l : list ascii) :
  Forall (λ c, not_char fspath.sep c = true) l → fspath.filename_chars l = l.
Proof.
  intros H. unfold fspath.filename_chars.
  rewrite take_while_no by by apply Forall_reverse. apply reverse_involutive.
Qed.

(** The extension of a name that ends in a dot followed by a non-empty
    run of characters other than the dot, after something. *)
Lemma extension_of_filename_app (fb e : list ascii) :
  fb ≠ [] → e ≠ [] → Forall (λ c, not_char fspath.dot c = true) e →
  fspath.extension_of_filename (fb ++ fspath.dot :: e) = fspath.dot :: e.
Proof.
  intros Hfb He Hdot. rewrite extension_of_filename_eq. cbv zeta.
  rewrite reverse_app, reverse_cons, <- app_assoc. cbn [app].
  rewrite take_while_app_stop; [|by apply Forall_reverse|done].
  rewrite length_reverse, length_app. cbn [length].
  assert (0 < length fb) by (destruct fb; [done | simpl; lia]).
  assert (0 < length e) by (destruct e; [done | simpl; lia]).
  rewrite (proj2 (Nat.leb_gt _ _)) by lia. cbn [andb].
  rewrite (proj2 (Nat.leb_gt _ _)) by lia.
  rewrite (proj2 (Nat.eqb_neq _ _)) by lia.
  replace (length fb + S (length e) - S (length e)) with (length fb) by lia.
  by rewrite drop_app_length.
Qed.

(** What [path::extension()] and [path::stem()] give on a path that ends
    in [.e], for a non-empty [e] free of dots and separators, behind a
    non-empty file name. *)
Lemma extension_stem_app (l e : list ascii) :
  fspath.filename_chars l ≠ [] → e ≠ [] →
  Forall (λ c, not_char fspath.sep c = true) e →
  Forall (λ c, not_char fspath.dot c = true) e →
  let p := str (l ++ fspath.dot :: e) in
  fspath.extension p = str (fspath.dot :: e)
  ∧ fspath.stem p = str (fspath.filename_chars l).
Proof.
  intros Hl He Hsep Hdot p. unfold fspath.extension, fspath.stem, p.
  rewrite chars_str, filename_chars_app by (constructor; done).
  rewrite extension_of_filename_app by done.
  split; [done|]. f_equal. rewrite length_app.
  replace (length (fspath.filename_chars l) + length (fspath.dot :: e)
           - length (fspath.dot :: e)) with (length (fspath.filename_chars l)) by lia.
  by rewrite take_app_length.
Qed.

Lemma lower_app (s t : string) : lower (s +:+ t) = lower s +:+ lower t.
Proof.
  unfold lower. rewrite chars_app, fmap_app.
  rewrite <- (str_chars (str _ +:+ str _)), chars_app, !chars_str. done.
Qed.

Lemma str_app (l m : list ascii) : str (l ++ m) = str l +:+ str m.
Proof. by rewrite <- (str_chars (str l +:+ str m)), chars_app, !chars_str. Qed.

(** The classifier on a path that ends in [.tar.e]. *)
Lemma recognize_by_extension_double (l e : list ascii) :
  fspath.filename_chars l ≠ [] → e ≠ [] →
  Forall (λ c, not_char fspath.sep c = true) e →
  Forall (λ c, not_char fspath.dot c = true) e →
  recognize_by_extension (str ((l ++ chars ".tar") ++ fspath.dot :: e))
  = recognize_by_extension (str ((["x"%char] ++ chars ".tar") ++ fspath.dot :: e)).
Proof.
  intros Hl He Hsep Hdot.
  assert (Hfacts : ∀ m, fspath.filename_chars m ≠ [] →
    let p := str ((m ++ chars ".tar") ++ fspath.dot :: e) in
    fspath.extension p = str (fspath.dot :: e)
    ∧ fspath.has_stem p = true
    ∧ fspath.extension (fspath.stem p) = ".tar").
  { intros m Hm p.
    assert (Hsep' : Forall (λ c, not_char fspath.sep c = true) (chars ".tar"))
      by (repeat constructor).
    destruct (extension_stem_app (m ++ chars ".tar") e) as [Hx Hs]; [|done..|].
    { rewrite filename_chars_app by done. by destruct (fspath.filename_chars m). }
    fold p in Hx, Hs. split; [done|].
    rewrite filename_chars_app in Hs by done.
    unfold fspath.has_stem. rewrite Hs. split.
    - rewrite bool_decide_eq_false_2; [done|]. rewrite str_eq_empty.
      by destruct (fspath.filename_chars m).
    - destruct (extension_stem_app (fspath.filename_chars m) (chars "tar")) as [Hx' _];
        [|done|repeat constructor..|exact Hx'].
      by rewrite filename_chars_idemp. }
  destruct (Hfacts l Hl) as (Hx & Hs & Hsx).
  destruct (Hfacts ["x"%char]) as (Hx' & Hs' & Hsx'); [done|].
  unfold recognize_by_extension, fspath.has_extension.
  rewrite Hx, Hx', Hs, Hs', Hsx, Hsx'. reflexivity.
Qed.

Lemma path_as_list (b : string) (m : list ascii) : b +:+ str m = str (chars b ++ m).
Proof. by rewrite str_app, str_chars. Qed.

(** X3. The names accepted by [--format] are the extensions the
    classifier knows: for every format name [f] that [parse_format_string]
    accepts, in any case, a path made of a non-empty file name, a dot and
    [f] is classified by [recognize_by_extension] as the type that
    [parse_format_string] gives for [f]. *)
Theorem format_names_are_extensions (base f : string) :
  parse_format_string f ≠ UNKNOWN →
  fspath.filename base ≠ "" →
  recognize_by_extension (base +:+ "." +:+ f) = parse_format_string f.
Proof.
  intros Hf Hb.
  rewrite <- recognize_by_extension_lower, !lower_app.
  change (lower ".") with ".".
  assert (Hl : fspath.filename_chars (chars (lower base)) ≠ []).
  { unfold lower. rewrite chars_str, filename_chars_lower. intros H.
    apply fmap_nil_inv in H. apply Hb. unfold fspath.filename. by rewrite H. }
  unfold parse_format_string in *.
  generalize dependent (lower f). intros e Hf.
  generalize dependent (lower base). intros b Hl.
  assert (Hsimple : ∀ (x : string) (tag : FileType),
    (x, tag) ∈ [("zip", ARCHIVE_ZIP); ("7z", ARCHIVE_7Z); ("tar", ARCHIVE_TAR);
                ("tgz", ARCHIVE_TAR_GZ); ("tbz2", ARCHIVE_TAR_BZ2);
                ("txz", ARCHIVE_TAR_XZ); ("rar", ARCHIVE_RAR); ("lz4", ARCHIVE_LZ4);
                ("zstd", ARCHIVE_ZSTD); ("zst", ARCHIVE_ZSTD); ("xar", ARCHIVE_XAR)] →
    recognize_by_extension (b +:+ "." +:+ x) = tag).
  { intros x tag Hx.
    repeat (apply elem_of_cons in Hx as [Hx|Hx];
      [injection Hx as -> ->;
       match goal with
       | |- recognize_by_extension (b +:+ "." +:+ ?x) = _ =>
           change (b +:+ "." +:+ x) with (b +:+ str (fspath.dot :: chars x))
       end;
       rewrite path_as_list;
       match goal with
       | |- recognize_by_extension (str (_ ++ _ :: ?e)) = _ =>
           destruct (extension_stem_app (chars b) e Hl) as [Hext _];
             [done | repeat constructor | repeat constructor |]
       end;
       unfold recognize_by_extension, fspath.has_extension; rewrite Hext;
       reflexivity|]).
    by apply elem_of_nil in Hx. }
  assert (Hdouble : ∀ (x : string) (tag : FileType),
    (x, tag) ∈ [("gz", ARCHIVE_TAR_GZ); ("bz2", ARCHIVE_TAR_BZ2); ("xz", ARCHIVE_TAR_XZ)] →
    recognize_by_extension (b +:+ "." +:+ "tar." +:+ x) = tag).
  { intros x tag Hx.
    repeat (apply elem_of_cons in Hx as [Hx|Hx];
      [injection Hx as -> ->;
       match goal with
       | |- recognize_by_extension (b +:+ "." +:+ "tar." +:+ ?x) = _ =>
           change (b +:+ "." +:+ "tar." +:+ x)
             with (b +:+ str (chars ".tar" ++ fspath.dot :: chars x))
       end;
       rewrite path_as_list, app_assoc;
       rewrite recognize_by_extension_double;
         [reflexivity | done | done | repeat constructor | repeat constructor]|]).
    by apply elem_of_nil in Hx. }
  assert (Hin : ∀ (x : string) (tag : FileType) (l : list (string * FileType)),
            bool_decide ((x, tag) ∈ l) = true → (x, tag) ∈ l)
    by (intros x tag l; apply bool_decide_eq_true_1).
  repeat match goal with
  | |- context [bool_decide (e = ?s)] =>
      destruct (decide (e = s)) as [->|?];
      [match goal with
       | |- _ = ?r => let v := eval vm_compute in r in change r with v
       end;
       lazymatch s with
       | "tar.gz" => apply (Hdouble "gz")
       | "tar.bz2" => apply (Hdouble "bz2")
       | "tar.xz" => apply (Hdouble "xz")
       | _ => apply Hsimple
       end;
       apply Hin; vm_compute; reflexivity
      |rewrite (bool_decide_eq_false_2 (e = s)) in Hf |- * by done;
       cbn [orb] in Hf |- *]
  end.
  done.
Qed.

Lemma format_names_are_extensions_witness :
  recognize_by_extension ("/data/Backup" +:+ "." +:+ "TAR.GZ") = ARCHIVE_TAR_GZ.
Proof. apply (format_names_are_extensions "/data/Backup" "TAR.GZ"); by vm_compute. Defined.

(** ** Extraction of split ZIP archives *)

Lemma split_extension_has_extension (p : string) :
  is_split_zip_extension (lower (fspath.extension p)) = true →
  fspath.has_extension p = true.
Proof.
  intros H. destruct (fspath.has_extension p) eqn:He; [done|].
  apply no_extension_not_split in He as [He _]. congruence.
Qed.

Ltac find_in_list :=
  solve [ apply list_elem_of_here
        | apply list_elem_of_further; find_in_list
        | apply elem_of_app; left; find_in_list
        | apply elem_of_app; right; find_in_list ].

Ltac not_in_list :=
  let H := fresh in
  intros H;
  repeat (apply elem_of_cons in H as [H|H]; [discriminate H|]);
  by apply elem_of_nil in H.

(** X4. Extraction of a split ZIP part ([.z01] ... [.z99]) goes through
    [7z], never [unzip], and through the main [.zip] file of the same
    stem: without [7z] it fails with [TOOL_NOT_FOUND]; with [7z] but
    without the main file it fails with [INVALID_SOURCE]; otherwise the
    command is [7z x [-p<password>] <main> -o<target> -y], the part given
    on the command line not being among the arguments handed over. *)
Theorem split_zip_part_extraction (w : World) (source target_dir password : string)
    (options : args.Options) :
  is_split_zip_extension (lower (fspath.extension source)) = true →
  let main_zip := fspath.replace_extension source ".zip" in
  let run := decompress_command w source target_dir ARCHIVE_ZIP password options in
  (Probe "unzip" ∉ trace run)
  ∧ (tool_on_path w "7z" = false → outcome run = inl (HitpagException TOOL_NOT_FOUND))
  ∧ (tool_on_path w "7z" = true → fs_exists w main_zip = false →
       outcome run = inl (HitpagException INVALID_SOURCE))
  ∧ (tool_on_path w "7z" = true → fs_exists w main_zip = true →
       outcome run
       = inr ("7z", ["x"]
                    ++ (if bool_decide (password = "") then [] else ["-p" +:+ password])
                    ++ [fs_absolute w main_zip; "-o" +:+ fs_absolute w target_dir; "-y"])).
Proof.
  intros Hz main_zip run.
  pose proof (split_extension_has_extension _ Hz) as He.
  assert (Hpart : is_split_zip_part source = true).
  { unfold is_split_zip_part. by rewrite He. }
  assert (Hsplit : is_split_zip w source = true).
  { unfold is_split_zip. by rewrite He, Hpart. }
  unfold run, decompress_command. rewrite Hsplit, Hpart, require_tool_eq.
  unfold find_split_zip_main. fold main_zip.
  destruct (tool_on_path w "7z") eqn:H7.
  - destruct (fs_exists w main_zip) eqn:Hm.
    + assert (main_zip ≠ "") as Hne.
      { unfold main_zip, fspath.replace_extension. intros H.
        apply (f_equal chars) in H. rewrite chars_app in H.
        by destruct (chars (str _)). }
      rewrite (bool_decide_eq_false_2 _ Hne).
      split; [|split; [done|split; [done|]]].
      * destruct (args.verbose options), (bool_decide (password = "")); cbn;
          not_in_list.
      * intros _ _. unfold build_7z_extract_args.
        by destruct (args.verbose options), (bool_decide (password = "")).
    + rewrite bool_decide_eq_true_2 by done.
      split; [cbn; not_in_list|]. split; [done|]. split; [done|]. done.
  - split; [cbn; not_in_list|]. split; [done|]. split; done.
Qed.

Lemma split_zip_part_extraction_witness :
  let w := sample.world trees.split_zip ["w"] sample.all_tools in
  outcome (decompress_command w "a.z01" "out" ARCHIVE_ZIP "pw" args.default)
  = inr ("7z", ["x"; "-ppw"; "/w/a.zip"; "-o/w/out"; "-y"]).
Proof.
  intros w.
  destruct (split_zip_part_extraction w "a.z01" "out" "pw" args.default) as (_ & _ & _ & H);
    [reflexivity|].
  apply H; reflexivity.
Defined.

(** ** Verification after compression *)

(** [verify_archive] throws nothing: it answers. *)
Lemma verify_archive_answers (w : World) (archive : string) (fmt : FileType) :
  ∃ ok, outcome (verify_archive w archive fmt) = inr ok.
Proof.
  unfold verify_archive, is_tool_available, execute_command.
  destruct fmt; cbn; try (by eexists);
    match goal with |- context [tool_on_path w ?t] => destruct (tool_on_path w t) end;
    cbn; by eexists.
Qed.

(** [compress] written out for a run that gets as far as the end: the
    sources exist, the command is built and the tool exits with 0. *)
Lemma compress_completed (w : World) (sources : list CompressionSource)
    (target : string) (fmt : FileType) (password : string) (options : args.Options)
    (tc tv : list event) (tool : string) (args : list string) (ok : bool)
    (layout : ArchiveLayout) :
  sources ≠ [] →
  Forall (λ src, fs_exists w (path src) = true) sources →
  layout = plan_layout w sources (canonical_entry w <$> sources) →
  compress_command w target fmt password options (items layout) = (tc, inr (tool, args)) →
  exit_status w tool args (cpath.to_string (base_directory layout)) = 0%Z →
  verify_archive w target fmt = (tv, inr ok) →
  compress w sources target fmt password options
  = ((if args.verbose options && (1 <? args.thread_count options)%Z
      then [Cout "threads_info"] else [])
     ++ tc
     ++ [Cout "compressing"; Exec tool args (cpath.to_string (base_directory layout))]
     ++ (if args.verify options
         then Cout "verifying"
                :: tv ++ [Cout (if ok then "verification_success"
                                else "verification_failed")]
         else [])
     ++ [Cout "operation_complete"],
     inr tt).
Proof.
  intros Hne Hex Hl Hc Hexit Hv.
  rewrite (compress_existing _ _ _ _ _ _ Hne Hex). cbv zeta. rewrite <- Hl, Hc, Hv.
  clear Hl Hc Hv.
  unfold execute_command, when, emit. rewrite ?mbind_eq.
  destruct (args.verbose options && _), (args.verify options);
    cbn; rewrite Hexit; cbn; rewrite <- ?app_assoc; reflexivity.
Qed.

Lemma compress_command_runs_nothing (w : World) (target : string) (fmt : FileType)
    (password : string) (options : args.Options) (items : list string) :
  filter is_exec (trace (compress_command w target fmt password options items)) = [].
Proof.
  unfold compress_command.
  destruct fmt; rewrite ?require_tool_eq; unfold when, mbind, M_bind;
    repeat match goal with
    | |- context [if ?c then _ else _] => destruct c; cbn
    | |- context [match ?l with [] => _ | _ :: _ => _ end] => destruct l; cbn
    end; done.
Qed.

(** X5. A verification that fails is no error.  When every source exists,
    the command could be built and the tool exited with status 0,
    [compress] succeeds whether or not [--verify] is given and whatever
    the verification finds; a failed verification shows as the message
    [verification_failed] only, and also when it failed for want of the
    tool that would have verified.  Without [--verify] the one command
    run is the compression. *)
Theorem failed_verification_is_no_error (w : World) (sources : list CompressionSource)
    (target : string) (fmt : FileType) (password : string) (options : args.Options)
    (tool : string) (args : list string) :
  sources ≠ [] →
  Forall (λ src, fs_exists w (path src) = true) sources →
  let layout := plan_layout w sources (canonical_entry w <$> sources) in
  outcome (compress_command w target fmt password options (items layout))
  = inr (tool, args) →
  exit_status w tool args (cpath.to_string (base_directory layout)) = 0%Z →
  let run := compress w sources target fmt password options in
  outcome run = inr tt
  ∧ (args.verify options = true →
     outcome (verify_archive w target fmt) = inr false →
     Cout "verification_failed" ∈ trace run)
  ∧ (args.verify options = false →
     filter is_exec (trace run)
     = [Exec tool args (cpath.to_string (base_directory layout))]).
Proof.
  intros Hne Hex layout Hcmd Hexit run.
  pose proof (compress_command_runs_nothing w target fmt password options (items layout))
    as Hnoexec.
  destruct (compress_command w target fmt password options (items layout))
    as [tc [e|[tool' args']]] eqn:Hc; [done|].
  cbn in Hcmd. injection Hcmd as -> ->. cbn in Hnoexec.
  destruct (verify_archive_answers w target fmt) as [ok Hok].
  destruct (verify_archive w target fmt) as [tv [e|ok']] eqn:Hv; [done|].
  cbn in Hok. injection Hok as ->.
  unfold run.
  rewrite (compress_completed w sources target fmt password options tc tv tool args ok
             layout Hne Hex eq_refl Hc Hexit Hv).
  unfold outcome, trace. cbn [fst snd].
  split; [done|]. split.
  - intros -> Hfalse. injection Hfalse as ->. find_in_list.
  - intros ->. rewrite !filter_app, Hnoexec.
    by destruct (args.verbose options && _).
Qed.

Lemma failed_verification_is_no_error_witness :
  let w := sample.world trees.layout [] ["zip"] in
  let run := compress w [{| path := "/x/a"; include_contents := false |}] "/x/out.zip"
               ARCHIVE_ZIP ""
               {| args.interactive_mode := false; args.source_path := "/x/a";
                  args.source_paths := ["/x/a"]; args.target_path := "/x/out.zip";
                  args.password := ""; args.compression_level := 0;
                  args.thread_count := 0; args.verbose := false;
                  args.benchmark := false; args.verify := true;
                  args.force_format := "" |} in
  outcome run = inr tt ∧ Cout "verification_failed" ∈ trace run.
Proof.
  intros w run.
  destruct (failed_verification_is_no_error w
              [{| path := "/x/a"; include_contents := false |}] "/x/out.zip"
              ARCHIVE_ZIP ""
              {| args.interactive_mode := false; args.source_path := "/x/a";
                 args.source_paths := ["/x/a"]; args.target_path := "/x/out.zip";
                 args.password := ""; args.compression_level := 0;
                 args.thread_count := 0; args.verbose := false;
                 args.benchmark := false; args.verify := true;
                 args.force_format := "" |}
              "zip" ["-r"; "/x/out.zip"; "a"]) as (H1 & H2 & _).
  - discriminate.
  - repeat constructor.
  - reflexivity.
  - reflexivity.
  - split; [exact H1|]. apply H2; reflexivity.
Defined.

(** ** The conflict dialogue *)

Lemma checking_invariant (w : World) (original : string) (t : list event) (st : state) :
  target st = original ∨ fs_exists w (target st) = false →
  (∀ q, Remove q ∈ t →
     q = original ∧ fs_exists w q = true ∧ fs_is_directory w q = false
     ∧ fs_remove_fails w q = true) →
  dialogue.invariant w original (t ++ (checking w st).1) (checking w st).2.
Proof.
  intros Ht Hrem. unfold checking.
  destruct (fs_exists w (target st)) eqn:Hex; cbn [fst snd].
  - destruct Ht as [Ht|]; [|done]. unfold dialogue.invariant, dialogue.live. cbn.
    split; [by rewrite <- Ht|]. split; [done|]. split; [done|].
    intros q Hq. apply elem_of_app in Hq as [Hq|Hq].
    + destruct (Hrem q Hq) as (? & ? & ? & Hf). rewrite Hf. done.
    + apply list_elem_of_singleton in Hq. done.
  - unfold dialogue.invariant, dialogue.live. cbn.
    split; [intros [|]; done|]. split; [by left|]. split; [done|].
    intros q Hq. rewrite app_nil_r in Hq.
    destruct (Hrem q Hq) as (? & ? & ? & Hf). rewrite Hf. done.
Qed.

(** One input line keeps the invariant. *)
Lemma step_invariant (w : World) (original : string) (t : list event) (st : state)
    (line : string) :
  dialogue.invariant w original t st → finished st = false →
  dialogue.invariant w original (t ++ (step w st line).1) (step w st line).2.
Proof.
  intros (Hlive & Hres & Hcan & Hrem) Hfin.
  assert (dialogue.live st) as Hl.
  { unfold dialogue.live, finished in *. destruct (now st); cbn in Hfin; auto; done. }
  destruct (Hlive Hl) as [Ht Hex].
  assert (Hfailed : ∀ q, Remove q ∈ t →
    q = original ∧ fs_exists w q = true ∧ fs_is_directory w q = false
    ∧ fs_remove_fails w q = true).
  { intros q Hq. destruct (Hrem q Hq) as (H1 & H2 & H3 & H4).
    split; [done|]. split; [done|]. split; [done|].
    destruct (fs_remove_fails w q); [done|].
    destruct (H4 eq_refl) as [Hr _]. unfold finished in Hfin. rewrite Hr in Hfin.
    done. }
  assert (Hkeep : ∀ st', target st' = original → dialogue.live st' → ∀ t',
    (∀ q, Remove q ∉ t') →
    dialogue.invariant w original (t ++ t') st').
  { intros st' Ht' Hl' t' Hno. unfold dialogue.invariant.
    split; [done|]. split; [|split].
    - intros Hr. destruct Hl' as [Hl'|Hl']; rewrite Hr in Hl'; done.
    - intros Hr. destruct Hl' as [Hl'|Hl']; rewrite Hr in Hl'; done.
    - intros q Hq. apply elem_of_app in Hq as [Hq|Hq]; [|by apply Hno in Hq].
      destruct (Hfailed q Hq) as (? & ? & ? & Hf). rewrite Hf. done. }
  unfold step. destruct Hl as [Hl|Hl]; rewrite Hl.
  - destruct (target_conflict.parse_action line) as [[| |]|].
    + (* Overwrite *)
      destruct (fs_is_directory w (target st)) eqn:Hdir; cbn [fst snd].
      * unfold dialogue.invariant, dialogue.live, dialogue.overwritten. cbn.
        split; [intros [|]; done|]. split; [|split; [done|]].
        -- intros _. right. split; [done|]. left. rewrite <- Ht. split; [done|].
           apply elem_of_app. right. by apply list_elem_of_singleton.
        -- intros q Hq. apply elem_of_app in Hq as [Hq|Hq].
           ++ destruct (Hfailed q Hq) as (? & ? & ? & Hf). rewrite Hf. done.
           ++ apply list_elem_of_singleton in Hq. done.
      * destruct (fs_remove_fails w (target st)) eqn:Hfail.
        -- destruct (checking w st) as [tc stc] eqn:Hc. cbn [fst snd].
           pose proof (checking_invariant w original (t ++ [Remove (target st);
                         Cerr "target_exists_remove_failed"]) st (or_introl Ht)) as Hinv.
           rewrite Hc in Hinv. cbn [fst snd] in Hinv.
           rewrite <- app_assoc in Hinv. apply Hinv.
           intros q Hq. apply elem_of_app in Hq as [Hq|Hq]; [by apply Hfailed|].
           apply elem_of_cons in Hq as [Hq|Hq].
           ++ injection Hq as ->. by rewrite Ht in *.
           ++ apply list_elem_of_singleton in Hq. done.
        -- cbn [fst snd].
           unfold dialogue.invariant, dialogue.live, dialogue.overwritten. cbn.
           split; [intros [|]; done|]. split; [|split; [done|]].
           ++ intros _. right. split; [done|]. right. rewrite <- Ht.
              split; [done|]. split; [done|].
              apply elem_of_app. right. by apply list_elem_of_singleton.
           ++ intros q Hq. apply elem_of_app in Hq as [Hq|Hq].
              ** destruct (Hfailed q Hq) as (? & ? & ? & Hf). rewrite Hf. done.
              ** apply list_elem_of_singleton in Hq. injection Hq as ->.
                 rewrite Ht in *. done.
    + (* Cancel *)
      cbn [fst snd]. rewrite app_nil_r.
      unfold dialogue.invariant, dialogue.live. cbn.
      split; [intros [|]; done|]. split; [done|]. split; [done|].
      intros q Hq. destruct (Hfailed q Hq) as (? & ? & ? & Hf). rewrite Hf. done.
    + (* Rename *)
      cbn [fst snd]. apply Hkeep; [done | by right |].
      intros q Hq. apply list_elem_of_singleton in Hq. done.
    + (* an invalid choice *)
      cbn [fst snd]. apply Hkeep; [done | by left |].
      intros q Hq. apply list_elem_of_singleton in Hq. done.
  - unfold rename_step.
    destruct (bool_decide (candidate_of st line = target st)) eqn:Hsame.
    + cbn [fst snd]. apply Hkeep; [done | by right |].
      intros q Hq. apply elem_of_cons in Hq as [Hq|Hq]; [done|].
      apply list_elem_of_singleton in Hq. done.
    + destruct (fs_exists w (candidate_of st line)) eqn:Hcand.
      * cbn [fst snd]. apply Hkeep.
        -- by destruct (bool_decide (candidate_of st line = default_candidate st)).
        -- right. by destruct (bool_decide (candidate_of st line = default_candidate st)).
        -- intros q Hq. apply elem_of_cons in Hq as [Hq|Hq]; [done|].
           apply list_elem_of_singleton in Hq. done.
      * apply checking_invariant; [|done].
        right. by destruct (bool_decide (candidate_of st line = default_candidate st)).
Qed.

Lemma run_invariant (w : World) (original : string) (lines : list string) :
  ∀ (t : list event) (st : state),
    dialogue.invariant w original t st →
    dialogue.invariant w original (t ++ (run w st lines).1) (run w st lines).2.
Proof.
  induction lines as [|line rest IH]; intros t st Hinv; cbn [run].
  - cbn. by rewrite app_nil_r.
  - destruct (finished st) eqn:Hfin.
    + cbn. by rewrite app_nil_r.
    + pose proof (step_invariant w original t st line Hinv Hfin) as Hs.
      destruct (step w st line) as [t1 st1]. cbn [fst snd] in Hs.
      specialize (IH _ _ Hs).
      destruct (run w st1 rest) as [t2 st2]. cbn [fst snd] in *.
      by rewrite app_assoc.
Qed.

(** The invariant holds when [resolve_existing_target] returns or runs out
    of input. *)
Lemma resolve_existing_target_invariant (w : World) (target_path : string)
    (lines : list string) :
  ∃ st, dialogue.invariant w target_path
          (trace (resolve_existing_target w target_path lines)) st
    ∧ outcome (resolve_existing_target w target_path lines)
      = match now st with
        | Resolved => inr (true, target st)
        | Cancelled => inr (false, target st)
        | _ => inl InputStreamClosed
        end.
Proof.
  unfold resolve_existing_target.
  pose proof (checking_invariant w target_path [] (initial target_path)) as H0.
  destruct (checking w (initial target_path)) as [t0 st0]. cbn [fst snd app] in H0.
  pose proof (run_invariant w target_path lines t0 st0) as H1.
  destruct (run w st0 lines) as [t1 st1]. cbn [fst snd] in H1.
  exists st1. split; [|done]. apply H1, H0; [by left|].
  intros q Hq. by apply elem_of_nil in Hq.
Qed.

(** X6. What [resolve_existing_target] answers.  When it lets the
    operation go ahead, the path it hands back is free, or it is the
    target as given and the user chose to overwrite it (a directory is
    kept with a notice, anything else was removed without error).  When
    the user cancels, the path handed back is the target as given.  A
    target that is free from the start is accepted at once, with nothing
    asked or printed. *)
Theorem resolve_existing_target_answer (w : World) (target_path : string)
    (lines : list string) :
  let run := resolve_existing_target w target_path lines in
  (∀ p, outcome run = inr (true, p) →
     fs_exists w p = false
     ∨ (p = target_path ∧ dialogue.overwritten w (trace run) target_path))
  ∧ (∀ p, outcome run = inr (false, p) → p = target_path)
  ∧ (fs_exists w target_path = false → run = ([], inr (true, target_path))).
Proof.
  intros run.
  destruct (resolve_existing_target_invariant w target_path lines)
    as (st & (Hlive & Hres & Hcan & Hrem) & Hout).
  fold run in Hout, Hres, Hrem. split; [|split].
  - intros p Hp. rewrite Hp in Hout.
    destruct (now st) eqn:Hnow; try done. injection Hout as ->.
    by apply Hres.
  - intros p Hp. rewrite Hp in Hout.
    destruct (now st) eqn:Hnow; try done. injection Hout as ->.
    by apply Hcan.
  - intros Hfree. unfold run, resolve_existing_target, checking, initial.
    cbn [target]. rewrite Hfree. by destruct lines.
Qed.

(** X7. What [resolve_existing_target] removes.  Every path it removes is
    the target as given, which exists and is not a directory; and a
    removal that does not fail ends the dialogue, with the answer to go
    ahead on that path.  So a dialogue that ends in a cancel, or that
    runs out of input, has removed nothing. *)
Theorem resolve_existing_target_removals (w : World) (target_path : string)
    (lines : list string) (q : string) :
  let run := resolve_existing_target w target_path lines in
  Remove q ∈ trace run →
  q = target_path ∧ fs_exists w q = true ∧ fs_is_directory w q = false
  ∧ (fs_remove_fails w q = false → outcome run = inr (true, q)).
Proof.
  intros run Hq.
  destruct (resolve_existing_target_invariant w target_path lines)
    as (st & (Hlive & Hres & Hcan & Hrem) & Hout).
  fold run in Hout, Hrem.
  destruct (Hrem q Hq) as (H1 & H2 & H3 & H4).
  split; [done|]. split; [done|]. split; [done|].
  intros Hf. destruct (H4 Hf) as [Hr Ht]. by rewrite Hout, Hr, Ht.
Qed.

Lemma resolve_existing_target_answer_witness :
  let w := sample.world trees.renames ["v"] sample.all_tools in
  fs_exists w "out_1.zip" = false
  ∨ ("out_1.zip" = "out.zip"
     ∧ dialogue.overwritten w
         (trace (resolve_existing_target w "out.zip" ["r"; ""])) "out.zip").
Proof.
  intros w.
  destruct (resolve_existing_target_answer w "out.zip" ["r"; ""]) as (H & _).
  apply H. reflexivity.
Defined.

Lemma resolve_existing_target_removals_witness :
  let w := sample.world trees.renames ["w"] sample.all_tools in
  "out.zip" = "out.zip" ∧ fs_exists w "out.zip" = true
  ∧ fs_is_directory w "out.zip" = false
  ∧ (fs_remove_fails w "out.zip" = false →
     outcome (resolve_existing_target w "out.zip" ["x"; "O"]) = inr (true, "out.zip")).
Proof.
  intros w.
  apply (resolve_existing_target_removals w "out.zip" ["x"; "O"] "out.zip").
  vm_compute. set_solver.
Defined.

(** ** Sequential candidates *)

Lemma string_app_inv_head (s a b : string) : s +:+ a = s +:+ b → a = b.
Proof.
  intros H. apply (f_equal chars) in H. rewrite !chars_app in H.
  apply app_inv_head in H. by rewrite <- (str_chars a), H, str_chars.
Qed.

Lemma string_app_inv_tail (s a b : string) : a +:+ s = b +:+ s → a = b.
Proof.
  intros H. apply (f_equal chars) in H. rewrite !chars_app in H.
  apply app_inv_tail in H. by rewrite <- (str_chars a), H, str_chars.
Qed.

Lemma fspath_append_inj (parent a b : string) :
  fspath.append parent a = fspath.append parent b → a = b.
Proof.
  unfold fspath.append. destruct (bool_decide (parent = "")); [done|].
  destruct (back_is fspath.sep parent); intros H.
  - by apply string_app_inv_head in H.
  - by do 2 apply string_app_inv_head in H.
Qed.

(** X8. The candidates that [generate_sequential_candidate] makes from one
    base path are pairwise distinct: two counters give the same candidate
    only when they are equal, so each default that the rename loop offers
    after a collision is a path it has not offered before. *)
Theorem generate_sequential_candidate_distinct (base_path : string) (n m : Z) :
  n ≠ m →
  generate_sequential_candidate base_path n ≠ generate_sequential_candidate base_path m.
Proof.
  intros Hne H. apply Hne. unfold generate_sequential_candidate in H.
  destruct (split_name _) as [stem extension].
  apply fspath_append_inj in H.
  do 2 apply string_app_inv_head in H.
  apply string_app_inv_tail in H.
  by apply (inj pretty) in H.
Qed.

Lemma generate_sequential_candidate_distinct_witness :
  generate_sequential_candidate "backup/out.tar.gz" 1
  ≠ generate_sequential_candidate "backup/out.tar.gz" 2.
Proof. apply generate_sequential_candidate_distinct. lia. Defined.

(** ** Sniffing: short files and printable headers *)

Lemma source_type_of_header (w : World) (path : string) :
  fs_exists w path = true → fs_is_directory w path = false →
  fs_is_regular_file w path = true →
  recognize_source_type w path
  = mret (if bool_decide (recognize_by_header w path = UNKNOWN)
          then if bool_decide (recognize_by_extension path = UNKNOWN)
               then REGULAR_FILE else recognize_by_extension path
          else recognize_by_header w path).
Proof.
  intros He Hd Hr. unfold recognize_source_type. rewrite He, Hd, Hr. cbn [negb].
  destruct (decide (recognize_by_header w path = UNKNOWN)) as [Hu|Hu].
  - rewrite Hu. cbv zeta.
    by rewrite !(bool_decide_eq_true_2 (UNKNOWN = UNKNOWN)) by done.
  - cbv zeta.
    by rewrite !(bool_decide_eq_false_2 (recognize_by_header w path = UNKNOWN)) by done.
Qed.

(** X9. No file of fewer than 16 bytes is classified by its content.  The
    first read asks for 16 bytes, and a read that comes up short leaves
    the stream failed, which the sniffer answers with [UNKNOWN] even when
    the bytes that are there begin with a complete signature; the type
    of such a regular file is then the one of its name, [REGULAR_FILE]
    when the name tells nothing. *)
Theorem short_files_are_named_not_sniffed (w : World) (path : string) (bytes : list byte) :
  fs_open w path = Some bytes → length bytes < 16 →
  recognize_by_header w path = UNKNOWN
  ∧ (fs_exists w path = true → fs_is_directory w path = false →
     fs_is_regular_file w path = true →
     recognize_source_type w path
     = mret (if bool_decide (recognize_by_extension path = UNKNOWN)
             then REGULAR_FILE else recognize_by_extension path)).
Proof.
  intros Ho Hlen.
  assert (recognize_by_header w path = UNKNOWN) as Hu.
  { rewrite (recognize_by_header_opened _ _ _ Ho). by apply short_first_read. }
  split; [done|]. intros He Hd Hr.
  rewrite (source_type_of_header _ _ He Hd Hr), Hu. by rewrite bool_decide_eq_true_2.
Qed.

Lemma short_files_are_named_not_sniffed_witness :
  let w := sample.world trees.sniffing ["w"] sample.all_tools in
  recognize_by_header w "tiny.zip" = UNKNOWN
  ∧ (fs_exists w "tiny.zip" = true → fs_is_directory w "tiny.zip" = false →
     fs_is_regular_file w "tiny.zip" = true →
     recognize_source_type w "tiny.zip"
     = mret (if bool_decide (recognize_by_extension "tiny.zip" = UNKNOWN)
             then REGULAR_FILE else recognize_by_extension "tiny.zip")).
Proof.
  intros w.
  apply (short_files_are_named_not_sniffed w "tiny.zip" trees.bzip2_magic_only).
  - reflexivity.
  - cbn. lia.
Defined.

(** X10. A regular file of at least 512 bytes whose first 100 bytes are
    all printable characters (codes 32 to 126) is never taken for a plain
    file: the sniffer gives it an archive type, [ARCHIVE_TAR] when no
    signature matches, whatever its name; so [recognize] infers a
    decompression for it, or fails on the target, and never infers a
    compression. *)
Theorem printable_header_is_an_archive (w : World) (path target : string)
    (bytes : list byte) :
  fs_exists w path = true → fs_is_directory w path = false →
  fs_is_regular_file w path = true →
  fs_open w path = Some bytes → 512 ≤ length bytes →
  Forall (λ b, precedence.printable b = true) (take 100 bytes) →
  ∃ tag, recognize_source_type w path = mret tag
    ∧ archive_tag tag
    ∧ (precedence.by_signature bytes = None → tag = ARCHIVE_TAR)
    ∧ (∀ r, outcome (recognize w path target) = inr r →
         file_type.operation r = DECOMPRESS ∧ source_type r = tag)
    ∧ (outcome (recognize w path target) = inl (HitpagException INVALID_TARGET)
       ↔ fs_exists w target = true ∧ fs_is_directory w target = false).
Proof.
  intros He Hd Hr Ho Hlen Hp.
  assert (Hlegacy : precedence.legacy_tar bytes = true).
  { unfold precedence.legacy_tar.
    rewrite (proj2 (Nat.leb_le _ _) Hlen). cbn [andb].
    destruct bytes as [|b bytes]; [simpl in Hlen; lia|].
    cbn [take] in *. apply Forall_cons in Hp as [Hb Hp].
    apply andb_true_iff. split.
    - cbn [existsb]. unfold precedence.is_null.
      destruct (Byte.eqb b x00) eqn:Hz; [|done].
      apply byte_dec_bl in Hz. by subst b.
    - cbn [forallb]. rewrite Hb, orb_true_r. cbn [andb].
      apply forallb_forall. intros c Hc. apply list_elem_of_In in Hc.
      rewrite Forall_forall in Hp. by rewrite (Hp c Hc), orb_true_r. }
  assert (Hh : recognize_by_header w path = precedence.classify bytes).
  { rewrite (recognize_by_header_opened _ _ _ Ho). apply full_first_read. lia. }
  assert (Hk : precedence.classify bytes ≠ UNKNOWN
               ∧ (precedence.by_signature bytes = None →
                  precedence.classify bytes = ARCHIVE_TAR)
               ∧ precedence.classify bytes ≠ REGULAR_FILE
               ∧ precedence.classify bytes ≠ DIRECTORY).
  { unfold precedence.classify.
    destruct (precedence.by_signature bytes) as [tag|] eqn:Hsig.
    - split; [by apply (by_signature_known bytes)|]. split; [done|].
      unfold precedence.by_signature in Hsig.
      destruct (List.find _ _) as [[sig t]|] eqn:Hf; [|done].
      simpl in Hsig. injection Hsig as <-.
      apply List.find_some in Hf as [Hin _].
      unfold precedence.signature_table in Hin. simpl in Hin.
      repeat (destruct Hin as [Hin|Hin]; [by injection Hin as <- <-|]). done.
    - rewrite Hlegacy, orb_true_r. done. }
  destruct Hk as (Hu & Htar & Hnr & Hnd).
  exists (precedence.classify bytes).
  assert (Hsrc : recognize_source_type w path = mret (precedence.classify bytes)).
  { rewrite (source_type_of_header _ _ He Hd Hr), Hh.
    by rewrite bool_decide_eq_false_2. }
  split; [done|]. split; [done|]. split; [done|].
  rewrite (recognize_resolved _ _ _ _ Hsrc).
  rewrite (bool_decide_eq_false_2 _ Hnd), (bool_decide_eq_false_2 _ Hnr). cbn [orb].
  destruct (fs_exists w target), (fs_is_directory w target); cbn;
    (split; [intros r Hr'; try done; by injection Hr' as <- | split; [try done|]]);
    try (by intros [? ?]); done.
Qed.

Lemma printable_header_is_an_archive_witness :
  let w := sample.world printable_tree.tree ["w"] sample.all_tools in
  ∃ tag, recognize_source_type w "big.json" = mret tag
    ∧ archive_tag tag
    ∧ (precedence.by_signature printable_tree.letters = None → tag = ARCHIVE_TAR)
    ∧ (∀ r, outcome (recognize w "big.json" "out") = inr r →
         file_type.operation r = DECOMPRESS ∧ source_type r = tag)
    ∧ (outcome (recognize w "big.json" "out") = inl (HitpagException INVALID_TARGET)
       ↔ fs_exists w "out" = true ∧ fs_is_directory w "out" = false).
Proof.
  intros w.
  apply (printable_header_is_an_archive w "big.json" "out" printable_tree.letters).
  - reflexivity.
  - reflexivity.
  - reflexivity.
  - reflexivity.
  - unfold printable_tree.letters. rewrite length_replicate. lia.
  - apply Forall_take, Forall_replicate. reflexivity.
Defined.

(** ** The two input helpers *)

Lemma find_first_not_of_drop (l : list ascii) :
  match interactive.find_first_not_of l with
  | Some n => n < length l ∧ drop n l = drop_while is_blank l
  | None => drop_while is_blank l = []
  end.
Proof.
  induction l as [|c l IH]; [done|]. cbn.
  destruct (is_blank c); [|split; [lia | done]].
  destruct (interactive.find_first_not_of l) as [n|]; cbn; [|done].
  destruct IH as [Hn Hd]. split; [lia | done].
Qed.

Lemma erase_leading_blanks (l : list ascii) :
  interactive.erase 0 (interactive.find_first_not_of l) l = drop_while is_blank l.
Proof.
  unfold interactive.erase. cbn [take app Nat.add].
  pose proof (find_first_not_of_drop l) as H.
  destruct (interactive.find_first_not_of l); [by destruct H | done].
Qed.

Lemma erase_trailing_blanks (s : list ascii) :
  interactive.erase
    (match interactive.find_last_not_of s with Some last => S last | None => 0 end)
    None s
  = reverse (drop_while is_blank (reverse s)).
Proof.
  unfold interactive.erase, interactive.find_last_not_of. rewrite app_nil_r.
  pose proof (find_first_not_of_drop (reverse s)) as H.
  destruct (interactive.find_first_not_of (reverse s)) as [i|];
    cbn [fmap option_fmap option_map].
  - destruct H as [Hi Hd]. rewrite <- Hd. rewrite length_reverse in Hi.
    replace (S (length s - 1 - i)) with (length s - i) by lia.
    by rewrite drop_reverse, reverse_involutive.
  - rewrite H. done.
Qed.

(** X11. The two input helpers trim alike: what [interactive::get_input]
    makes of a line with its two [erase] calls is what
    [cli_io::get_input] makes of it with [util::trim_copy], for every
    line, also the empty one and the one made of blanks only. *)
Theorem get_input_helpers_agree (line : string) :
  interactive.get_input_line line = cli_io.get_input_line line.
Proof.
  unfold interactive.get_input_line, cli_io.get_input_line, trim_copy.
  case_bool_decide as Hempty.
  - rewrite Hempty. cbn. by rewrite <- (str_chars line), Hempty.
  - by rewrite erase_leading_blanks, erase_trailing_blanks.
Qed.

(** ** Messages *)

(** The inner loop of [remove_unused]: either no [}] is left and the
    message stays as it is, or the text up to the first [}] is erased and
    the outer loop goes on behind it. *)
Lemma erase_to_close_spec (message behind : list ascii) :
  let erase :=
    fix erase_to_close (behind : list ascii) : list ascii :=
      match behind with
      | [] => message
      | d :: behind' =>
          if bool_decide (d = "}"%char) then i18n.remove_unused behind'
          else erase_to_close behind'
      end in
  (("}"%char ∉ behind) ∧ erase behind = message)
  ∨ (∃ rest, erase behind = i18n.remove_unused rest ∧ length rest < length behind).
Proof.
  intros erase. induction behind as [|d behind IH].
  - left. split; [apply not_elem_of_nil | done].
  - cbn [erase]. case_bool_decide as Hd.
    + right. exists behind. split; [done | simpl; lia].
    + destruct IH as [[Hno He] | (rest & He & Hlen)].
      * left. split; [|done]. by apply not_elem_of_cons.
      * right. exists rest. split; [done | simpl; lia].
Qed.

Lemma remove_unused_no_pair (n : nat) :
  ∀ message pre post,
    length message ≤ n →
    i18n.remove_unused message = pre ++ "{"%char :: post → "}"%char ∉ post.
Proof.
  induction n as [|n IH]; intros message pre post Hlen Heq.
  - destruct message; [|simpl in Hlen; lia]. by destruct pre.
  - destruct message as [|c rest]; [by destruct pre|].
    simpl in Hlen.
    change (i18n.remove_unused (c :: rest))
      with (if bool_decide (c = "{"%char)
            then (fix erase_to_close (behind : list ascii) : list ascii :=
                    match behind with
                    | [] => c :: rest
                    | d :: behind' =>
                        if bool_decide (d = "}"%char) then i18n.remove_unused behind'
                        else erase_to_close behind'
                    end) rest
            else c :: i18n.remove_unused rest) in Heq.
    case_bool_decide as Hc.
    + destruct (erase_to_close_spec (c :: rest) rest) as [[Hno He] | (b & He & Hb)];
        rewrite He in Heq.
      * destruct pre as [|p pre]; injection Heq as _ Heq.
        -- by rewrite <- Heq.
        -- rewrite Heq in Hno. intros Hin. apply Hno.
           apply elem_of_app. right. by apply list_elem_of_further.
      * apply (IH b pre post); [lia | done].
    + destruct pre as [|p pre]; injection Heq as Hp Heq; [congruence|].
      apply (IH rest pre post); [lia | done].
Qed.

(** X12. A message of the table leaves [i18n::get] without placeholder:
    whatever values are put in, no [{] of the result has a [}] anywhere
    behind it.  A pair of braces that came in with a value (a path, say)
    is erased with the rest. *)
Theorem get_leaves_no_placeholder (key : string) (placeholders : list (string * string))
    (pre post : list ascii) :
  is_Some (i18n.find key) →
  chars (i18n.get key placeholders) = pre ++ "{"%char :: post →
  "}"%char ∉ post.
Proof.
  intros [message Hm]. unfold i18n.get. rewrite Hm, chars_str.
  intros Heq. by eapply remove_unused_no_pair.
Qed.

Lemma get_leaves_no_placeholder_witness :
  i18n.get "target_exists_header" [("OBJECT_TYPE", "file"); ("TARGET_PATH", "{a}/x{y")]
  = "Target file '/x{y' already exists."
  ∧ ("}"%char ∉ chars "y' already exists.").
Proof.
  split; [reflexivity|].
  apply (get_leaves_no_placeholder "target_exists_header"
           [("OBJECT_TYPE", "file"); ("TARGET_PATH", "{a}/x{y")]
           (chars "Target file '/x")).
  - by eexists.
  - reflexivity.
Defined.

(** ** The command line *)





(** X14. [--] ends the options: whatever stands behind it is positional,
    also a name that begins with a dash.  With at least one source and a
    target that is not empty behind [--], and no option before it, the
    command line is accepted with every option at its default. *)
Theorem double_dash_ends_options (w : World) (program : string)
    (sources : list string) (target : string) :
  sources ≠ [] → target ≠ "" →
  args.parse w (program :: "--" :: sources ++ [target])
  = mret {| args.options :=
              {| args.interactive_mode := false;
                 args.source_path := default "" (head sources);
                 args.source_paths := sources; args.target_path := target;
                 args.password := ""; args.compression_level := 0;
                 args.thread_count := 0; args.verbose := false;
                 args.benchmark := false; args.verify := false;
                 args.force_format := "" |};
            args.show_help := false; args.show_version := false;
            args.password_prompt := false; args.exclude_patterns := [];
            args.include_patterns := [] |}.
Proof.
  intros Hs Ht. unfold args.parse. cbn [length Nat.ltb Nat.leb drop].
  cbn [args.scan_options chars list_ascii_of_string head].
  rewrite (bool_decide_eq_true_2 (Some "-"%char = Some "-"%char)) by done.
  cbn [negb]. rewrite (bool_decide_eq_true_2 ("--" = "--")) by done.
  rewrite bind_mret. unfold args.place_positional.
  rewrite !(bool_decide_eq_false_2 (sources ++ [target] = []))
    by (by destruct sources).
  rewrite !last_last, !removelast_last.
  destruct sources as [|front sources]; [done|]. cbn.
  rewrite (bool_decide_eq_false_2 _ Ht). reflexivity.
Qed.

Lemma double_dash_ends_options_witness :
  args.parse (sample.world ∅ [] []) ("hitpag" :: "--" :: ["-rf"; "--help"] ++ ["-out.zip"])
  = mret {| args.options :=
              {| args.interactive_mode := false; args.source_path := "-rf";
                 args.source_paths := ["-rf"; "--help"]; args.target_path := "-out.zip";
                 args.password := ""; args.compression_level := 0;
                 args.thread_count := 0; args.verbose := false;
                 args.benchmark := false; args.verify := false;
                 args.force_format := "" |};
            args.show_help := false; args.show_version := false;
            args.password_prompt := false; args.exclude_patterns := [];
            args.include_patterns := [] |}.
Proof. apply (double_dash_ends_options _ "hitpag" ["-rf"; "--help"] "-out.zip"); done. Defined.

(** ** Runs that end early *)

Lemma canonical_sources_missing (w : World) (sources : list CompressionSource)
    (src : CompressionSource) :
  src ∈ sources → fs_exists w (path src) = false →
  canonical_sources w sources = throw_error INVALID_SOURCE.
Proof.
  intros Hin Hmiss. unfold canonical_sources.
  induction sources as [|s sources IH]; [by apply elem_of_nil in Hin|].
  cbn [mapM]. rewrite mbind_eq.
  destruct (fs_exists w (path s)) eqn:Hs; cbn [negb]; [|done].
  rewrite bind_mret, mbind_eq.
  apply elem_of_cons in Hin as [-> | Hin]; [congruence|].
  by rewrite (IH Hin).
Qed.

(** X15. A source that does not exist stops [compress] before anything
    happens: whichever of the sources is missing, and wherever it stands
    in the list, the call fails with [INVALID_SOURCE] and its trace is
    empty: no tool was looked for or run and nothing was printed, also
    not for the sources that do exist. *)
Theorem missing_source_stops_compress (w : World) (sources : list CompressionSource)
    (src : CompressionSource) (target : string) (fmt : FileType) (password : string)
    (options : args.Options) :
  src ∈ sources → fs_exists w (path src) = false →
  compress w sources target fmt password options = throw_error INVALID_SOURCE.
Proof.
  intros Hin Hmiss. unfold compress.
  rewrite bool_decide_eq_false_2 by (intros ->; by apply elem_of_nil in Hin).
  by rewrite (canonical_sources_missing _ _ _ Hin Hmiss).
Qed.

Lemma missing_source_stops_compress_witness :
  compress (sample.world trees.layout [] sample.all_tools)
    [{| path := "/x/a"; include_contents := false |};
     {| path := "/x/none"; include_contents := false |}]
    "/x/out.zip" ARCHIVE_ZIP "" args.default
  = throw_error INVALID_SOURCE.
Proof.
  apply (missing_source_stops_compress _ _ {| path := "/x/none"; include_contents := false |}).
  - apply list_elem_of_further, list_elem_of_here.
  - reflexivity.
Defined.

Lemma decompress_command_runs_nothing (w : World) (source target_dir : string)
    (fmt : FileType) (password : string) (options : args.Options) :
  filter is_exec (trace (decompress_command w source target_dir fmt password options))
  = [].
Proof.
  unfold decompress_command.
  destruct fmt; rewrite ?require_tool_eq; unfold when, mbind, M_bind;
    repeat match goal with
    | |- context [if ?c then _ else _] => destruct c; cbn
    end; done.
Qed.

(** [decompress] written out. *)
Lemma decompress_eq (w : World) (source target_dir : string) (fmt : FileType)
    (password : string) (options : args.Options) :
  decompress w source target_dir fmt password options
  = let created :=
      if fs_exists w target_dir then [] else [CreateDirectories target_dir] in
    if negb (fs_exists w target_dir) && fs_create_directories_fails w target_dir
    then (created, inl (HitpagException INVALID_TARGET))
    else
      match decompress_command w source target_dir fmt password options with
      | (tc, inl e) => (created ++ tc, inl e)
      | (tc, inr (tool, args)) =>
          if bool_decide (exit_status w tool args "" = 0%Z)
          then (created ++ tc ++ [Cout "decompressing"; Exec tool args "";
                                  Cout "operation_complete"], inr tt)
          else (created ++ tc ++ [Cout "decompressing"; Exec tool args ""],
                inl (HitpagException OPERATION_FAILED))
      end.
Proof.
  unfold decompress, when, emit, execute_command. rewrite ?mbind_eq.
  destruct (decompress_command w source target_dir fmt password options)
    as [tc [e|[tool args]]];
    destruct (fs_exists w target_dir);
    try destruct (fs_create_directories_fails w target_dir);
    cbn; try destruct (bool_decide (exit_status w tool args "" = 0%Z));
    cbn; rewrite ?app_nil_r; reflexivity.
Qed.

(** X16. [decompress] reports success only for a tool that ran and
    exited with 0: whenever the call returns, exactly one external
    command was run, with no working directory set, and its exit status
    was 0.  A command that was run and exited with another status ends
    the call with [OPERATION_FAILED]. *)
Theorem decompress_success_means_exit_zero (w : World) (source target_dir : string)
    (fmt : FileType) (password : string) (options : args.Options) :
  let run := decompress w source target_dir fmt password options in
  (outcome run = inr tt →
   ∃ tool args, filter is_exec (trace run) = [Exec tool args ""]
                ∧ exit_status w tool args "" = 0%Z)
  ∧ (∀ tool args, Exec tool args "" ∈ trace run →
       exit_status w tool args "" ≠ 0%Z →
       outcome run = inl (HitpagException OPERATION_FAILED)).
Proof.
  intros run.
  assert (Hfilter : ∀ tool args, Exec tool args "" ∈ trace run →
                                 Exec tool args "" ∈ filter is_exec (trace run)).
  { intros tool args Hin. by apply list_elem_of_filter. }
  unfold run in *. rewrite decompress_eq in *. cbv zeta in *.
  pose proof (decompress_command_runs_nothing w source target_dir fmt password options)
    as Hcmd.
  assert (Hcreated : filter is_exec
            (if fs_exists w target_dir then [] else [CreateDirectories target_dir]) = [])
    by (by destruct (fs_exists w target_dir)).
  destruct (negb (fs_exists w target_dir) && fs_create_directories_fails w target_dir).
  { split; [done|]. intros tool args Hin. apply Hfilter in Hin.
    unfold trace in Hin. cbn [fst] in Hin. rewrite Hcreated in Hin.
    by apply elem_of_nil in Hin. }
  destruct (decompress_command w source target_dir fmt password options)
    as [tc [e|[tool args]]]; cbn in Hcmd.
  { split; [done|]. intros tool args Hin. apply Hfilter in Hin.
    unfold trace in Hin. cbn [fst] in Hin. rewrite filter_app, Hcreated, Hcmd in Hin.
    by apply elem_of_nil in Hin. }
  case_bool_decide as Hz; unfold outcome, trace in *; cbn [fst snd] in *.
  - split.
    + intros _. exists tool, args. split; [|done].
      rewrite !filter_app, Hcreated, Hcmd. reflexivity.
    + intros tool' args' Hin Hne. apply Hfilter in Hin.
      rewrite !filter_app, Hcreated, Hcmd in Hin. cbn in Hin.
      apply list_elem_of_singleton in Hin. injection Hin as -> ->. done.
  - split; done.
Qed.

Lemma decompress_success_means_exit_zero_witness :
  let w := sample.world trees.split_zip ["v"] sample.all_tools in
  ∃ tool args,
    filter is_exec (trace (decompress w "a.zip" "out" ARCHIVE_ZIP "" args.default))
    = [Exec tool args ""]
    ∧ exit_status w tool args "" = 0%Z.
Proof.
  intros w.
  destruct (decompress_success_means_exit_zero w "a.zip" "out" ARCHIVE_ZIP "" args.default)
    as [H _].
  apply H. reflexivity.
Defined.





Lemma recognize_source_type_silent (w : World) (source : string) :
  trace (recognize_source_type w source) = []
  ∧ (∀ e, outcome (recognize_source_type w source) = inl e →
          e = HitpagException INVALID_SOURCE).
Proof.
  unfold recognize_source_type.
  destruct (fs_exists w source), (fs_is_directory w source),
    (fs_is_regular_file w source); cbn; split; try done; by intros e [= <-].
Qed.




(** ** The interactive mode *)



Lemma keeps_source_mret {A} (a : A) : keeps_source (mret a : M A).
Proof. done. Qed.

Lemma keeps_source_throw_error {A} (code : ErrorCode) :
  keeps_source (throw_error code : M A).
Proof. done. Qed.

Lemma keeps_source_throw {A} (e : exn) : keeps_source (interactive.throw e : M A).
Proof. done. Qed.























(** In a chain of steps, a removal can only come from the last one when
    the steps before it remove nothing. *)
Lemma removal_bind {A} (m : M A) (f : A → M unit) :
  keeps_source m →
  (∀ a p, RemoveAll p ∈ trace (f a) → outcome (f a) = inr tt) →
  ∀ p, RemoveAll p ∈ trace (bind m f) → outcome (bind m f) = inr tt.
Proof.
  intros Hm Hf p. rewrite trace_bind, outcome_bind. intros [Hin|Hin]%elem_of_app.
  - assert (RemoveAll p ∈ filter is_remove_all (trace m)) as H
      by (by apply list_elem_of_filter).
    rewrite Hm in H. by apply elem_of_nil in H.
  - destruct (outcome m) as [e|a]; [by apply elem_of_nil in Hin|]. by apply (Hf a p).
Qed.

Lemma removal_mbind {A} (m : M A) (f : A → M unit) :
  keeps_source m →
  (∀ a p, RemoveAll p ∈ trace (f a) → outcome (f a) = inr tt) →
  ∀ p, RemoveAll p ∈ trace (mbind f m) → outcome (mbind f m) = inr tt.
Proof. apply removal_bind. Qed.


Tactic Notation "removal_step" "as" simple_intropattern(pat) :=
  first [apply removal_mbind | apply removal_bind];
  [| intros pat; cbn beta iota zeta ].



(** *** No comparison of source and target *)

Lemma never_throws_bind {A B} (e : exn) (m : M A) (f : A → M B) :
  never_throws e m → (∀ a, never_throws e (f a)) → never_throws e (bind m f).
Proof.
  unfold never_throws. intros Hm Hf. rewrite outcome_bind.
  destruct (outcome m) eqn:Ho; [congruence | apply Hf].
Qed.

Lemma never_throws_mbind {A B} (e : exn) (m : M A) (f : A → M B) :
  never_throws e m → (∀ a, never_throws e (f a)) → never_throws e (mbind f m).
Proof. apply never_throws_bind. Qed.

Lemma never_throws_emit (e : exn) (ev : event) : never_throws e (emit ev).
Proof. done. Qed.

Lemma never_throws_get_choice (min_val max_val : Z) (lines : list string) :
  never_throws (HitpagException SAME_PATH) (interactive.get_choice min_val max_val lines).
Proof.
  induction lines as [|line rest IH]; cbn [interactive.get_choice].
  - done.
  - apply never_throws_mbind; [done|]. intros _.
    assert (never_throws (HitpagException SAME_PATH)
              (emit (Cout "invalid_choice");;
               interactive.get_choice min_val max_val rest)) as Hagain.
    { apply never_throws_mbind; done. }
    destruct (std.stoi _); try done.
    by destruct (_ && _).
Qed.

Lemma never_throws_confirmation (lines : list string) :
  never_throws (HitpagException SAME_PATH) (interactive.confirmation lines).
Proof.
  induction lines as [|line rest IH]; cbn [interactive.confirmation]; [done|].
  assert (never_throws (HitpagException SAME_PATH)
            (emit (Cout "invalid_choice");; emit (Print " (y/n): ");;
             interactive.confirmation rest)) as Hagain.
  { apply never_throws_mbind; [done|]. intros _. apply never_throws_mbind; done. }
  destruct (chars _) as [|c ?]; [done|].
  repeat case_bool_decide; done.
Qed.

Lemma never_throws_get_password (w : World) (key : string) (lines : list string) :
  never_throws (HitpagException SAME_PATH)
    (interactive.get_password_interactively w key lines).
Proof.
  unfold interactive.get_password_interactively.
  apply never_throws_mbind; [done|]. intros _.
  destruct (negb (stdin_is_terminal w)); [done|].
  by destruct (interactive.keystrokes _ _).
Qed.

Lemma never_throws_new_password (w : World) (lines : list string) :
  never_throws (HitpagException SAME_PATH) (interactive.new_password w lines).
Proof.
  assert (∀ n lines, length lines ≤ n →
            never_throws (HitpagException SAME_PATH)
              (interactive.new_password w lines)) as H;
    [|by apply (H (length lines))].
  clear lines. induction n as [|n IH]; intros lines Hlen;
    destruct lines as [|l1 lines']; try (simpl in Hlen; lia);
    cbn [interactive.new_password];
    (apply never_throws_bind; [apply never_throws_get_password|]; intros [p1 lines1];
     apply never_throws_bind; [apply never_throws_get_password|]; intros [p2 lines2];
     case_bool_decide; [done|];
     apply never_throws_mbind; [done|]; intros _; try done).
  simpl in Hlen. destruct lines' as [|l2 rest]; apply IH; simpl in *; lia.
Qed.

Lemma never_throws_resolve_existing_target (w : World) (target_path : string)
    (lines : list string) :
  never_throws (HitpagException SAME_PATH)
    (resolve_existing_target w target_path lines).
Proof.
  unfold never_throws, resolve_existing_target.
  destruct (checking w (initial target_path)) as [t st].
  destruct (run w st lines) as [t' st']. cbn. by destruct (now st').
Qed.

Lemma never_throws_canonical_sources (w : World) (sources : list CompressionSource) :
  never_throws (HitpagException SAME_PATH) (canonical_sources w sources).
Proof.
  unfold canonical_sources. induction sources as [|s sources IH]; [done|].
  cbn [mapM]. apply never_throws_mbind.
  - by destruct (negb (fs_exists w (path s))).
  - intros a. apply never_throws_mbind; [done|]. by intros.
Qed.

Lemma never_throws_compress (w : World) (sources : list CompressionSource)
    (target : string) (fmt : FileType) (password : string) (options : args.Options) :
  never_throws (HitpagException SAME_PATH)
    (compress w sources target fmt password options).
Proof.
  unfold compress. case_bool_decide; [done|].
  apply never_throws_bind; [apply never_throws_canonical_sources|].
  intros canon. apply never_throws_mbind; [by destruct (_ && _)|].
  intros _. cbv zeta. apply never_throws_bind.
  { unfold never_throws, compress_command.
    destruct fmt; rewrite ?require_tool_eq; unfold when, mbind, M_bind;
      repeat match goal with
      | |- context [if ?c then _ else _] => destruct c; cbn
      | |- context [match ?l with [] => _ | _ :: _ => _ end] => destruct l; cbn
      end; done. }
  intros [tool args]. apply never_throws_mbind; [done|].
  intros _. apply never_throws_bind; [done|].
  intros result. destruct (negb _); [done|].
  apply never_throws_mbind; [|done].
  destruct (args.verify options); [|done]. cbn [when].
  apply never_throws_mbind; [done|]. intros _.
  apply never_throws_bind; [|done].
  unfold never_throws. by destruct (verify_archive_answers w target fmt) as [ok ->].
Qed.

Lemma never_throws_decompress (w : World) (source target_dir : string) (fmt : FileType)
    (password : string) (options : args.Options) :
  never_throws (HitpagException SAME_PATH)
    (decompress w source target_dir fmt password options).
Proof.
  rewrite decompress_eq. cbv zeta. unfold never_throws.
  destruct (negb _ && _); [done|].
  assert (outcome (decompress_command w source target_dir fmt password options)
          ≠ inl (HitpagException SAME_PATH)) as Hcmd.
  { unfold decompress_command.
    destruct fmt; rewrite ?require_tool_eq; unfold when, mbind, M_bind;
      repeat match goal with
      | |- context [if ?c then _ else _] => destruct c; cbn
      end; done. }
  destruct (decompress_command w source target_dir fmt password options)
    as [tc [e|[tool args]]].
  - cbn. intros [= ->]. by apply Hcmd.
  - by case_bool_decide.
Qed.

(** X20. The interactive mode never reports [SAME_PATH]: whatever the
    options, the file system and the answers typed, [interactive::run]
    does not end with that error, since nothing in it compares the
    source with the target; a target entered that is the source itself
    goes on to the conflict dialogue like any other existing path. *)
Theorem interactive_mode_never_reports_same_path (w : World) (options : args.Options)
    (lines : list string) :
  outcome (interactive.run w options lines) ≠ inl (HitpagException SAME_PATH).
Proof.
  change (never_throws (HitpagException SAME_PATH) (interactive.run w options lines)).
  unfold interactive.run.
  apply never_throws_mbind; [done|]. intros _.
  apply never_throws_bind.
  { case_bool_decide; [|done]. apply never_throws_mbind; [done|]. intros _.
    by destruct lines. }
  intros [source_path lines0]. cbv zeta.
  apply never_throws_bind.
  { unfold never_throws.
    destruct (recognize_source_type_silent w source_path) as [_ He].
    destruct (outcome (recognize_source_type w source_path)) as [e|]; [|done].
    by rewrite (He e eq_refl). }
  intros source_type.
  apply never_throws_mbind; [done|]. intros _.
  apply never_throws_mbind; [done|]. intros _.
  apply never_throws_bind; [by destruct lines0|]. intros [change_op_input lines1].
  apply never_throws_bind.
  { case_bool_decide; [|done].
    repeat (apply never_throws_mbind; [done|]; intros _).
    apply never_throws_bind; [apply never_throws_get_choice|]. by intros []. }
  intros [op_type lines2].
  apply never_throws_bind.
  { case_bool_decide.
    - apply never_throws_mbind; [done|]. intros _.
      apply never_throws_mbind; [done|]. intros _.
      apply never_throws_bind; [apply never_throws_get_choice|]. intros [choice lines3].
      destruct (default _ _) as [[key target_format] supports_password].
      apply never_throws_mbind; [done|]. intros _.
      apply never_throws_bind; [by destruct lines3|]. intros [target lines4].
      case_bool_decide; [done|].
      destruct (supports_password && _); [|done].
      apply never_throws_bind; [apply never_throws_mbind; [done|]; intros _;
                                apply never_throws_confirmation|].
      intros [[] lines5]; [|done].
      apply never_throws_bind; [apply never_throws_new_password|]. by intros [].
    - apply never_throws_bind.
      { case_bool_decide; [|done].
        apply never_throws_bind; [apply never_throws_mbind; [done|]; intros _;
                                  apply never_throws_confirmation|].
        intros [[] lines5]; [|done].
        apply never_throws_bind; [apply never_throws_get_password|]. by intros []. }
      intros [options1 lines3].
      apply never_throws_mbind; [done|]. intros _.
      apply never_throws_bind; [by destruct lines3|]. by intros []. }
  intros [[target_format options1] lines3].
  apply never_throws_bind; [apply never_throws_resolve_existing_target|].
  intros [go target]. destruct go; cbn [negb]; [|done].
  apply never_throws_bind; [apply never_throws_mbind; [done|]; intros _;
                            apply never_throws_confirmation|].
  intros [delete_source lines4].
  apply never_throws_mbind.
  { case_bool_decide; [apply never_throws_compress | apply never_throws_decompress]. }
  intros _. unfold never_throws, when, emit. rewrite ?mbind_eq.
  destruct delete_source; [destruct (fs_remove_all_fails w _)|]; done.
Qed.

(** ** A cancelled run *)


